(** * Persistence layer of the Bot Browser extension

    A shallow embedding of the storage module (the tiered cache made of the
    localForage store, the localStorage fallback and the in-memory
    [memoryCache]) together with the properties its specification states.

    JavaScript values are modelled by their contents; exceptions are an
    explicit result type; the module-level variables of the source
    ([memoryCache], [isStorageInitialized]) and the two browser stores are
    fields of one [world] record that every operation threads. *)

From Stdlib Require Import ZArith String List Bool Lia.
From stdpp Require Import base option list gmap strings.

Local Open Scope Z_scope.
Local Open Scope string_scope.
Set Warnings "-register-all".

(** ** JavaScript values *)

Module Js.

Inductive jsval : Type :=
| JUndefined
| JNull
| JBool (b : bool)
| JNum (n : Z)
| JStr (s : string)
| JArr (elems : list jsval)
| JObj (props : list (string * jsval)).

Inductive js_error : Type := TypeError | SyntaxError | StorageError.

(** The result of evaluating code that may throw. *)
Inductive outcome (A : Type) : Type :=
| Ret (a : A)
| Exn (e : js_error).
Arguments Ret {A} a.
Arguments Exn {A} e.

Definition obind {A B} (m : outcome A) (f : A -> outcome B) : outcome B :=
  match m with
  | Ret a => f a
  | Exn e => Exn e
  end.

Notation "x <- m ;; k" := (obind m (fun x => k))
  (at level 100, m at next level, right associativity).

(** ToBoolean. Numbers are integers here, so the only falsy number is 0. *)
Definition truthy (v : jsval) : bool :=
  match v with
  | JUndefined | JNull => false
  | JBool b => b
  | JNum n => negb (n =? 0)%Z
  | JStr s => negb (String.eqb s "")
  | JArr _ | JObj _ => true
  end.

(** [a || b] *)
Definition js_or (a b : jsval) : jsval := if truthy a then a else b.

(** [a === b]. Primitives compare by value. Arrays and objects compare by
    reference in JavaScript; values are modelled by content only, so two
    array or object operands are taken to be distinct references. *)
Definition strict_eq (a b : jsval) : bool :=
  match a, b with
  | JUndefined, JUndefined => true
  | JNull, JNull => true
  | JBool x, JBool y => Bool.eqb x y
  | JNum x, JNum y => (x =? y)%Z
  | JStr x, JStr y => String.eqb x y
  | _, _ => false
  end.

Fixpoint assoc (k : string) (ps : list (string * jsval)) : option jsval :=
  match ps with
  | [] => None
  | (k', v) :: ps' => if String.eqb k k' then Some v else assoc k ps'
  end.

(** Member read [v.k] without the null check: own data properties of objects
    and [length] of arrays and strings; everything else is [undefined]. *)
Definition prop (v : jsval) (k : string) : jsval :=
  match v with
  | JObj ps => default JUndefined (assoc k ps)
  | JArr l => if String.eqb k "length" then JNum (Z.of_nat (List.length l)) else JUndefined
  | JStr s => if String.eqb k "length" then JNum (Z.of_nat (String.length s)) else JUndefined
  | _ => JUndefined
  end.

Definition nullish (v : jsval) : bool :=
  match v with
  | JUndefined | JNull => true
  | _ => false
  end.

(** Member read [v.k]: reading a property of [null] or [undefined] throws. *)
Definition getProp (v : jsval) (k : string) : outcome jsval :=
  if nullish v then Exn TypeError else Ret (prop v k).

Fixpoint setAssoc (k : string) (x : jsval) (ps : list (string * jsval))
  : list (string * jsval) :=
  match ps with
  | [] => [(k, x)]
  | (k', v) :: ps' => if String.eqb k k' then (k, x) :: ps' else (k', v) :: setAssoc k x ps'
  end.

(** Member write [v.k = x] in strict mode (ES modules): it throws on [null],
    [undefined] and on primitives. An array accepts the write, but a named
    property is not part of its elements, so its content is unchanged. *)
Definition setProp (v : jsval) (k : string) (x : jsval) : outcome jsval :=
  match v with
  | JObj ps => Ret (JObj (setAssoc k x ps))
  | JArr l => Ret (JArr l)
  | _ => Exn TypeError
  end.

(** ToNumber for the operands of [-] and [<], [>]: [None] stands for NaN
    (strings and objects are not converted). *)
Definition to_number (v : jsval) : option Z :=
  match v with
  | JNum n => Some n
  | JBool b => Some (if b then 1 else 0)
  | JNull => Some 0
  | _ => None
  end.

(** [xs.slice(0, e)] on a list: a negative [e] counts from the end. *)
Definition slice0 {A} (l : list A) (e : Z) : list A :=
  if (e <? 0)%Z then firstn (Z.to_nat (Z.max 0 (Z.of_nat (List.length l) + e))) l
  else firstn (Z.to_nat e) l.

(** [s.substring(0, e)]: a negative [e] is taken as 0. *)
Definition substring0 (s : string) (e : Z) : string :=
  String.substring 0 (Z.to_nat e) s.

(** [s.slice(0, e)] on a string. *)
Definition str_slice0 (s : string) (e : Z) : string :=
  if (e <? 0)%Z then String.substring 0 (Z.to_nat (Z.max 0 (Z.of_nat (String.length s) + e))) s
  else String.substring 0 (Z.to_nat e) s.

(** [v.slice(0, e)]: defined on arrays and strings, a TypeError elsewhere
    (the member [slice] is missing, or [v] is null). *)
Definition js_slice0 (v : jsval) (e : Z) : outcome jsval :=
  match v with
  | JArr l => Ret (JArr (slice0 l e))
  | JStr s => Ret (JStr (str_slice0 s e))
  | _ => Exn TypeError
  end.

(** The receiver of an array method ([filter], [some], [findIndex]): anything
    that is not an array has no such method (or is null) and the call throws. *)
Definition as_array (v : jsval) : outcome (list jsval) :=
  match v with
  | JArr l => Ret l
  | _ => Exn TypeError
  end.

(** [l.filter(f)] with a callback that may throw. *)
Fixpoint filterM (f : jsval -> outcome bool) (l : list jsval) : outcome (list jsval) :=
  match l with
  | [] => Ret []
  | x :: l' =>
      b <- f x;;
      r <- filterM f l';;
      Ret (if b then x :: r else r)
  end.

(** [l.some(f)]: stops at the first element for which [f] holds. *)
Fixpoint someM (f : jsval -> outcome bool) (l : list jsval) : outcome bool :=
  match l with
  | [] => Ret false
  | x :: l' =>
      b <- f x;;
      if b then Ret true else someM f l'
  end.

(** [l.findIndex(f)], counted from [i]; [None] is the result -1. *)
Fixpoint findIndexM (f : jsval -> outcome bool) (l : list jsval) (i : nat)
  : outcome (option nat) :=
  match l with
  | [] => Ret None
  | x :: l' =>
      b <- f x;;
      if b then Ret (Some i) else findIndexM f l' (S i)
  end.

(** [findIndexM] for a callback that does not throw. *)
Fixpoint findIndex (g : jsval -> bool) (l : list jsval) (i : nat) : option nat :=
  match l with
  | [] => None
  | x :: l' => if g x then Some i else findIndex g l' (S i)
  end.

(** [c.id === card.id], the callback shared by the collection operations. *)
Definition same_id (c card : jsval) : outcome bool :=
  a <- getProp c "id";;
  b <- getProp card "id";;
  Ret (strict_eq a b).

(** [b.id === cardId] *)
Definition has_id (cardId : jsval) (b : jsval) : outcome bool :=
  a <- getProp b "id";;
  Ret (strict_eq a cardId).

Definition negM (m : outcome bool) : outcome bool := b <- m;; Ret (negb b).

End Js.
Export Js.

(** ** The world: module state and the two browser stores *)

(** [memoryCache] of the source. A slot holds whatever value was last
    assigned to it, which after [initializeStorage] is whatever the stores
    held. *)
Record memCache : Type := MemCache {
  persistentSearches : gmap string jsval;
  searchCollapsed : jsval;
  recentlyViewed : jsval;
  importStats : jsval;
  bookmarks : jsval;
  importedCards : jsval
}.

Record world : Type := World {
  memoryCache : memCache;
  isStorageInitialized : bool;
  (** the localForage store 'keyval' (IndexedDB) *)
  forage : gmap string jsval;
  (** localStorage, in the order of [localStorage.key(i)] *)
  localStorage : list (string * string);
  (** [idbSet] calls that were started and not awaited, oldest first *)
  inflight : list (string * jsval);
  (** the behaviour of the environment: which store operations throw *)
  forage_set_fails : string -> bool;
  forage_get_fails : string -> bool;
  storage_set_fails : string -> bool
}.

Definition initialImportStats : jsval :=
  JObj [("totalCharacters", JNum 0); ("totalLorebooks", JNum 0);
        ("imports", JArr []); ("bySource", JObj []); ("byCreator", JObj [])].

Definition initialMemoryCache : memCache :=
  {| persistentSearches := ∅;
     searchCollapsed := JBool false;
     recentlyViewed := JArr [];
     importStats := initialImportStats;
     bookmarks := JArr [];
     importedCards := JArr [] |}.

Definition set_memoryCache (mc : memCache) (w : world) : world :=
  {| memoryCache := mc;
     isStorageInitialized := isStorageInitialized w;
     forage := forage w;
     localStorage := localStorage w;
     inflight := inflight w;
     forage_set_fails := forage_set_fails w;
     forage_get_fails := forage_get_fails w;
     storage_set_fails := storage_set_fails w |}.

Definition set_initialized (b : bool) (w : world) : world :=
  {| memoryCache := memoryCache w;
     isStorageInitialized := b;
     forage := forage w;
     localStorage := localStorage w;
     inflight := inflight w;
     forage_set_fails := forage_set_fails w;
     forage_get_fails := forage_get_fails w;
     storage_set_fails := storage_set_fails w |}.

Definition set_forage (m : gmap string jsval) (w : world) : world :=
  {| memoryCache := memoryCache w;
     isStorageInitialized := isStorageInitialized w;
     forage := m;
     localStorage := localStorage w;
     inflight := inflight w;
     forage_set_fails := forage_set_fails w;
     forage_get_fails := forage_get_fails w;
     storage_set_fails := storage_set_fails w |}.

Definition set_localStorage (l : list (string * string)) (w : world) : world :=
  {| memoryCache := memoryCache w;
     isStorageInitialized := isStorageInitialized w;
     forage := forage w;
     localStorage := l;
     inflight := inflight w;
     forage_set_fails := forage_set_fails w;
     forage_get_fails := forage_get_fails w;
     storage_set_fails := storage_set_fails w |}.

Definition set_inflight (q : list (string * jsval)) (w : world) : world :=
  {| memoryCache := memoryCache w;
     isStorageInitialized := isStorageInitialized w;
     forage := forage w;
     localStorage := localStorage w;
     inflight := q;
     forage_set_fails := forage_set_fails w;
     forage_get_fails := forage_get_fails w;
     storage_set_fails := storage_set_fails w |}.

(** The same world under another behaviour of the stores. *)
Definition with_faults (fs fg ss : string -> bool) (w : world) : world :=
  {| memoryCache := memoryCache w;
     isStorageInitialized := isStorageInitialized w;
     forage := forage w;
     localStorage := localStorage w;
     inflight := inflight w;
     forage_set_fails := fs;
     forage_get_fails := fg;
     storage_set_fails := ss |}.

Definition set_searchCollapsed (v : jsval) (mc : memCache) : memCache :=
  {| persistentSearches := persistentSearches mc; searchCollapsed := v;
     recentlyViewed := recentlyViewed mc; importStats := importStats mc;
     bookmarks := bookmarks mc; importedCards := importedCards mc |}.

Definition set_recentlyViewed (v : jsval) (mc : memCache) : memCache :=
  {| persistentSearches := persistentSearches mc; searchCollapsed := searchCollapsed mc;
     recentlyViewed := v; importStats := importStats mc;
     bookmarks := bookmarks mc; importedCards := importedCards mc |}.

Definition set_importStats (v : jsval) (mc : memCache) : memCache :=
  {| persistentSearches := persistentSearches mc; searchCollapsed := searchCollapsed mc;
     recentlyViewed := recentlyViewed mc; importStats := v;
     bookmarks := bookmarks mc; importedCards := importedCards mc |}.

Definition set_bookmarks (v : jsval) (mc : memCache) : memCache :=
  {| persistentSearches := persistentSearches mc; searchCollapsed := searchCollapsed mc;
     recentlyViewed := recentlyViewed mc; importStats := importStats mc;
     bookmarks := v; importedCards := importedCards mc |}.

Definition set_importedCards (v : jsval) (mc : memCache) : memCache :=
  {| persistentSearches := persistentSearches mc; searchCollapsed := searchCollapsed mc;
     recentlyViewed := recentlyViewed mc; importStats := importStats mc;
     bookmarks := bookmarks mc; importedCards := v |}.

Definition set_persistentSearches (m : gmap string jsval) (mc : memCache) : memCache :=
  {| persistentSearches := m; searchCollapsed := searchCollapsed mc;
     recentlyViewed := recentlyViewed mc; importStats := importStats mc;
     bookmarks := bookmarks mc; importedCards := importedCards mc |}.

(** ** Stateful code that may throw *)

Definition M (A : Type) : Type := world -> outcome A * world.

Definition ret {A} (a : A) : M A := fun w => (Ret a, w).

Definition sbind {A B} (m : M A) (f : A -> M B) : M B := fun w =>
  match m w with
  | (Ret a, w') => f a w'
  | (Exn e, w') => (Exn e, w')
  end.

Notation "x <~ m ;; k" := (sbind m (fun x => k))
  (at level 100, m at next level, right associativity).

(** [try { body } catch (e) { handler }]: the handler runs in the state the
    body left behind. *)
Definition try_catch {A} (body : M A) (handler : js_error -> M A) : M A :=
  fun w =>
    match body w with
    | (Ret a, w') => (Ret a, w')
    | (Exn e, w') => handler e w'
    end.

Definition lift {A} (o : outcome A) : M A := fun w => (o, w).

Definition modify (f : world -> world) : M unit := fun w => (Ret tt, f w).

Definition gets {A} (f : world -> A) : M A := fun w => (Ret (f w), w).

(** ** The browser stores *)

(** [localforage.setItem(key, val)]; localForage stores [null] for
    [undefined]. *)
Definition forage_setItem (key : string) (val : jsval) : M unit := fun w =>
  if forage_set_fails w key then (Exn StorageError, w)
  else (Ret tt, set_forage (<[key := if val is JUndefined then JNull else val]> (forage w)) w).

(** [localforage.getItem(key)]: [null] for a key that is not stored. *)
Definition forage_getItem (key : string) : M jsval := fun w =>
  if forage_get_fails w key then (Exn StorageError, w)
  else (Ret (default JNull (forage w !! key)), w).

Fixpoint ls_lookup (key : string) (l : list (string * string)) : option string :=
  match l with
  | [] => None
  | (k, v) :: l' => if String.eqb key k then Some v else ls_lookup key l'
  end.

Fixpoint ls_update (key s : string) (l : list (string * string)) : list (string * string) :=
  match l with
  | [] => [(key, s)]
  | (k, v) :: l' => if String.eqb key k then (k, s) :: l' else (k, v) :: ls_update key s l'
  end.

(** [localStorage.getItem(key)]: [None] is [null]. *)
Definition storage_getItem (key : string) (w : world) : option string :=
  ls_lookup key (localStorage w).

(** [localStorage.setItem(key, s)] *)
Definition storage_setItem (key s : string) : M unit := fun w =>
  if storage_set_fails w key then (Exn StorageError, w)
  else (Ret tt, set_localStorage (ls_update key s (localStorage w)) w).

(** ** Durable store adapter, TTL cache and initialization

    [JSON.parse] and [JSON.stringify] are built-ins of the platform and are
    parameters of this section: [JSON_parse s = None] when parsing [s]
    throws, [JSON_stringify v = None] when serializing [v] throws, and
    [Some s] gives the string that [localStorage.setItem] receives. Calls to
    [logger] only write to the console and are left out. *)

Section Adapter.

Context (JSON_parse : string -> option jsval).
Context (JSON_stringify : jsval -> option string).

Definition parse (s : string) : outcome jsval :=
  match JSON_parse s with
  | Some v => Ret v
  | None => Exn SyntaxError
  end.

Definition stringify (v : jsval) : outcome string :=
  match JSON_stringify v with
  | Some s => Ret s
  | None => Exn TypeError
  end.

Definition idbSet (key : string) (val : jsval) : M unit :=
  try_catch (forage_setItem key val)
    (fun _ =>
       try_catch (s <~ lift (stringify val) ;; storage_setItem key s)
         (fun _ => ret tt)).

(** What the catch block of [idbSet] leaves behind: the localStorage write
    when both the serialization and the write succeed, nothing otherwise. *)
Definition fallback_write (key : string) (val : jsval) (w : world) : world :=
  match JSON_stringify val with
  | Some s =>
      if storage_set_fails w key then w
      else set_localStorage (ls_update key s (localStorage w)) w
  | None => w
  end.

Definition idbGet (key : string) : M jsval :=
  try_catch (forage_getItem key) (fun _ => ret JNull).

(** [data && data.timestamp && (Date.now() - data.timestamp < ttlMs)], where
    [now] is what [Date.now()] returns. [data] is truthy when its members
    are read, so the reads cannot throw. *)
Definition is_fresh (now : Z) (data : jsval) (ttlMs : Z) : bool :=
  truthy data && truthy (prop data "timestamp") &&
  match to_number (prop data "timestamp") with
  | Some t => (now - t <? ttlMs)%Z
  | None => false
  end.

(** [ttlMs] is [None] when the argument is omitted (default: one hour). *)
Definition idbGetCachedApi (now : Z) (key : string) (ttlMs : option Z) : M jsval :=
  data <~ idbGet key ;;
  if is_fresh now data (default 3600000%Z ttlMs) then ret (prop data "payload")
  else ret JNull.

Definition idbSetCachedApi (now : Z) (key : string) (payload : jsval) : M unit :=
  idbSet key (JObj [("timestamp", JNum now); ("payload", payload)]).

(** The entry that [idbSetCachedApi] stores at time [t]. *)
Definition cacheEntry (t : Z) (payload : jsval) : jsval :=
  JObj [("timestamp", JNum t); ("payload", payload)].

Definition keys : list string :=
  ["botBrowser_searchCollapsed"; "botBrowser_recentlyViewed"; "botBrowser_importStats";
   "botBrowser_bookmarks"; "botBrowser_importedCards"].

(** The chain of [if (key === ...) memoryCache.slot = v] statements. *)
Definition assign_slot (key : string) (v : jsval) (mc : memCache) : memCache :=
  let mc := if String.eqb key "botBrowser_searchCollapsed" then set_searchCollapsed v mc else mc in
  let mc := if String.eqb key "botBrowser_recentlyViewed" then set_recentlyViewed v mc else mc in
  let mc := if String.eqb key "botBrowser_importStats" then set_importStats v mc else mc in
  let mc := if String.eqb key "botBrowser_bookmarks" then set_bookmarks v mc else mc in
  let mc := if String.eqb key "botBrowser_importedCards" then set_importedCards v mc else mc in
  mc.

Definition load_slot (key : string) (v : jsval) : M unit :=
  modify (fun w => set_memoryCache (assign_slot key v (memoryCache w)) w).

(** Truthiness of what [localStorage.getItem] returned. *)
Definition str_truthy (o : option string) : bool :=
  match o with
  | Some s => negb (String.eqb s "")
  | None => false
  end.

(** [JSON.parse(lsVal)]; [JSON.parse(null)] is [null]. *)
Definition parse_item (o : option string) : outcome jsval :=
  match o with
  | Some s => parse s
  | None => Ret JNull
  end.

(** The body of the loop over [keys] in [initializeStorage]. *)
Definition migrate_key (key : string) : M unit :=
  lsVal <~ gets (storage_getItem key) ;;
  idbVal0 <~ idbGet key ;;
  idbVal <~ (if str_truthy lsVal && negb (truthy idbVal0) then
               try_catch
                 (parsed <~ lift (parse_item lsVal) ;;
                  _ <~ idbSet key parsed ;;
                  ret parsed)
                 (fun _ => ret idbVal0)
             else ret idbVal0) ;;
  if negb (nullish idbVal) then load_slot key idbVal
  else if str_truthy lsVal then
    try_catch (parsed <~ lift (parse_item lsVal) ;; load_slot key parsed)
      (fun _ => ret tt)
  else ret tt.

Fixpoint for_each {A} (body : A -> M unit) (l : list A) : M unit :=
  match l with
  | [] => ret tt
  | x :: l' => _ <~ body x ;; for_each body l'
  end.

Definition lastSearch_prefix : string := "botBrowser_lastSearch_".

(** [key.replace('botBrowser_lastSearch_', '')] for a key that starts with
    the prefix. *)
Definition serviceName_of (key : string) : string :=
  String.substring (String.length lastSearch_prefix)
    (String.length key - String.length lastSearch_prefix) key.

(** The body of the loop over [localStorage.key(i)]. *)
Definition load_search (key : string) : M unit :=
  if negb (String.eqb key "") && String.prefix lastSearch_prefix key then
    lsVal <~ gets (storage_getItem key) ;;
    v <~ lift (parse_item lsVal) ;;
    modify (fun w =>
      set_memoryCache
        (set_persistentSearches
           (<[serviceName_of key := v]> (persistentSearches (memoryCache w)))
           (memoryCache w)) w)
  else ret tt.

Definition initializeStorage : M unit := fun w =>
  if isStorageInitialized w then (Ret tt, w)
  else
    (_ <~ for_each migrate_key keys ;;
     _ <~ try_catch
            (entries <~ gets localStorage ;; for_each load_search (map fst entries))
            (fun _ => ret tt) ;;
     modify (set_initialized true)) w.

(** A write that was started without [await] completes later: [settle]
    completes the oldest one, [settle_all] all of them in call order. *)
Definition settle (w : world) : world :=
  match inflight w with
  | [] => w
  | (key, val) :: q => snd (idbSet key val (set_inflight q w))
  end.

Fixpoint settle_n (n : nat) (w : world) : world :=
  match n with
  | O => w
  | S n' => settle_n n' (settle w)
  end.

Definition settle_all (w : world) : world := settle_n (List.length (inflight w)) w.

End Adapter.

(** [idbSet(key, val)] called without [await]: the write is in flight. The
    value is recorded by its contents at the time of the call. *)
Definition idbSet_async (key : string) (val : jsval) : M unit :=
  modify (fun w => set_inflight (inflight w ++ [(key, val)]) w).

(** ** Synchronous adapters: reads from the mirror, writes in the background *)

(** [extension_settings[extensionName]]: the two feature flags by their
    truth value, and [maxRecentlyViewed] as an integer (a missing setting
    is falsy like 0). *)
Record settings : Type := Settings {
  recentlyViewedEnabled : bool;
  persistentSearchEnabled : bool;
  maxRecentlyViewed : Z
}.

(** A parameter with the default value [d]: the default applies when the
    argument is [undefined]. *)
Definition default_param (d v : jsval) : jsval :=
  match v with
  | JUndefined => d
  | _ => v
  end.

Definition loadPersistentSearch (st : settings) (serviceName : string) (w : world) : jsval :=
  if negb (persistentSearchEnabled st) then JNull
  else js_or (default JUndefined (persistentSearches (memoryCache w) !! serviceName)) JNull.

(** The object [data] of [savePersistentSearch]; the four advanced filter
    parameters default to [null]. *)
Definition searchData (filters sortBy advancedFilters jannyAdvancedFilters
    ctAdvancedFilters wyvernAdvancedFilters : jsval) : jsval :=
  JObj [("filters", filters); ("sortBy", sortBy);
        ("advancedFilters", default_param JNull advancedFilters);
        ("jannyAdvancedFilters", default_param JNull jannyAdvancedFilters);
        ("ctAdvancedFilters", default_param JNull ctAdvancedFilters);
        ("wyvernAdvancedFilters", default_param JNull wyvernAdvancedFilters)].

Section PersistentSearch.

Context (JSON_stringify : jsval -> option string).

Definition savePersistentSearch (st : settings) (serviceName : string)
    (filters sortBy advancedFilters jannyAdvancedFilters ctAdvancedFilters
       wyvernAdvancedFilters : jsval) : M unit :=
  if negb (persistentSearchEnabled st) then ret tt
  else
    let data := searchData filters sortBy advancedFilters jannyAdvancedFilters
                  ctAdvancedFilters wyvernAdvancedFilters in
    _ <~ modify (fun w =>
           set_memoryCache
             (set_persistentSearches
                (<[serviceName := data]> (persistentSearches (memoryCache w)))
                (memoryCache w)) w) ;;
    try_catch
      (s <~ lift (stringify JSON_stringify data) ;;
       storage_setItem (lastSearch_prefix ++ serviceName) s)
      (fun _ => ret tt).

End PersistentSearch.

Definition loadSearchCollapsed (w : world) : jsval := searchCollapsed (memoryCache w).

Definition saveSearchCollapsed (collapsed : jsval) : M unit :=
  _ <~ modify (fun w => set_memoryCache (set_searchCollapsed collapsed (memoryCache w)) w) ;;
  idbSet_async "botBrowser_searchCollapsed" collapsed.

(** [extension_settings[extensionName].maxRecentlyViewed || 10] *)
Definition maxRecent (st : settings) : Z :=
  if (maxRecentlyViewed st =? 0)%Z then 10%Z else maxRecentlyViewed st.

(** [a > n] for a number [n]; a comparison with NaN is false. *)
Definition js_gt (a : jsval) (n : Z) : bool :=
  match to_number a with
  | Some x => (n <? x)%Z
  | None => false
  end.

(** The function has no try block: a throwing [slice] propagates. *)
Definition loadRecentlyViewed (st : settings) : M jsval :=
  if negb (recentlyViewedEnabled st) then ret (JArr [])
  else
    rv <~ gets (fun w => js_or (recentlyViewed (memoryCache w)) (JArr [])) ;;
    if js_gt (prop rv "length") (maxRecent st) then
      rv' <~ lift (js_slice0 rv (maxRecent st)) ;;
      _ <~ modify (fun w => set_memoryCache (set_recentlyViewed rv' (memoryCache w)) w) ;;
      ret rv'
    else ret rv.

(** The object literal of [addToRecentlyViewed], for a [card] whose members
    can be read. *)
Definition recentRecord_fields (card : jsval) : jsval :=
  let p := prop card in
  JObj
    [("id", p "id"); ("name", p "name"); ("creator", p "creator");
     ("avatar_url", js_or (p "avatar_url") (p "image_url"));
     ("service", p "service"); ("chunk", p "chunk"); ("chunk_idx", p "chunk_idx");
     ("sourceService", p "sourceService");
     ("possibleNsfw", js_or (p "possibleNsfw") (JBool false));
     ("isLiveChub", js_or (p "isLiveChub") (JBool false));
     ("fullPath", js_or (p "fullPath") JNull);
     ("nodeId", js_or (p "nodeId") JNull);
     ("isLorebook", js_or (p "isLorebook") (JBool false));
     ("isJannyAI", js_or (p "isJannyAI") (JBool false));
     ("slug", js_or (p "slug") JNull);
     ("isCharacterTavern", js_or (p "isCharacterTavern") (JBool false));
     ("isWyvern", js_or (p "isWyvern") (JBool false));
     ("isQuillGen",
        js_or (js_or (JBool (strict_eq (p "service") (JStr "quillgen")))
                     (JBool (strict_eq (p "sourceService") (JStr "quillgen"))))
              (JBool false));
     ("description",
        js_or (js_or (js_or (p "description") (p "tagline")) (p "summary")) JNull);
     ("personality", js_or (p "personality") JNull);
     ("scenario", js_or (p "scenario") JNull);
     ("first_message", js_or (js_or (p "first_message") (p "first_mes")) JNull);
     ("mes_example", js_or (p "mes_example") JNull);
     ("alternate_greetings", js_or (p "alternate_greetings") JNull);
     ("tags", js_or (p "tags") JNull);
     ("creator_notes", js_or (p "creator_notes") JNull);
     ("nTokens", js_or (js_or (p "nTokens") (p "token_count")) JNull);
     ("_rawData", js_or (p "_rawData") JNull)].

(** Every member read in the literal is a read of [card], so building it
    throws exactly when [card] is null or undefined. *)
Definition recentRecord (card : jsval) : outcome jsval :=
  if nullish card then Exn TypeError else Ret (recentRecord_fields card).

(** [if (xs.length > n) xs = xs.slice(0, n)] *)
Definition trim (l : list jsval) (n : Z) : list jsval :=
  if (n <? Z.of_nat (List.length l))%Z then slice0 l n else l.

(** The first statement of the try block of [addToRecentlyViewed]:
    [recentlyViewed.filter(c => c.id !== card.id)], for the argument [rv]. *)
Definition recentlyViewed_filter (rv card : jsval) : outcome (list jsval) :=
  l <- as_array rv ;;
  filterM (fun c => negM (same_id c card)) l.

(** The rest of the try block, once the variable [recentlyViewed] holds the
    filtered copy. *)
Definition recentlyViewed_store (st : settings) (filtered : list jsval) (card : jsval)
  : M jsval :=
  rec <~ lift (recentRecord card) ;;
  let kept := JArr (trim (rec :: filtered) (maxRecent st)) in
  _ <~ modify (fun w => set_memoryCache (set_recentlyViewed kept (memoryCache w)) w) ;;
  _ <~ idbSet_async "botBrowser_recentlyViewed" kept ;;
  ret kept.

(** [rv] is the argument [recentlyViewed]. The catch block returns the
    variable [recentlyViewed]: the argument while [filter] runs, the
    filtered copy once the assignment has been made. *)
Definition addToRecentlyViewed (st : settings) (rv card : jsval) : M jsval :=
  if negb (recentlyViewedEnabled st) then ret rv
  else fun w =>
    match recentlyViewed_filter rv card with
    | Exn _ => (Ret rv, w)
    | Ret filtered =>
        try_catch (recentlyViewed_store st filtered card)
          (fun _ => ret (JArr filtered)) w
    end.

Definition loadImportStats (w : world) : jsval := importStats (memoryCache w).

Definition saveImportStats (stats : jsval) : M unit :=
  _ <~ modify (fun w => set_memoryCache (set_importStats stats (memoryCache w)) w) ;;
  idbSet_async "botBrowser_importStats" stats.

Definition loadBookmarks (w : world) : jsval :=
  js_or (bookmarks (memoryCache w)) (JArr []).

Definition saveBookmarks (b : jsval) : M unit :=
  _ <~ modify (fun w => set_memoryCache (set_bookmarks b (memoryCache w)) w) ;;
  idbSet_async "botBrowser_bookmarks" b.

(** A change made in place to the array that [loadBookmarks] returned. That
    array is the mirror's own whenever the mirror slot is truthy (otherwise
    it is a fresh empty array), so the mirror changes with it. *)
Definition bookmarks_in_place (v : jsval) : M unit :=
  modify (fun w =>
    if truthy (bookmarks (memoryCache w))
    then set_memoryCache (set_bookmarks v (memoryCache w)) w else w).

(** The object literal of [addBookmark], for a [card] whose members can be
    read; [iso] is what [new Date().toISOString()] returns. *)
Definition bookmarkRecord_fields (iso : string) (card : jsval) : jsval :=
  let p := prop card in
  JObj
      [("id", p "id"); ("name", p "name"); ("creator", p "creator");
       ("avatar_url", js_or (p "avatar_url") (p "image_url"));
       ("service", p "service"); ("chunk", p "chunk"); ("chunk_idx", p "chunk_idx");
       ("sourceService", p "sourceService");
       ("possibleNsfw", js_or (p "possibleNsfw") (JBool false));
       ("isLiveChub", js_or (p "isLiveChub") (JBool false));
       ("fullPath", js_or (p "fullPath") JNull);
       ("nodeId", js_or (p "nodeId") JNull);
       ("isLorebook", js_or (p "isLorebook") (JBool false));
       ("isJannyAI", js_or (p "isJannyAI") (JBool false));
       ("slug", js_or (p "slug") JNull);
       ("isWyvern", js_or (p "isWyvern") (JBool false));
       ("bookmarkedAt", JStr iso)].

Definition bookmarkRecord (iso : string) (card : jsval) : outcome jsval :=
  if nullish card then Exn TypeError else Ret (bookmarkRecord_fields iso card).

(** The try block of [addBookmark]. *)
Definition addBookmark_try (iso : string) (card : jsval) : M jsval :=
  bs <~ gets loadBookmarks ;;
  l <~ lift (as_array bs) ;;
  already <~ lift (someM (fun b => same_id b card) l) ;;
  if already then ret bs
  else
    rec <~ lift (bookmarkRecord iso card) ;;
    let bs' := JArr (rec :: l) in
    _ <~ bookmarks_in_place bs' ;;
    _ <~ saveBookmarks bs' ;;
    ret bs'.

Definition addBookmark (iso : string) (card : jsval) : M jsval :=
  try_catch (addBookmark_try iso card) (fun _ => gets loadBookmarks).

(** The try block of [removeBookmark]. *)
Definition removeBookmark_try (cardId : jsval) : M jsval :=
  bs <~ gets loadBookmarks ;;
  l <~ lift (as_array bs) ;;
  l' <~ lift (filterM (fun b => negM (has_id cardId b)) l) ;;
  _ <~ (if (List.length l' <? List.length l)%nat then saveBookmarks (JArr l') else ret tt) ;;
  ret (JArr l').

Definition removeBookmark (cardId : jsval) : M jsval :=
  try_catch (removeBookmark_try cardId) (fun _ => gets loadBookmarks).

Definition isBookmarked (cardId : jsval) (w : world) : outcome bool :=
  l <- as_array (loadBookmarks w) ;; someM (has_id cardId) l.

Definition loadImportedCards (w : world) : jsval :=
  js_or (importedCards (memoryCache w)) (JArr []).

Definition saveImportedCards (cards : jsval) : M unit :=
  _ <~ modify (fun w => set_memoryCache (set_importedCards cards (memoryCache w)) w) ;;
  idbSet_async "botBrowser_importedCards" cards.

(** In-place change of the array that [loadImportedCards] returned (see
    [bookmarks_in_place]). *)
Definition importedCards_in_place (v : jsval) : M unit :=
  modify (fun w =>
    if truthy (importedCards (memoryCache w))
    then set_memoryCache (set_importedCards v (memoryCache w)) w else w).

(** [v.substring(0, e)]: only a string has the method. *)
Definition js_substring0 (v : jsval) (e : Z) : outcome jsval :=
  match v with
  | JStr s => Ret (JStr (substring0 s e))
  | _ => Exn TypeError
  end.

(** The object literal [importRecord] of [trackImportedCard], given the
    value computed for its member [desc_preview]. *)
Definition importRecord_fields (iso : string) (card type desc_preview : jsval) : jsval :=
  let p := prop card in
  JObj
      [("id", p "id"); ("name", p "name");
       ("creator", js_or (p "creator") (JStr "Unknown"));
       ("avatar_url", js_or (p "avatar_url") (p "image_url"));
       ("image_url", js_or (p "image_url") (p "avatar_url"));
       ("tags", js_or (p "tags") (JArr []));
       ("description", js_or (js_or (p "description") (p "desc_preview")) (JStr ""));
       ("desc_preview", desc_preview);
       ("service", p "service");
       ("sourceService", js_or (p "sourceService") (p "service"));
       ("possibleNsfw", js_or (p "possibleNsfw") (JBool false));
       ("nTokens", js_or (p "nTokens") JNull);
       ("created_at", js_or (p "created_at") JNull);
       ("type", type);
       ("imported_at", JStr iso);
       ("isLiveChub", js_or (p "isLiveChub") (JBool false));
       ("fullPath", js_or (p "fullPath") JNull);
       ("isJannyAI", js_or (p "isJannyAI") (JBool false));
       ("slug", js_or (p "slug") JNull);
       ("isCharacterTavern", js_or (p "isCharacterTavern") (JBool false));
       ("isMlpchag", js_or (p "isMlpchag") (JBool false));
       ("isWyvern", js_or (p "isWyvern") (JBool false))].

(** [card.desc_preview || (card.description ? card.description.substring(0, 200) : '')] *)
Definition desc_preview_of (card : jsval) : outcome jsval :=
  if truthy (prop card "desc_preview") then Ret (prop card "desc_preview")
  else if truthy (prop card "description") then js_substring0 (prop card "description") 200
  else Ret (JStr "").

Definition importRecord (iso : string) (card type : jsval) : outcome jsval :=
  if nullish card then Exn TypeError
  else
    desc_preview <- desc_preview_of card ;;
    Ret (importRecord_fields iso card type desc_preview).

(** The try block of [trackImportedCard]; [iso] is what
    [new Date().toISOString()] returns; [type] defaults to ['character'].
    Reading [importedCards[i]] outside the array gives
    [undefined], whose member write throws. *)
Definition trackImportedCard_try (iso : string) (card type : jsval) : M jsval :=
  cards <~ gets loadImportedCards ;;
  l <~ lift (as_array cards) ;;
  existingIndex <~ lift (findIndexM (fun c => same_id c card) l 0) ;;
  l1 <~ match existingIndex with
        | Some i =>
            stamped <~ lift (setProp (default JUndefined (l !! i)) "imported_at" (JStr iso)) ;;
            _ <~ importedCards_in_place (JArr (<[i := stamped]> l)) ;;
            let moved := stamped :: delete i l in
            _ <~ importedCards_in_place (JArr moved) ;;
            ret moved
        | None =>
            rec <~ lift (importRecord iso card (default_param (JStr "character") type)) ;;
            _ <~ importedCards_in_place (JArr (rec :: l)) ;;
            ret (rec :: l)
        end ;;
  let kept := JArr (trim l1 500) in
  _ <~ saveImportedCards kept ;;
  ret kept.

Definition trackImportedCard (iso : string) (card type : jsval) : M jsval :=
  try_catch (trackImportedCard_try iso card type) (fun _ => gets loadImportedCards).

(** The try block of [removeImportedCard]. *)
Definition removeImportedCard_try (cardId : jsval) : M jsval :=
  cards <~ gets loadImportedCards ;;
  l <~ lift (as_array cards) ;;
  l' <~ lift (filterM (fun c => negM (has_id cardId c)) l) ;;
  _ <~ (if (List.length l' <? List.length l)%nat then saveImportedCards (JArr l') else ret tt) ;;
  ret (JArr l').

Definition removeImportedCard (cardId : jsval) : M jsval :=
  try_catch (removeImportedCard_try cardId) (fun _ => gets loadImportedCards).

Definition clearImportedCards : M jsval :=
  _ <~ modify (fun w => set_memoryCache (set_importedCards (JArr []) (memoryCache w)) w) ;;
  _ <~ idbSet_async "botBrowser_importedCards" (JArr []) ;;
  ret (JArr []).

(** A JSON codec restricted to the literals [true], [false] and [null]; it
    throws on anything else. It instantiates the section parameters when the
    model is run on concrete stores. *)
Definition literal_parse (s : string) : option jsval :=
  if String.eqb s "true" then Some (JBool true)
  else if String.eqb s "false" then Some (JBool false)
  else if String.eqb s "null" then Some JNull
  else None.

Definition literal_stringify (v : jsval) : option string :=
  match v with
  | JBool true => Some "true"
  | JBool false => Some "false"
  | JNull => Some "null"
  | _ => None
  end.

Definition no_faults : string -> bool := fun _ => false.

(** The state of the module when it is loaded, over given stores. *)
Definition fresh_world (db : gmap string jsval) (ls : list (string * string)) : world :=
  {| memoryCache := initialMemoryCache;
     isStorageInitialized := false;
     forage := db;
     localStorage := ls;
     inflight := [];
     forage_set_fails := no_faults;
     forage_get_fails := no_faults;
     storage_set_fails := no_faults |}.

(** ** Vocabulary of the properties *)

Definition is_record (c : jsval) : bool :=
  match c with
  | JObj _ => true
  | _ => false
  end.

(** A record or card whose [id] is a string, as the data model has it. *)
Definition has_string_id (c : jsval) : bool :=
  match prop c "id" with
  | JStr _ => true
  | _ => false
  end.

Definition id_str (c : jsval) : string :=
  match prop c "id" with
  | JStr s => s
  | _ => ""
  end.

(** A card that [trackImportedCard] can snapshot: its [description], when it
    is consulted for the preview, is a string. *)
Definition importable (c : jsval) : bool :=
  has_string_id c &&
  (truthy (prop c "desc_preview") || negb (truthy (prop c "description")) ||
   match prop c "description" with JStr _ => true | _ => false end).

Definition other_than (x y : string) : bool := negb (String.eqb y x).

(** The distinct elements of a list in the order of their first occurrence. *)
Fixpoint keep_first (l : list string) : list string :=
  match l with
  | [] => []
  | x :: l' => x :: List.filter (other_than x) (keep_first l')
  end.

(** The distinct ids of a sequence of insertions, the most recently inserted
    first. *)
Definition newest_first (inserted : list string) : list string :=
  keep_first (rev inserted).

(** The distinct ids of a sequence of insertions by their first insertion,
    the latest newcomer first. *)
Definition first_seen (inserted : list string) : list string :=
  rev (keep_first inserted).

(** Successive [addToRecentlyViewed] calls: each call receives the
    collection that the previous call returned. *)
Fixpoint addAllRecentlyViewed (st : settings) (cards : list jsval) (rv : jsval) : M jsval :=
  match cards with
  | [] => ret rv
  | c :: cs => rv' <~ addToRecentlyViewed st rv c ;; addAllRecentlyViewed st cs rv'
  end.

(** Successive [addBookmark] calls, each with its own clock reading,
    followed by a [loadBookmarks] that reads the resulting collection. *)
Fixpoint addAllBookmarks (cards : list (string * jsval)) : M jsval :=
  match cards with
  | [] => gets loadBookmarks
  | (iso, c) :: cs => _ <~ addBookmark iso c ;; addAllBookmarks cs
  end.

(** Successive [trackImportedCard] calls with the default type, followed by
    a [loadImportedCards]. *)
Fixpoint trackAllImportedCards (cards : list (string * jsval)) : M jsval :=
  match cards with
  | [] => gets loadImportedCards
  | (iso, c) :: cs => _ <~ trackImportedCard iso c JUndefined ;; trackAllImportedCards cs
  end.

(** [importedCards[i].imported_at = iso] on a record. *)
Definition stamp (iso : string) (c : jsval) : jsval :=
  match c with
  | JObj ps => JObj (setAssoc "imported_at" (JStr iso) ps)
  | _ => c
  end.

(** The collection [trackImportedCard] computes from the records [l] for a
    card it can snapshot. *)
Definition tracked (iso : string) (card type : jsval) (l : list jsval) : list jsval :=
  trim
    (match findIndex (fun c => strict_eq (prop c "id") (prop card "id")) l 0 with
     | Some i => stamp iso (default JUndefined (l !! i)) :: delete i l
     | None =>
         importRecord_fields iso card (default_param (JStr "character") type)
           (match desc_preview_of card with Ret v => v | Exn _ => JUndefined end) :: l
     end) 500.

(** The collection [addToRecentlyViewed] computes from the records [l]. *)
Definition viewed (st : settings) (card : jsval) (l : list jsval) : list jsval :=
  trim (recentRecord_fields card ::
        List.filter (fun c => negb (strict_eq (prop c "id") (prop card "id"))) l)
       (maxRecent st).

(** The world some time after [w]: under any behaviour of the stores, [n]
    of the writes in flight have completed or failed. *)
Definition later (JSON_stringify : jsval -> option string)
    (fs fg ss : string -> bool) (n : nat) (w : world) : world :=
  settle_n JSON_stringify n (with_faults fs fg ss w).

(** An operation [op] whose try block is [body] contains its exceptions: it
    always returns normally, and when the try block throws it returns the
    collection [prior] as it was before the call and leaves the world as it
    was. *)
Definition contains_exceptions (body op : M jsval) (prior : world -> jsval) : Prop :=
  forall w,
    (exists r, fst (op w) = Ret r) /\
    (forall e w', body w = (Exn e, w') -> op w = (Ret (prior w), w)).

(** An operation [op] survives store failures: on a world whose stores
    behave in any way ([fs], [fg], [ss] say which operations throw) it
    returns what it returns otherwise, and after [n] of the writes in flight
    have completed or failed the accessor [load] returns that same value. *)
Definition survives_store_failure (JSON_stringify : jsval -> option string)
    (op : M jsval) (load : world -> outcome jsval) : Prop :=
  forall fs fg ss n w,
    fst (op (with_faults fs fg ss w)) = fst (op w) /\
    load (settle_n JSON_stringify n (snd (op (with_faults fs fg ss w)))) = fst (op w).

(** ** Concrete data on which the model is run *)

Definition sample_card (i : string) : jsval :=
  JObj [("id", JStr i); ("name", JStr ("Card " ++ i)); ("service", JStr "chub")].

(** A world whose mirror holds the records a, b in each collection and
    whose stores are empty. *)
Definition sample_world : world :=
  set_memoryCache
    (set_bookmarks (JArr [sample_card "a"; sample_card "b"])
       (set_importedCards (JArr [sample_card "a"; sample_card "b"])
          (set_recentlyViewed (JArr [sample_card "a"; sample_card "b"])
             initialMemoryCache)))
    (fresh_world ∅ []).

(** The stores of a world in which every localForage operation throws. *)
Definition all_fail : string -> bool := fun _ => true.

(** ** Vocabulary of the properties of initialization and of the stores *)

(** What localForage keeps for a value handed to [setItem]. *)
Definition stored (v : jsval) : jsval :=
  match v with
  | JUndefined => JNull
  | _ => v
  end.

(** The durable store after the writes [q] have completed in call order. *)
Definition apply_writes (q : list (string * jsval)) (m : gmap string jsval)
  : gmap string jsval :=
  fold_left (fun m kv => <[kv.1 := stored kv.2]> m) q m.

(** The localForage operations of the world never throw. *)
Definition healthy (w : world) : Prop :=
  forall k, forage_set_fails w k = false /\ forage_get_fails w k = false.

(** The mirror slot that [initializeStorage] fills for a well-known key. *)
Definition read_slot (key : string) (mc : memCache) : jsval :=
  if String.eqb key "botBrowser_searchCollapsed" then searchCollapsed mc
  else if String.eqb key "botBrowser_recentlyViewed" then recentlyViewed mc
  else if String.eqb key "botBrowser_importStats" then importStats mc
  else if String.eqb key "botBrowser_bookmarks" then bookmarks mc
  else if String.eqb key "botBrowser_importedCards" then importedCards mc
  else JUndefined.

(** A page reload: the module is loaded anew (initial mirror, flag off) over
    the stores as they are; writes that were still in flight are gone. *)
Definition restart (w : world) : world :=
  {| memoryCache := initialMemoryCache;
     isStorageInitialized := false;
     forage := forage w;
     localStorage := localStorage w;
     inflight := [];
     forage_set_fails := forage_set_fails w;
     forage_get_fails := forage_get_fails w;
     storage_set_fails := storage_set_fails w |}.

(** What one key looks like in a world: its localStorage entry, its durable
    entry and its mirror slot. *)
Definition key_view (key : string) (w : world) : option string * option jsval * jsval :=
  (ls_lookup key (localStorage w), forage w !! key, read_slot key (memoryCache w)).

Section MigrationStep.

Context (JSON_parse : string -> option jsval).

(** The effect of one round of the migration loop on the view of its key,
    when the localForage operations succeed. *)
Definition migration_step (v : option string * option jsval * jsval)
  : option string * option jsval * jsval :=
  let '(lsVal, db, slot) := v in
  let d := default JNull db in
  let kept := (lsVal, db, if nullish d then slot else d) in
  if str_truthy lsVal && negb (truthy d) then
    match parse_item JSON_parse lsVal with
    | Ret p => (lsVal, Some (stored p), p)
    | Exn _ => kept
    end
  else kept.

End MigrationStep.

(** Two worlds that differ at most in the persistent searches of the mirror. *)
Definition only_searches_differ (w w' : world) : Prop :=
  forage w' = forage w /\ localStorage w' = localStorage w /\
  inflight w' = inflight w /\ isStorageInitialized w' = isStorageInitialized w /\
  forage_set_fails w' = forage_set_fails w /\ forage_get_fails w' = forage_get_fails w /\
  storage_set_fails w' = storage_set_fails w /\
  forall key, read_slot key (memoryCache w') = read_slot key (memoryCache w).

(** What a mutator of the collection stored under [key] may do to the world:
    nothing, or store one value in the mirror slot of [key] and put one
    durable write of that same value in flight. *)
Definition writes_through (key : string) (w w' : world) : Prop :=
  w' = w \/
  exists v, w' = set_inflight (inflight w ++ [(key, v)])%list
                   (set_memoryCache (assign_slot key v (memoryCache w)) w).

(** ** The update checker *)

(** [s.split('.')] *)
Fixpoint split_dot (s : string) : list string :=
  match s with
  | EmptyString => [EmptyString]
  | String c s' =>
      if String.eqb (String c EmptyString) "." then EmptyString :: split_dot s'
      else match split_dot s' with
           | x :: r => String c x :: r
           | [] => [String c EmptyString]
           end
  end.

(** [parts[i] || 0]: a component that is missing ([undefined]) or that
    [Number] does not read as a number ([NaN], here [None]) counts as 0. *)
Definition part (parts : list (option Z)) (i : nat) : Z :=
  match parts !! i with
  | Some (Some n) => n
  | _ => 0
  end.

(** The [for] loop of [compareVersions] from index [i], with [n] iterations
    left. *)
Fixpoint compare_loop (n i : nat) (currentParts latestParts : list (option Z)) : Z :=
  match n with
  | O => 0
  | S n' =>
      let curr := part currentParts i in
      let lat := part latestParts i in
      if (curr <? lat)%Z then -1
      else if (lat <? curr)%Z then 1
      else compare_loop n' (S i) currentParts latestParts
  end.

(** The server's answer to one [fetch]: [response.ok] and what
    [response.json()] gives. *)
Record response : Type := Response {
  ok : bool;
  json : outcome jsval
}.

Definition MANIFEST_URLS : list string :=
  ["https://raw.githubusercontent.com/mia13165/SillyTavern-BotBrowser/refs/heads/master/manifest.json";
   "https://raw.githubusercontent.com/mia13165/SillyTavern-BotBrowser/refs/heads/main/manifest.json"].

Definition checkResult (hasUpdate : bool) (latestVersion currentVersion error : jsval) : jsval :=
  JObj [("hasUpdate", JBool hasUpdate); ("latestVersion", latestVersion);
        ("currentVersion", currentVersion); ("error", error)].

Section UpdateChecker.

(** [Number] on a version component: the integer it denotes, [None] for
    [NaN]. *)
Context (Number : string -> option Z).

Definition compareVersions (current latest : string) : Z :=
  let currentParts := map Number (split_dot current) in
  let latestParts := map Number (split_dot latest) in
  compare_loop (Nat.max (List.length currentParts) (List.length latestParts)) 0
    currentParts latestParts.

(** The call [compareVersions(currentVersion, latestVersion)] on arbitrary
    values: only strings have [split]. *)
Definition compareVersions_call (current latest : jsval) : outcome Z :=
  match current with
  | JStr c =>
      match latest with
      | JStr l => Ret (compareVersions c l)
      | _ => Exn TypeError
      end
  | _ => Exn TypeError
  end.

(** The body of the [try] block for one manifest URL: [Ret None] is
    [continue], [Ret (Some r)] is [return r]. *)
Definition try_manifest (currentVersion : jsval) (fetched : outcome response)
  : outcome (option jsval) :=
  resp <- fetched ;;
  if negb (ok resp) then Ret None
  else
    manifest <- json resp ;;
    latestVersion <- getProp manifest "version" ;;
    if negb (truthy latestVersion) then Ret None
    else
      c <- compareVersions_call currentVersion latestVersion ;;
      Ret (Some (checkResult (c <? 0)%Z latestVersion currentVersion JNull)).

(** The loop over the manifest URLs; an exception in the body is caught and
    the next URL is tried. *)
Fixpoint try_urls (fetch : string -> outcome response) (currentVersion : jsval)
    (urls : list string) : option jsval :=
  match urls with
  | [] => None
  | url :: rest =>
      match try_manifest currentVersion (fetch url) with
      | Ret (Some r) => Some r
      | _ => try_urls fetch currentVersion rest
      end
  end.

(** [checkForUpdates(currentVersion)] over the module variable
    [updateCheckResult]: the value returned and the variable afterwards. *)
Definition checkForUpdates (fetch : string -> outcome response) (currentVersion : jsval)
    (updateCheckResult : jsval) : jsval * jsval :=
  match updateCheckResult with
  | JNull =>
      let r := match try_urls fetch currentVersion MANIFEST_URLS with
               | Some r => r
               | None => checkResult false JNull currentVersion
                           (JStr "Could not reach update server")
               end in
      (r, r)
  | cached => (cached, cached)
  end.

End UpdateChecker.

(** [current] is older than [latest] at component [i]: the components
    before [i] agree and the [i]-th of [current] is smaller. *)
Definition older_at (i : nat) (c l : list (option Z)) : Prop :=
  (forall j, (j < i)%nat -> part c j = part l j) /\ part c i < part l i.

(** ** HTML escaping *)

Definition backslash : string := String (Ascii.ascii_of_N 92) EmptyString.
Definition dquote : string := String (Ascii.ascii_of_N 34) EmptyString.

(** Whether the character [a] is the one-character string [c]. *)
Definition is_char (a : Ascii.ascii) (c : string) : bool :=
  String.eqb (String a EmptyString) c.

(** [s.replace(/c/g, by)] for a pattern that is the single character [c]. *)
Fixpoint replace_char (c by_ : string) (s : string) : string :=
  match s with
  | EmptyString => EmptyString
  | String a s' =>
      if is_char a c then String.append by_ (replace_char c by_ s')
      else String a (replace_char c by_ s')
  end.

(** The value of a hexadecimal digit ([0-9A-Fa-f]). *)
Definition hex_value (a : Ascii.ascii) : option N :=
  let n := Ascii.N_of_ascii a in
  if ((48 <=? n) && (n <=? 57))%N then Some (n - 48)%N
  else if ((65 <=? n) && (n <=? 70))%N then Some (n - 55)%N
  else if ((97 <=? n) && (n <=? 102))%N then Some (n - 87)%N
  else None.

(** [text.includes(...)] for a backslash followed by the letter x. *)
Fixpoint includes_hex_escape (s : string) : bool :=
  match s with
  | EmptyString => false
  | String a s' =>
      match s' with
      | String b _ => (is_char a backslash && is_char b "x") || includes_hex_escape s'
      | EmptyString => false
      end
  end.

(** The [replace] of [decodeUTF8]: every backslash, x and two hexadecimal
    digits, scanned from the left, becomes the character with that code
    ([String.fromCharCode(parseInt(hex, 16))]). *)
Fixpoint replace_hex_escapes (s : string) : string :=
  match s with
  | EmptyString => EmptyString
  | String a s1 =>
      match s1 with
      | String b (String h1 (String h2 s4)) =>
          if is_char a backslash && is_char b "x" then
            match hex_value h1, hex_value h2 with
            | Some x, Some y =>
                String (Ascii.ascii_of_N (16 * x + y)) (replace_hex_escapes s4)
            | _, _ => String a (replace_hex_escapes s1)
            end
          else String a (replace_hex_escapes s1)
      | _ => String a (replace_hex_escapes s1)
      end
  end.

Section Escaping.

(** [decodeURIComponent(escape(text))]; [None] when it throws. *)
Context (utf8_decode : string -> option string).

(** [decodeUTF8] on a string. *)
Definition decodeUTF8 (text : string) : string :=
  if String.eqb text "" then ""
  else
    let text' := if includes_hex_escape text then replace_hex_escapes text else text in
    match utf8_decode text' with
    | Some decoded => decoded
    | None => text'
    end.

(** [escapeHTML] on a string. *)
Definition escapeHTML (text : string) : string :=
  if String.eqb text "" then ""
  else
    replace_char "'" "&#039;"
      (replace_char dquote "&quot;"
         (replace_char ">" "&gt;"
            (replace_char "<" "&lt;"
               (replace_char "&" "&amp;" (decodeUTF8 text))))).

End Escaping.

(** The entity that stands for a character in escaped text. *)
Definition entity (a : Ascii.ascii) : string :=
  if is_char a "&" then "&amp;"
  else if is_char a "<" then "&lt;"
  else if is_char a ">" then "&gt;"
  else if is_char a dquote then "&quot;"
  else if is_char a "'" then "&#039;"
  else String a EmptyString.

(** Every character replaced by its entity, in one pass. *)
Fixpoint escape_each (s : string) : string :=
  match s with
  | EmptyString => EmptyString
  | String a r => String.append (entity a) (escape_each r)
  end.

(** No character of [s] is one of the four that open or close markup or an
    attribute value. *)
Fixpoint markup_free (s : string) : bool :=
  match s with
  | EmptyString => true
  | String a r =>
      negb (is_char a "<") && negb (is_char a ">") && negb (is_char a dquote) &&
      negb (is_char a "'") && markup_free r
  end.

(** The five replacements of [escapeHTML], in the order the source applies
    them. *)
Definition replace_chain (s : string) : string :=
  replace_char "'" "&#039;"
    (replace_char dquote "&quot;"
       (replace_char ">" "&gt;" (replace_char "<" "&lt;" (replace_char "&" "&amp;" s)))).

(** A card list as the durable store holds it. *)
Definition sample_cards : jsval := JArr [sample_card "a"].

(** [Number] on the components 0 to 3; anything else is read as [NaN]. *)
Definition sample_Number (s : string) : option Z :=
  if String.eqb s "0" then Some 0
  else if String.eqb s "1" then Some 1
  else if String.eqb s "2" then Some 2
  else if String.eqb s "3" then Some 3
  else None.

(** A server that answers every manifest request with version 1.2.0. *)
Definition sample_fetch (url : string) : outcome response :=
  Ret (Response true (Ret (JObj [("version", JStr "1.2.0")]))).

(** A codec that writes every search state as the text [search] and reads
    that text back as the state [sample_search]. *)
Definition sample_search : jsval :=
  searchData (JStr "elf") (JStr "newest") JUndefined JUndefined JUndefined JUndefined.

Definition search_stringify (v : jsval) : option string := Some "search".

Definition search_parse (s : string) : option jsval :=
  if String.eqb s "search" then Some sample_search else literal_parse s.

(** * Properties *)

Ltac unfold_m :=
  unfold try_catch, sbind, ret, lift, gets, modify, obind in *; cbv beta in *.

(** ** The durable store adapter *)

Section AdapterFacts.

Context (JSON_stringify : jsval -> option string).

Lemma idbSet_returns key val w : fst (idbSet JSON_stringify key val w) = Ret tt.
Proof.
  unfold idbSet, forage_setItem, storage_setItem, stringify. unfold_m.
  destruct (forage_set_fails w key); [|reflexivity].
  destruct (JSON_stringify val); [|reflexivity].
  destruct (storage_set_fails w key); reflexivity.
Qed.

Lemma idbSet_world key val w :
  snd (idbSet JSON_stringify key val w) =
    if forage_set_fails w key then fallback_write JSON_stringify key val w
    else set_forage (<[key := if val is JUndefined then JNull else val]> (forage w)) w.
Proof.
  unfold idbSet, fallback_write, forage_setItem, storage_setItem, stringify. unfold_m.
  destruct (forage_set_fails w key); [|reflexivity].
  destruct (JSON_stringify val); [|reflexivity].
  destruct (storage_set_fails w key); reflexivity.
Qed.

Lemma idbSet_memoryCache key val w :
  memoryCache (snd (idbSet JSON_stringify key val w)) = memoryCache w.
Proof.
  rewrite idbSet_world. unfold fallback_write.
  destruct (forage_set_fails w key); [|reflexivity].
  destruct (JSON_stringify val); [|reflexivity].
  destruct (storage_set_fails w key); reflexivity.
Qed.

Lemma idbGet_eq key w :
  idbGet key w =
    (Ret (if forage_get_fails w key then JNull else default JNull (forage w !! key)), w).
Proof.
  unfold idbGet, forage_getItem. unfold_m.
  destruct (forage_get_fails w key); reflexivity.
Qed.

(** C7. The durable store adapter never raises to its caller. [idbSet]
    always returns normally; when the localForage write throws, what it
    leaves behind is the best-effort localStorage write (nothing when the
    serialization or that write throws too). [idbGet] always returns a
    value and leaves the world alone; when the localForage read throws, the
    value is [null]. *)
Theorem adapter_never_raises (key : string) (val : jsval) (w : world) :
  fst (idbSet JSON_stringify key val w) = Ret tt /\
  (forage_set_fails w key = true ->
     snd (idbSet JSON_stringify key val w) = fallback_write JSON_stringify key val w) /\
  (exists v, idbGet key w = (Ret v, w)) /\
  (forage_get_fails w key = true -> idbGet key w = (Ret JNull, w)).
Proof.
  split; [apply idbSet_returns|].
  split; [intros H; rewrite idbSet_world, H; reflexivity|].
  split; [eexists; apply idbGet_eq|].
  intros H. rewrite idbGet_eq, H. reflexivity.
Qed.

(** ** The TTL response cache *)

Lemma is_fresh_entry now t v ttl :
  is_fresh now (cacheEntry t v) ttl = negb (t =? 0)%Z && (now - t <? ttl)%Z.
Proof. reflexivity. Qed.

Lemma idbGetCachedApi_world now key ttl w :
  snd (idbGetCachedApi now key ttl w) = w.
Proof.
  unfold idbGetCachedApi. unfold_m. rewrite idbGet_eq.
  destruct (is_fresh _ _ _); reflexivity.
Qed.

(** C3. With [ttl > 0], on a store whose operations on [k] succeed and a
    clock that does not read 0: a [get] evaluated while
    [now' - now < ttl], and in particular at once, returns the payload that
    [set] stored at time [now]. On any world, a [get] of an entry whose age
    is not below [ttl] returns [null], and no [get] changes the world: the
    expired entry is still stored afterwards. *)
Theorem ttl_cache_correct (k : string) (v : jsval) (ttl : Z) :
  (0 < ttl)%Z ->
  (forall now now' w,
      forage_set_fails w k = false -> forage_get_fails w k = false ->
      now <> 0%Z -> (now' - now < ttl)%Z ->
      fst (idbGetCachedApi now' k (Some ttl) (snd (idbSetCachedApi JSON_stringify now k v w)))
        = Ret v) /\
  (forall now w,
      forage_set_fails w k = false -> forage_get_fails w k = false ->
      now <> 0%Z ->
      fst (idbGetCachedApi now k (Some ttl) (snd (idbSetCachedApi JSON_stringify now k v w)))
        = Ret v) /\
  (forall now t w,
      forage w !! k = Some (cacheEntry t v) -> ~ (now - t < ttl)%Z ->
      idbGetCachedApi now k (Some ttl) w = (Ret JNull, w) /\
      forage (snd (idbGetCachedApi now k (Some ttl) w)) !! k = Some (cacheEntry t v)).
Proof.
  intros Httl.
  assert (Hfresh : forall now now' w,
      forage_set_fails w k = false -> forage_get_fails w k = false ->
      now <> 0%Z -> (now' - now < ttl)%Z ->
      fst (idbGetCachedApi now' k (Some ttl) (snd (idbSetCachedApi JSON_stringify now k v w)))
        = Ret v).
  { intros now now' w Hs Hg Hnow Hage.
    unfold idbSetCachedApi. rewrite idbSet_world, Hs.
    unfold idbGetCachedApi. unfold_m. rewrite idbGet_eq. cbn [forage_get_fails set_forage forage].
    rewrite Hg, lookup_insert_eq. cbv [default from_option id].
    change (JObj [("timestamp", JNum now); ("payload", v)]) with (cacheEntry now v). rewrite is_fresh_entry.
    replace (now =? 0)%Z with false by (symmetry; apply Z.eqb_neq; exact Hnow).
    replace (now' - now <? ttl)%Z with true by (symmetry; apply Z.ltb_lt; exact Hage).
    reflexivity. }
  split; [exact Hfresh|]. split.
  - intros now w Hs Hg Hnow. apply Hfresh; auto. lia.
  - intros now t w Hk Hold.
    assert (Hget : idbGetCachedApi now k (Some ttl) w = (Ret JNull, w)).
    { unfold idbGetCachedApi. unfold_m. rewrite idbGet_eq.
      destruct (forage_get_fails w k); [reflexivity|].
      rewrite Hk. cbv [default from_option id]. rewrite is_fresh_entry.
      replace (now - t <? ttl)%Z with false by (symmetry; apply Z.ltb_ge; lia).
      rewrite andb_false_r. reflexivity. }
    rewrite Hget. split; [reflexivity | exact Hk].
Qed.

End AdapterFacts.

(** ** Initialization and migration *)

Ltac break_match :=
  match goal with
  | |- context [match ?x with _ => _ end] =>
      lazymatch x with
      | context [match _ with _ => _ end] => fail
      | _ => destruct x eqn:?
      end
  end.

Section InitFacts.

Context (JSON_parse : string -> option jsval).
Context (JSON_stringify : jsval -> option string).

Lemma migrate_key_returns key w :
  fst (migrate_key JSON_parse JSON_stringify key w) = Ret tt.
Proof.
  unfold migrate_key, load_slot, parse_item, parse. unfold_m.
  rewrite idbGet_eq.
  repeat first
    [ reflexivity
    | match goal with
      | |- context [idbSet JSON_stringify ?k ?v ?w0] =>
          let H := fresh "H" in
          pose proof (idbSet_returns JSON_stringify k v w0) as H;
          destruct (idbSet JSON_stringify k v w0) as [[[]|?] ?]; cbn [fst] in H;
          [clear H | discriminate H]
      end
    | break_match
    | discriminate ].
Qed.

Lemma for_each_returns {A} (body : A -> M unit) (l : list A) :
  (forall x w, fst (body x w) = Ret tt) ->
  forall w, fst (for_each body l w) = Ret tt.
Proof.
  intros Hbody. induction l as [|x l IH]; intros w; cbn [for_each]; unfold_m.
  - reflexivity.
  - specialize (Hbody x w). destruct (body x w) as [[[]|e] w']; cbn [fst] in Hbody.
    + apply IH.
    + discriminate Hbody.
Qed.

Lemma initializeStorage_sets_flag w :
  fst (initializeStorage JSON_parse JSON_stringify w) = Ret tt /\
  isStorageInitialized (snd (initializeStorage JSON_parse JSON_stringify w)) = true.
Proof.
  unfold initializeStorage.
  destruct (isStorageInitialized w) eqn:Hinit; [split; [reflexivity | exact Hinit]|].
  unfold_m.
  pose proof (for_each_returns (migrate_key JSON_parse JSON_stringify) keys
                migrate_key_returns w) as H.
  destruct (for_each _ keys w) as [[[]|e] w1]; cbn [fst] in H; [clear H | discriminate H].
  destruct (for_each (load_search JSON_parse) _ w1) as [[[]|e] w2]; split; reflexivity.
Qed.

(** Initialization is idempotent: the second run returns at once and leaves
    the world, hence the mirror, as the first run made it. *)
Lemma initializeStorage_idempotent w :
  let w1 := snd (initializeStorage JSON_parse JSON_stringify w) in
  initializeStorage JSON_parse JSON_stringify w1 = (Ret tt, w1).
Proof.
  intros w1. destruct (initializeStorage_sets_flag w) as [_ Hflag]. fold w1 in Hflag.
  unfold initializeStorage at 1. rewrite Hflag. reflexivity.
Qed.

(** A durable value that is truthy is kept: the migration of its key writes
    nothing to the durable store. *)
Lemma migrate_key_keeps_truthy key w v :
  forage_get_fails w key = false ->
  forage w !! key = Some v -> truthy v = true ->
  forage (snd (migrate_key JSON_parse JSON_stringify key w)) = forage w.
Proof.
  intros Hg Hk Hv. unfold migrate_key, load_slot. unfold_m.
  rewrite idbGet_eq, Hg, Hk. cbv [default from_option id]. rewrite Hv.
  rewrite andb_false_r.
  assert (Hn : nullish v = false) by (destruct v; try reflexivity; discriminate Hv).
  rewrite Hn. reflexivity.
Qed.

(** C4 (the code at the failing input). The durable store holds [false]
    under the key of the collapsed flag and localStorage still holds the
    legacy text [true]: initialization treats the falsy durable value as
    missing, writes the legacy value over it and loads it into the mirror. *)
Theorem migration_overwrites_false :
  JSON_parse "true" = Some (JBool true) ->
  let w := fresh_world {[ "botBrowser_searchCollapsed" := JBool false ]}
             [("botBrowser_searchCollapsed", "true")] in
  let w' := snd (initializeStorage JSON_parse JSON_stringify w) in
  forage w !! "botBrowser_searchCollapsed" = Some (JBool false) /\
  forage w' !! "botBrowser_searchCollapsed" = Some (JBool true) /\
  loadSearchCollapsed w' = JBool true.
Proof.
  intros Hparse w w'. split; [reflexivity|].
  subst w' w. unfold initializeStorage, for_each, keys, migrate_key, idbGet, idbSet.
  unfold_m. vm_compute. rewrite Hparse. vm_compute. split; reflexivity.
Qed.

End InitFacts.

(** ** The array callbacks on well-formed collections *)

Lemma filterM_pure (f : jsval -> outcome bool) (g : jsval -> bool) (l : list jsval) :
  Forall (fun x => f x = Ret (g x)) l -> filterM f l = Ret (List.filter g l).
Proof.
  induction 1 as [|x l Hx _ IH]; cbn [filterM List.filter]; [reflexivity|].
  rewrite Hx, IH. unfold obind. destruct (g x); reflexivity.
Qed.

Lemma someM_pure (f : jsval -> outcome bool) (g : jsval -> bool) (l : list jsval) :
  Forall (fun x => f x = Ret (g x)) l -> someM f l = Ret (existsb g l).
Proof.
  induction 1 as [|x l Hx _ IH]; cbn [someM existsb]; [reflexivity|].
  rewrite Hx. unfold obind. destruct (g x); [reflexivity | exact IH].
Qed.

Lemma findIndexM_pure (f : jsval -> outcome bool) (g : jsval -> bool) (l : list jsval) :
  Forall (fun x => f x = Ret (g x)) l ->
  forall i, findIndexM f l i = Ret (findIndex g l i).
Proof.
  induction 1 as [|x l Hx _ IH]; intros i; cbn [findIndexM findIndex]; [reflexivity|].
  rewrite Hx. unfold obind. destruct (g x); [reflexivity | apply IH].
Qed.

Lemma has_id_pure cardId b :
  nullish b = false ->
  negM (has_id cardId b) = Ret (negb (strict_eq (prop b "id") cardId)).
Proof. intros H. unfold negM, has_id, getProp, obind. rewrite H. reflexivity. Qed.

Lemma same_id_pure c card :
  nullish c = false -> nullish card = false ->
  same_id c card = Ret (strict_eq (prop c "id") (prop card "id")).
Proof. intros H1 H2. unfold same_id, getProp, obind. rewrite H1, H2. reflexivity. Qed.

Lemma filter_all (g : jsval -> bool) (l : list jsval) :
  Forall (fun x => g x = true) l -> List.filter g l = l.
Proof.
  induction 1 as [|x l Hx _ IH]; cbn [List.filter]; [reflexivity|].
  rewrite Hx, IH. reflexivity.
Qed.

Lemma filter_length_bound (g : jsval -> bool) (l : list jsval) :
  (List.length (List.filter g l) <= List.length l)%nat.
Proof.
  induction l as [|x l IH]; cbn [List.filter List.length]; [lia|].
  destruct (g x); cbn [List.length]; lia.
Qed.

Lemma filter_drops (g : jsval -> bool) (l : list jsval) :
  Exists (fun x => g x = false) l ->
  (List.length (List.filter g l) < List.length l)%nat.
Proof.
  induction 1 as [x l Hx | x l _ IH]; cbn [List.filter List.length].
  - rewrite Hx. pose proof (filter_length_bound g l). lia.
  - destruct (g x); cbn [List.length]; lia.
Qed.

Lemma filter_same_length (g : jsval -> bool) (l : list jsval) :
  List.length (List.filter g l) = List.length l -> List.filter g l = l.
Proof.
  induction l as [|x l IH]; cbn [List.filter List.length]; [reflexivity|].
  destruct (g x); cbn [List.length]; intros H.
  - f_equal. apply IH. lia.
  - pose proof (filter_length_bound g l). lia.
Qed.

(** ** Removal *)

(** The world after [saveBookmarks(v)]: the mirror slot holds [v] and one
    more durable write is in flight. *)
Lemma saveBookmarks_eq v w :
  saveBookmarks v w =
    (Ret tt, set_inflight (inflight w ++ [("botBrowser_bookmarks", v)])
               (set_memoryCache (set_bookmarks v (memoryCache w)) w)).
Proof. reflexivity. Qed.

Lemma saveImportedCards_eq v w :
  saveImportedCards v w =
    (Ret tt, set_inflight (inflight w ++ [("botBrowser_importedCards", v)])
               (set_memoryCache (set_importedCards v (memoryCache w)) w)).
Proof. reflexivity. Qed.

Lemma removeBookmark_eq cardId w l :
  bookmarks (memoryCache w) = JArr l ->
  Forall (fun c => nullish c = false) l ->
  let l' := List.filter (fun c => negb (strict_eq (prop c "id") cardId)) l in
  removeBookmark cardId w =
    if (List.length l' <? List.length l)%nat
    then (Ret (JArr l'), snd (saveBookmarks (JArr l') w))
    else (Ret (JArr l'), w).
Proof.
  intros Hm Hwf l'. unfold removeBookmark, removeBookmark_try, loadBookmarks. unfold_m.
  rewrite Hm. cbn [js_or truthy as_array].
  rewrite (filterM_pure _ (fun c => negb (strict_eq (prop c "id") cardId))).
  - fold l'. destruct (List.length l' <? List.length l)%nat; reflexivity.
  - eapply Forall_impl; [exact Hwf|]. intros c Hc. apply has_id_pure, Hc.
Qed.

Lemma removeImportedCard_eq cardId w l :
  importedCards (memoryCache w) = JArr l ->
  Forall (fun c => nullish c = false) l ->
  let l' := List.filter (fun c => negb (strict_eq (prop c "id") cardId)) l in
  removeImportedCard cardId w =
    if (List.length l' <? List.length l)%nat
    then (Ret (JArr l'), snd (saveImportedCards (JArr l') w))
    else (Ret (JArr l'), w).
Proof.
  intros Hm Hwf l'. unfold removeImportedCard, removeImportedCard_try, loadImportedCards.
  unfold_m. rewrite Hm. cbn [js_or truthy as_array].
  rewrite (filterM_pure _ (fun c => negb (strict_eq (prop c "id") cardId))).
  - fold l'. destruct (List.length l' <? List.length l)%nat; reflexivity.
  - eapply Forall_impl; [exact Hwf|]. intros c Hc. apply has_id_pure, Hc.
Qed.

(** C9. On a collection of records ([l], no element null or undefined):
    when no element has the id, [removeBookmark] and [removeImportedCard]
    return the collection as it is and leave the whole world, so also the
    queue of durable writes, unchanged; when some element has the id, they
    return the collection without the matching elements, store it in the
    mirror and put one durable write of it in flight. *)
Theorem remove_filters_and_persists (cardId : jsval) (w : world) (l : list jsval) :
  Forall (fun c => nullish c = false) l ->
  let l' := List.filter (fun c => negb (strict_eq (prop c "id") cardId)) l in
  (bookmarks (memoryCache w) = JArr l ->
     (Forall (fun c => strict_eq (prop c "id") cardId = false) l ->
        removeBookmark cardId w = (Ret (JArr l), w)) /\
     (Exists (fun c => strict_eq (prop c "id") cardId = true) l ->
        removeBookmark cardId w =
          (Ret (JArr l'),
           set_inflight (inflight w ++ [("botBrowser_bookmarks", JArr l')])
             (set_memoryCache (set_bookmarks (JArr l') (memoryCache w)) w)))) /\
  (importedCards (memoryCache w) = JArr l ->
     (Forall (fun c => strict_eq (prop c "id") cardId = false) l ->
        removeImportedCard cardId w = (Ret (JArr l), w)) /\
     (Exists (fun c => strict_eq (prop c "id") cardId = true) l ->
        removeImportedCard cardId w =
          (Ret (JArr l'),
           set_inflight (inflight w ++ [("botBrowser_importedCards", JArr l')])
             (set_memoryCache (set_importedCards (JArr l') (memoryCache w)) w)))).
Proof.
  intros Hwf l'.
  assert (Hnone : Forall (fun c => strict_eq (prop c "id") cardId = false) l -> l' = l).
  { intros H. apply filter_all. eapply Forall_impl; [exact H|].
    intros c Hc. cbn beta. rewrite Hc. reflexivity. }
  assert (Hsome : Exists (fun c => strict_eq (prop c "id") cardId = true) l ->
                  (List.length l' <? List.length l)%nat = true).
  { intros H. apply Nat.ltb_lt, filter_drops. eapply Exists_impl; [exact H|].
    intros c Hc. cbn beta. rewrite Hc. reflexivity. }
  split; intros Hm; split; intros H.
  - rewrite (removeBookmark_eq cardId w l Hm Hwf). fold l'.
    rewrite (Hnone H), Nat.ltb_irrefl. reflexivity.
  - rewrite (removeBookmark_eq cardId w l Hm Hwf). fold l'.
    rewrite (Hsome H). reflexivity.
  - rewrite (removeImportedCard_eq cardId w l Hm Hwf). fold l'.
    rewrite (Hnone H), Nat.ltb_irrefl. reflexivity.
  - rewrite (removeImportedCard_eq cardId w l Hm Hwf). fold l'.
    rewrite (Hsome H). reflexivity.
Qed.

(** ** The read accessor of recently-viewed *)

Lemma maxRecent_pos st : (0 <= maxRecentlyViewed st)%Z -> (1 <= maxRecent st)%Z.
Proof.
  intros H. unfold maxRecent. destruct (maxRecentlyViewed st =? 0)%Z eqn:E; [lia|].
  apply Z.eqb_neq in E. lia.
Qed.

Lemma slice0_nonneg {A} (l : list A) (n : Z) :
  (0 <= n)%Z -> slice0 l n = firstn (Z.to_nat n) l.
Proof.
  intros H. unfold slice0. destruct (n <? 0)%Z eqn:E; [|reflexivity].
  apply Z.ltb_lt in E. lia.
Qed.

Lemma loadRecentlyViewed_eq (st : settings) (w : world) (l : list jsval) :
  recentlyViewedEnabled st = true ->
  (0 <= maxRecentlyViewed st)%Z ->
  recentlyViewed (memoryCache w) = JArr l ->
  loadRecentlyViewed st w =
    if (maxRecent st <? Z.of_nat (List.length l))%Z
    then (Ret (JArr (firstn (Z.to_nat (maxRecent st)) l)),
          set_memoryCache
            (set_recentlyViewed (JArr (firstn (Z.to_nat (maxRecent st)) l)) (memoryCache w)) w)
    else (Ret (JArr l), w).
Proof.
  intros Hen Hmax Hm. pose proof (maxRecent_pos st Hmax) as Hn.
  unfold loadRecentlyViewed. rewrite Hen. unfold_m. cbn [negb]. cbv beta. rewrite Hm.
  cbn [negb js_or truthy prop js_gt to_number String.eqb Ascii.eqb Bool.eqb].
  destruct (maxRecent st <? Z.of_nat (List.length l))%Z; [|reflexivity].
  cbn [js_slice0]. rewrite slice0_nonneg by lia. reflexivity.
Qed.

(** C10 (as amended). With the flag enabled and a setting that is not
    negative, let [n] be the effective maximum: [maxRecentlyViewed], or 10
    when that setting is 0. When the mirror's list is longer than [n],
    [loadRecentlyViewed] returns its first [n] elements and stores them in
    the mirror slot; every other field of the world, in particular the other
    mirror slots, the queue of durable writes and the durable store itself,
    is as before. When the list is not longer than [n] the world is
    unchanged. *)
Theorem loadRecentlyViewed_trims_mirror (st : settings) (w : world) (l : list jsval) :
  recentlyViewedEnabled st = true ->
  (0 <= maxRecentlyViewed st)%Z ->
  recentlyViewed (memoryCache w) = JArr l ->
  let n := maxRecent st in
  n = (if (maxRecentlyViewed st =? 0)%Z then 10%Z else maxRecentlyViewed st) /\
  ((n < Z.of_nat (List.length l))%Z ->
     loadRecentlyViewed st w =
       (Ret (JArr (firstn (Z.to_nat n) l)),
        set_memoryCache (set_recentlyViewed (JArr (firstn (Z.to_nat n) l)) (memoryCache w)) w)) /\
  ((Z.of_nat (List.length l) <= n)%Z -> loadRecentlyViewed st w = (Ret (JArr l), w)) /\
  inflight (snd (loadRecentlyViewed st w)) = inflight w /\
  forage (snd (loadRecentlyViewed st w)) = forage w /\
  bookmarks (memoryCache (snd (loadRecentlyViewed st w))) = bookmarks (memoryCache w) /\
  importedCards (memoryCache (snd (loadRecentlyViewed st w))) = importedCards (memoryCache w).
Proof.
  intros Hen Hmax Hm n.
  pose proof (loadRecentlyViewed_eq st w l Hen Hmax Hm) as Heq. fold n in Heq.
  split; [reflexivity|].
  split; [intros H; rewrite Heq; apply Z.ltb_lt in H; rewrite H; reflexivity|].
  split; [intros H; rewrite Heq; apply Z.ltb_ge in H; rewrite H; reflexivity|].
  rewrite Heq. destruct (n <? Z.of_nat (List.length l))%Z; repeat split.
Qed.

(** ** The upsert operations on well-formed collections *)

Lemma has_string_id_record c : has_string_id c = true -> is_record c = true.
Proof. destruct c; cbn; intros H; try discriminate H; reflexivity. Qed.

Lemma is_record_not_nullish c : is_record c = true -> nullish c = false.
Proof. destruct c; cbn; intros H; try discriminate H; reflexivity. Qed.

Lemma records_not_nullish l :
  Forall (fun c => is_record c = true) l -> Forall (fun c => nullish c = false) l.
Proof.
  intros H. eapply Forall_impl; [exact H|]. intros c. apply is_record_not_nullish.
Qed.

Lemma importable_record c : importable c = true -> is_record c = true.
Proof.
  unfold importable. intros H. apply andb_prop in H. apply has_string_id_record, H.
Qed.

Lemma importable_desc_preview c :
  importable c = true -> exists v, desc_preview_of c = Ret v.
Proof.
  unfold importable, desc_preview_of. intros H. apply andb_prop in H as [_ H].
  destruct (truthy (prop c "desc_preview")); [eexists; reflexivity|].
  destruct (truthy (prop c "description")); [|eexists; reflexivity].
  cbn in H. destruct (prop c "description"); try discriminate H.
  eexists; reflexivity.
Qed.

Lemma findIndex_lookup (g : jsval -> bool) (l : list jsval) :
  forall k i, findIndex g l k = Some i ->
  exists j x, i = (k + j)%nat /\ l !! j = Some x /\ g x = true.
Proof.
  induction l as [|y l IH]; intros k i; cbn [findIndex]; [discriminate|].
  destruct (g y) eqn:Hy.
  - intros [= <-]. exists 0%nat, y. split; [lia|]. split; [reflexivity | exact Hy].
  - intros H. apply IH in H as (j & x & -> & Hj & Hx).
    exists (S j), x. split; [lia|]. split; [exact Hj | exact Hx].
Qed.

Lemma findIndex_none (g : jsval -> bool) (l : list jsval) :
  forall k, findIndex g l k = None -> existsb g l = false.
Proof.
  induction l as [|y l IH]; intros k; cbn [findIndex existsb]; [reflexivity|].
  destruct (g y); [discriminate|]. apply IH.
Qed.

Lemma addToRecentlyViewed_eq st l card w :
  recentlyViewedEnabled st = true ->
  Forall (fun c => nullish c = false) l ->
  nullish card = false ->
  addToRecentlyViewed st (JArr l) card w =
    (Ret (JArr (viewed st card l)),
     set_inflight (inflight w ++ [("botBrowser_recentlyViewed", JArr (viewed st card l))])
       (set_memoryCache (set_recentlyViewed (JArr (viewed st card l)) (memoryCache w)) w)).
Proof.
  intros Hen Hwf Hc. unfold addToRecentlyViewed, recentlyViewed_filter. rewrite Hen.
  cbn [negb as_array obind].
  rewrite (filterM_pure _ (fun c => negb (strict_eq (prop c "id") (prop card "id")))).
  - unfold recentlyViewed_store, recentRecord, idbSet_async. rewrite Hc. reflexivity.
  - eapply Forall_impl; [exact Hwf|]. intros c Hn. cbn beta.
    unfold negM. rewrite (same_id_pure c card Hn Hc). reflexivity.
Qed.

Lemma addBookmark_eq iso l card w :
  bookmarks (memoryCache w) = JArr l ->
  Forall (fun c => nullish c = false) l ->
  nullish card = false ->
  addBookmark iso card w =
    if existsb (fun b => strict_eq (prop b "id") (prop card "id")) l
    then (Ret (JArr l), w)
    else (Ret (JArr (bookmarkRecord_fields iso card :: l)),
          snd (saveBookmarks (JArr (bookmarkRecord_fields iso card :: l)) w)).
Proof.
  intros Hm Hwf Hc. unfold addBookmark, addBookmark_try, loadBookmarks. unfold_m.
  rewrite Hm. cbn [js_or truthy as_array].
  rewrite (someM_pure _ (fun b => strict_eq (prop b "id") (prop card "id"))).
  - destruct (existsb _ l); [reflexivity|].
    unfold bookmarkRecord, bookmarks_in_place, saveBookmarks, idbSet_async. unfold_m.
    rewrite Hc, Hm. reflexivity.
  - eapply Forall_impl; [exact Hwf|]. intros c Hn. apply same_id_pure; assumption.
Qed.

Lemma trackImportedCard_eq iso l card type w :
  importedCards (memoryCache w) = JArr l ->
  Forall (fun c => is_record c = true) l ->
  importable card = true ->
  trackImportedCard iso card type w =
    (Ret (JArr (tracked iso card type l)),
     snd (saveImportedCards (JArr (tracked iso card type l)) w)).
Proof.
  intros Hm Hwf Hc.
  pose proof (is_record_not_nullish _ (importable_record _ Hc)) as Hcn.
  destruct (importable_desc_preview _ Hc) as [dp Hdp].
  unfold trackImportedCard, trackImportedCard_try, loadImportedCards, tracked. unfold_m.
  rewrite Hm. cbn [js_or truthy as_array].
  rewrite (findIndexM_pure _ (fun c => strict_eq (prop c "id") (prop card "id"))).
  2:{ eapply Forall_impl; [exact (records_not_nullish _ Hwf)|].
      intros c Hn. apply same_id_pure; assumption. }
  destruct (findIndex _ l 0) as [i|] eqn:Hfind.
  - apply findIndex_lookup in Hfind as (j & x & -> & Hj & _). cbn [Nat.add].
    rewrite Hj. cbv [default from_option id].
    assert (Hx : is_record x = true).
    { exact (Forall_lookup_1 (fun c => is_record c = true) l j x Hwf Hj). }
    destruct x; try discriminate Hx. cbn [setProp stamp].
    unfold importedCards_in_place, saveImportedCards, idbSet_async. unfold_m.
    rewrite Hm. reflexivity.
  - unfold importRecord. rewrite Hcn, Hdp. cbn [obind].
    unfold importedCards_in_place, saveImportedCards, idbSet_async. unfold_m.
    rewrite Hm. reflexivity.
Qed.

(** ** Feature flags *)

Lemma strict_eq_true a b : strict_eq a b = true -> a = b.
Proof.
  destruct a, b; cbn [strict_eq]; intros H; try discriminate H; try reflexivity; f_equal.
  - apply Bool.eqb_prop, H.
  - apply Z.eqb_eq, H.
  - apply String.eqb_eq, H.
Qed.

Lemma assoc_setAssoc_ne k k' x ps :
  k <> k' -> assoc k (setAssoc k' x ps) = assoc k ps.
Proof.
  intros Hne. induction ps as [|[k0 v] ps IH]; cbn [setAssoc assoc].
  - destruct (String.eqb k k') eqn:E; [apply String.eqb_eq in E; contradiction | reflexivity].
  - destruct (String.eqb k' k0) eqn:E0; cbn [assoc].
    + apply String.eqb_eq in E0. subst k0.
      destruct (String.eqb k k') eqn:E; [apply String.eqb_eq in E; contradiction | reflexivity].
    + rewrite IH. reflexivity.
Qed.

Lemma prop_stamp_id iso c : prop (stamp iso c) "id" = prop c "id".
Proof.
  destruct c; try reflexivity. cbn [stamp prop]. rewrite assoc_setAssoc_ne; [reflexivity|].
  discriminate.
Qed.

Lemma trim_cons x l n :
  (1 <= n)%Z -> exists rest, trim (x :: l) n = x :: rest.
Proof.
  intros Hn. unfold trim. destruct (n <? _)%Z; [|eexists; reflexivity].
  rewrite slice0_nonneg by lia.
  destruct (Z.to_nat n) as [|k] eqn:E; [lia|]. cbn [firstn]. eexists; reflexivity.
Qed.

Lemma tracked_head iso card type l :
  exists rec rest,
    tracked iso card type l = rec :: rest /\ prop rec "id" = prop card "id".
Proof.
  unfold tracked.
  destruct (findIndex _ l 0) as [i|] eqn:Hfind.
  - apply findIndex_lookup in Hfind as (j & x & -> & Hj & Hx). cbn [Nat.add].
    rewrite Hj. cbv [default from_option id].
    destruct (trim_cons (stamp iso x) (delete j l) 500) as [rest Hrest]; [lia|].
    exists (stamp iso x), rest. split; [exact Hrest|].
    rewrite prop_stamp_id. apply strict_eq_true, Hx.
  - match goal with |- context [trim (?r :: l) _] =>
      destruct (trim_cons r l 500) as [rest Hrest]; [lia|]; exists r, rest
    end.
    split; [exact Hrest | reflexivity].
Qed.

Lemma savePersistentSearch_mirror JSON_stringify st name f s a j c y w :
  persistentSearchEnabled st = true ->
  fst (savePersistentSearch JSON_stringify st name f s a j c y w) = Ret tt /\
  memoryCache (snd (savePersistentSearch JSON_stringify st name f s a j c y w)) =
    set_persistentSearches
      (<[name := searchData f s a j c y]> (persistentSearches (memoryCache w)))
      (memoryCache w).
Proof.
  intros Hen. unfold savePersistentSearch, storage_setItem, stringify. rewrite Hen.
  unfold_m. cbn [negb]. cbv beta.
  destruct (JSON_stringify _); [|split; reflexivity].
  cbn [storage_set_fails set_memoryCache].
  destruct (storage_set_fails w _); split; reflexivity.
Qed.

(** C8 (as amended). With [recentlyViewedEnabled] off, [addToRecentlyViewed]
    returns its input collection and changes nothing. The persistent search
    operations are gated by their own flag [persistentSearchEnabled], not by
    the flag of recently-viewed: with that flag off, save changes nothing and
    load returns [null]; with it on, whatever the flag of recently-viewed,
    save stores the state and load returns it. [trackImportedCard] takes no
    settings at all: for any card it can snapshot it returns a collection
    headed by a record with the card's id, which the mirror then holds. *)
Theorem feature_flag_gating (JSON_stringify : jsval -> option string) :
  (forall st rv card w,
      recentlyViewedEnabled st = false ->
      addToRecentlyViewed st rv card w = (Ret rv, w)) /\
  (forall st name f s a j c y w,
      persistentSearchEnabled st = false ->
      savePersistentSearch JSON_stringify st name f s a j c y w = (Ret tt, w) /\
      loadPersistentSearch st name w = JNull) /\
  (forall st name f s a j c y w,
      persistentSearchEnabled st = true ->
      loadPersistentSearch st name
        (snd (savePersistentSearch JSON_stringify st name f s a j c y w))
        = searchData f s a j c y) /\
  (forall iso card type w l,
      importedCards (memoryCache w) = JArr l ->
      Forall (fun c => is_record c = true) l ->
      importable card = true ->
      exists rec rest,
        fst (trackImportedCard iso card type w) = Ret (JArr (rec :: rest)) /\
        prop rec "id" = prop card "id" /\
        loadImportedCards (snd (trackImportedCard iso card type w)) = JArr (rec :: rest)).
Proof.
  split; [|split; [|split]].
  - intros st rv card w H. unfold addToRecentlyViewed. rewrite H. reflexivity.
  - intros st name f s a j c y w H.
    unfold savePersistentSearch, loadPersistentSearch. rewrite H. split; reflexivity.
  - intros st name f s a j c y w H.
    destruct (savePersistentSearch_mirror JSON_stringify st name f s a j c y w H) as [_ Hmc].
    unfold loadPersistentSearch. rewrite H, Hmc. cbn [negb set_persistentSearches persistentSearches].
    rewrite lookup_insert_eq. reflexivity.
  - intros iso card type w l Hm Hwf Hc.
    rewrite (trackImportedCard_eq iso l card type w Hm Hwf Hc).
    destruct (tracked_head iso card type l) as (rec & rest & Heq & Hid).
    exists rec, rest. rewrite Heq. cbn [fst snd]. split; [reflexivity|].
    split; [exact Hid | reflexivity].
Qed.

(** ** Read after write *)

Section Background.

Context (JSON_stringify : jsval -> option string).

Lemma settle_memoryCache w : memoryCache (settle JSON_stringify w) = memoryCache w.
Proof.
  unfold settle. destruct (inflight w) as [|[key val] q]; [reflexivity|].
  rewrite idbSet_memoryCache. reflexivity.
Qed.

Lemma settle_n_memoryCache n w : memoryCache (settle_n JSON_stringify n w) = memoryCache w.
Proof.
  revert w. induction n as [|n IH]; intros w; cbn [settle_n]; [reflexivity|].
  rewrite IH. apply settle_memoryCache.
Qed.

(** Background completions and failures of durable writes never touch the
    mirror. *)
Lemma later_memoryCache fs fg ss n w :
  memoryCache (later JSON_stringify fs fg ss n w) = memoryCache w.
Proof. unfold later. rewrite settle_n_memoryCache. reflexivity. Qed.

End Background.

Lemma loadBookmarks_mirror w1 w2 :
  memoryCache w1 = memoryCache w2 -> loadBookmarks w1 = loadBookmarks w2.
Proof. unfold loadBookmarks. intros ->. reflexivity. Qed.

Lemma loadImportedCards_mirror w1 w2 :
  memoryCache w1 = memoryCache w2 -> loadImportedCards w1 = loadImportedCards w2.
Proof. unfold loadImportedCards. intros ->. reflexivity. Qed.

Lemma loadRecentlyViewed_mirror st w1 w2 :
  memoryCache w1 = memoryCache w2 ->
  fst (loadRecentlyViewed st w1) = fst (loadRecentlyViewed st w2).
Proof.
  unfold loadRecentlyViewed. unfold_m. intros Hmc.
  destruct (negb (recentlyViewedEnabled st)); [reflexivity|].
  cbv beta. rewrite Hmc.
  destruct (js_gt _ _); [|reflexivity].
  destruct (js_slice0 _ _); reflexivity.
Qed.

Lemma filterM_shrinks f l :
  forall l', filterM f l = Ret l' ->
  (List.length l' <= List.length l)%nat /\ (List.length l' = List.length l -> l' = l).
Proof.
  induction l as [|x l IH]; intros l'; cbn [filterM]; unfold obind.
  - intros [= <-]. split; [lia | reflexivity].
  - destruct (f x) as [b|]; [|discriminate].
    destruct (filterM f l) as [r|]; [|discriminate].
    destruct (IH r eq_refl) as [Hle Heq].
    destruct b; intros [= <-]; cbn [List.length].
    + split; [lia|]. intros H. f_equal. apply Heq. lia.
    + split; [lia|]. intros H. lia.
Qed.

Lemma as_array_inv v l : as_array v = Ret l -> v = JArr l.
Proof. destruct v; cbn; intros H; try discriminate H. injection H as ->. reflexivity. Qed.

Lemma addBookmark_reads_back iso card w :
  exists r, fst (addBookmark iso card w) = Ret r /\
            loadBookmarks (snd (addBookmark iso card w)) = r.
Proof.
  unfold addBookmark, addBookmark_try, bookmarks_in_place, saveBookmarks, idbSet_async.
  unfold_m.
  destruct (as_array (loadBookmarks w)) as [l|]; [|eexists; split; reflexivity].
  destruct (someM _ l) as [[|]|]; try (eexists; split; reflexivity).
  destruct (bookmarkRecord iso card); [|eexists; split; reflexivity].
  destruct (truthy (bookmarks (memoryCache w))); eexists; split; reflexivity.
Qed.

Lemma removeBookmark_reads_back cardId w :
  exists r, fst (removeBookmark cardId w) = Ret r /\
            loadBookmarks (snd (removeBookmark cardId w)) = r.
Proof.
  unfold removeBookmark, removeBookmark_try, saveBookmarks, idbSet_async. unfold_m.
  destruct (as_array (loadBookmarks w)) as [l|] eqn:Harr; [|eexists; split; reflexivity].
  destruct (filterM _ l) as [l'|] eqn:Hf; [|eexists; split; reflexivity].
  destruct (List.length l' <? List.length l)%nat eqn:Hlt; [eexists; split; reflexivity|].
  exists (JArr l'). split; [reflexivity|]. cbn [snd].
  apply filterM_shrinks in Hf as [Hle Heq]. apply Nat.ltb_ge in Hlt.
  rewrite Heq by lia. apply as_array_inv, Harr.
Qed.

Lemma removeImportedCard_reads_back cardId w :
  exists r, fst (removeImportedCard cardId w) = Ret r /\
            loadImportedCards (snd (removeImportedCard cardId w)) = r.
Proof.
  unfold removeImportedCard, removeImportedCard_try, saveImportedCards, idbSet_async.
  unfold_m.
  destruct (as_array (loadImportedCards w)) as [l|] eqn:Harr; [|eexists; split; reflexivity].
  destruct (filterM _ l) as [l'|] eqn:Hf; [|eexists; split; reflexivity].
  destruct (List.length l' <? List.length l)%nat eqn:Hlt; [eexists; split; reflexivity|].
  exists (JArr l'). split; [reflexivity|]. cbn [snd].
  apply filterM_shrinks in Hf as [Hle Heq]. apply Nat.ltb_ge in Hlt.
  rewrite Heq by lia. apply as_array_inv, Harr.
Qed.

Lemma trackImportedCard_reads_back iso card type w :
  exists r, fst (trackImportedCard iso card type w) = Ret r /\
            loadImportedCards (snd (trackImportedCard iso card type w)) = r.
Proof.
  unfold trackImportedCard, trackImportedCard_try, importedCards_in_place,
    saveImportedCards, idbSet_async.
  unfold_m.
  destruct (as_array (loadImportedCards w)) as [l|]; [|eexists; split; reflexivity].
  destruct (findIndexM _ l 0) as [[i|]|]; [| |eexists; split; reflexivity].
  - destruct (setProp _ _ _); [|eexists; split; reflexivity].
    destruct (truthy (importedCards (memoryCache w))); cbn [memoryCache set_memoryCache];
      repeat break_match; eexists; split; reflexivity.
  - destruct (importRecord _ _ _); [|eexists; split; reflexivity].
    destruct (truthy (importedCards (memoryCache w))); eexists; split; reflexivity.
Qed.

Lemma trim_length l n : (0 <= n)%Z -> (Z.of_nat (List.length (trim l n)) <= Z.max n (Z.of_nat (List.length l)))%Z /\ (Z.of_nat (List.length (trim l n)) <= n)%Z.
Proof.
  intros Hn. unfold trim. destruct (n <? Z.of_nat (List.length l))%Z eqn:E.
  - apply Z.ltb_lt in E. rewrite slice0_nonneg by lia. rewrite length_take. lia.
  - apply Z.ltb_ge in E. lia.
Qed.

Lemma viewed_length st card l :
  (0 <= maxRecentlyViewed st)%Z ->
  (Z.of_nat (List.length (viewed st card l)) <= maxRecent st)%Z.
Proof.
  intros H. unfold viewed. apply trim_length. pose proof (maxRecent_pos st H). lia.
Qed.

Lemma addToRecentlyViewed_reads_back st l card w w2 :
  recentlyViewedEnabled st = true ->
  (0 <= maxRecentlyViewed st)%Z ->
  Forall (fun c => nullish c = false) l ->
  nullish card = false ->
  memoryCache w2 = memoryCache (snd (addToRecentlyViewed st (JArr l) card w)) ->
  fst (addToRecentlyViewed st (JArr l) card w) = Ret (JArr (viewed st card l)) /\
  fst (loadRecentlyViewed st w2) = Ret (JArr (viewed st card l)).
Proof.
  intros Hen Hmax Hwf Hc Hmc.
  rewrite (addToRecentlyViewed_eq st l card w Hen Hwf Hc) in *. cbn [fst snd] in *.
  split; [reflexivity|].
  rewrite (loadRecentlyViewed_eq st w2 (viewed st card l) Hen Hmax).
  - pose proof (viewed_length st card l Hmax) as Hlen.
    apply Z.ltb_ge in Hlen. rewrite Hlen. reflexivity.
  - rewrite Hmc. reflexivity.
Qed.

(** C5 (as amended). Whatever the durable store does afterwards ([n]
    background completions under any failure behaviour), the next accessor
    returns exactly what the mutator returned, for [addBookmark],
    [removeBookmark], [trackImportedCard], [removeImportedCard] and
    [clearImportedCards] on every input, and for [addToRecentlyViewed] when
    its flag is enabled, the setting is not negative and the collection and
    the card can be read. [saveImportStats] and [saveSearchCollapsed] return
    nothing: the next accessor returns the value they were given. *)
Theorem read_after_write (JSON_stringify : jsval -> option string)
    (fs fg ss : string -> bool) (n : nat) :
  (forall iso card w,
      exists r, fst (addBookmark iso card w) = Ret r /\
        loadBookmarks (later JSON_stringify fs fg ss n (snd (addBookmark iso card w))) = r) /\
  (forall cardId w,
      exists r, fst (removeBookmark cardId w) = Ret r /\
        loadBookmarks (later JSON_stringify fs fg ss n (snd (removeBookmark cardId w))) = r) /\
  (forall iso card type w,
      exists r, fst (trackImportedCard iso card type w) = Ret r /\
        loadImportedCards
          (later JSON_stringify fs fg ss n (snd (trackImportedCard iso card type w))) = r) /\
  (forall cardId w,
      exists r, fst (removeImportedCard cardId w) = Ret r /\
        loadImportedCards
          (later JSON_stringify fs fg ss n (snd (removeImportedCard cardId w))) = r) /\
  (forall w,
      exists r, fst (clearImportedCards w) = Ret r /\
        loadImportedCards (later JSON_stringify fs fg ss n (snd (clearImportedCards w))) = r) /\
  (forall stats w,
      loadImportStats (later JSON_stringify fs fg ss n (snd (saveImportStats stats w))) = stats) /\
  (forall collapsed w,
      loadSearchCollapsed
        (later JSON_stringify fs fg ss n (snd (saveSearchCollapsed collapsed w))) = collapsed) /\
  (forall st l card w,
      recentlyViewedEnabled st = true ->
      (0 <= maxRecentlyViewed st)%Z ->
      Forall (fun c => nullish c = false) l ->
      nullish card = false ->
      exists r, fst (addToRecentlyViewed st (JArr l) card w) = Ret r /\
        fst (loadRecentlyViewed st
               (later JSON_stringify fs fg ss n (snd (addToRecentlyViewed st (JArr l) card w))))
          = Ret r).
Proof.
  repeat split.
  - intros iso card w. destruct (addBookmark_reads_back iso card w) as (r & Hr & Hl).
    exists r. split; [exact Hr|]. rewrite <- Hl.
    apply loadBookmarks_mirror, later_memoryCache.
  - intros cardId w. destruct (removeBookmark_reads_back cardId w) as (r & Hr & Hl).
    exists r. split; [exact Hr|]. rewrite <- Hl.
    apply loadBookmarks_mirror, later_memoryCache.
  - intros iso card type w.
    destruct (trackImportedCard_reads_back iso card type w) as (r & Hr & Hl).
    exists r. split; [exact Hr|]. rewrite <- Hl.
    apply loadImportedCards_mirror, later_memoryCache.
  - intros cardId w. destruct (removeImportedCard_reads_back cardId w) as (r & Hr & Hl).
    exists r. split; [exact Hr|]. rewrite <- Hl.
    apply loadImportedCards_mirror, later_memoryCache.
  - intros w. exists (JArr []). split; [reflexivity|].
    rewrite (loadImportedCards_mirror _ (snd (clearImportedCards w)))
      by apply later_memoryCache.
    reflexivity.
  - intros stats w. unfold loadImportStats. rewrite later_memoryCache. reflexivity.
  - intros collapsed w. unfold loadSearchCollapsed. rewrite later_memoryCache. reflexivity.
  - intros st l card w Hen Hmax Hwf Hc. exists (JArr (viewed st card l)).
    apply addToRecentlyViewed_reads_back; try assumption.
    apply later_memoryCache.
Qed.

(** ** Failure containment *)

Lemma addBookmark_try_exn iso card w e w' :
  addBookmark_try iso card w = (Exn e, w') -> w' = w.
Proof.
  unfold addBookmark_try, bookmarks_in_place, saveBookmarks, idbSet_async. unfold_m.
  destruct (as_array (loadBookmarks w)) as [l|]; [|intros [= _ <-]; reflexivity].
  destruct (someM _ l) as [[|]|]; [discriminate | | intros [= _ <-]; reflexivity].
  destruct (bookmarkRecord iso card); [discriminate | intros [= _ <-]; reflexivity].
Qed.

Lemma removeBookmark_try_exn cardId w e w' :
  removeBookmark_try cardId w = (Exn e, w') -> w' = w.
Proof.
  unfold removeBookmark_try, saveBookmarks, idbSet_async. unfold_m.
  destruct (as_array (loadBookmarks w)) as [l|]; [|intros [= _ <-]; reflexivity].
  destruct (filterM _ l) as [l'|]; [|intros [= _ <-]; reflexivity].
  destruct (List.length l' <? List.length l)%nat; discriminate.
Qed.

Lemma removeImportedCard_try_exn cardId w e w' :
  removeImportedCard_try cardId w = (Exn e, w') -> w' = w.
Proof.
  unfold removeImportedCard_try, saveImportedCards, idbSet_async. unfold_m.
  destruct (as_array (loadImportedCards w)) as [l|]; [|intros [= _ <-]; reflexivity].
  destruct (filterM _ l) as [l'|]; [|intros [= _ <-]; reflexivity].
  destruct (List.length l' <? List.length l)%nat; discriminate.
Qed.

Lemma trackImportedCard_try_exn iso card type w e w' :
  trackImportedCard_try iso card type w = (Exn e, w') -> w' = w.
Proof.
  unfold trackImportedCard_try, importedCards_in_place, saveImportedCards, idbSet_async.
  unfold_m.
  destruct (as_array (loadImportedCards w)) as [l|]; [|intros [= _ <-]; reflexivity].
  destruct (findIndexM _ l 0) as [[i|]|]; [| |intros [= _ <-]; reflexivity].
  - destruct (setProp _ _ _); [discriminate | intros [= _ <-]; reflexivity].
  - destruct (importRecord _ _ _); [discriminate | intros [= _ <-]; reflexivity].
Qed.

(** With a card that cannot be read, [filter] gets through only on the
    empty array. *)
Lemma recentlyViewed_filter_nullish rv card filtered :
  nullish card = true ->
  recentlyViewed_filter rv card = Ret filtered -> rv = JArr [] /\ filtered = [].
Proof.
  intros Hc. unfold recentlyViewed_filter, obind.
  destruct (as_array rv) as [l|] eqn:Harr; [|discriminate].
  apply as_array_inv in Harr. subst rv.
  destruct l as [|x l]; cbn [filterM].
  - intros [= <-]. split; reflexivity.
  - unfold negM, same_id, getProp, obind. rewrite Hc.
    destruct (nullish x); discriminate.
Qed.

Lemma recentlyViewed_store_exn st filtered card w e w' :
  recentlyViewed_store st filtered card w = (Exn e, w') -> nullish card = true /\ w' = w.
Proof.
  unfold recentlyViewed_store, recentRecord, idbSet_async. unfold_m.
  destruct (nullish card); [intros [= _ <-]; split; reflexivity | discriminate].
Qed.

(** The collection operations neither read nor change the behaviour of the
    stores: run under another behaviour, they return the same value and
    make the same changes. *)
Ltac faults_blind :=
  intros; unfold_m;
  cbn [memoryCache inflight with_faults set_memoryCache set_inflight fst snd];
  repeat (break_match;
          cbn [memoryCache inflight with_faults set_memoryCache set_inflight fst snd] in *);
  try reflexivity; try congruence.

Lemma addBookmark_faults iso card fs fg ss w :
  addBookmark iso card (with_faults fs fg ss w) =
    (fst (addBookmark iso card w), with_faults fs fg ss (snd (addBookmark iso card w))).
Proof.
  unfold addBookmark, addBookmark_try, bookmarks_in_place, saveBookmarks, idbSet_async,
    loadBookmarks.
  faults_blind.
Qed.

Lemma removeBookmark_faults cardId fs fg ss w :
  removeBookmark cardId (with_faults fs fg ss w) =
    (fst (removeBookmark cardId w), with_faults fs fg ss (snd (removeBookmark cardId w))).
Proof.
  unfold removeBookmark, removeBookmark_try, saveBookmarks, idbSet_async, loadBookmarks.
  faults_blind.
Qed.

Lemma trackImportedCard_faults iso card type fs fg ss w :
  trackImportedCard iso card type (with_faults fs fg ss w) =
    (fst (trackImportedCard iso card type w),
     with_faults fs fg ss (snd (trackImportedCard iso card type w))).
Proof.
  unfold trackImportedCard, trackImportedCard_try, importedCards_in_place,
    saveImportedCards, idbSet_async, loadImportedCards.
  faults_blind.
Qed.

Lemma removeImportedCard_faults cardId fs fg ss w :
  removeImportedCard cardId (with_faults fs fg ss w) =
    (fst (removeImportedCard cardId w),
     with_faults fs fg ss (snd (removeImportedCard cardId w))).
Proof.
  unfold removeImportedCard, removeImportedCard_try, saveImportedCards, idbSet_async,
    loadImportedCards.
  faults_blind.
Qed.

Lemma addToRecentlyViewed_faults st rv card fs fg ss w :
  addToRecentlyViewed st rv card (with_faults fs fg ss w) =
    (fst (addToRecentlyViewed st rv card w),
     with_faults fs fg ss (snd (addToRecentlyViewed st rv card w))).
Proof.
  unfold addToRecentlyViewed, recentlyViewed_store, idbSet_async.
  faults_blind.
Qed.

Lemma contains_by_try (body : M jsval) (prior : world -> jsval) :
  (forall w, exists r, fst (try_catch body (fun _ => gets prior) w) = Ret r) ->
  (forall w e w', body w = (Exn e, w') -> w' = w) ->
  contains_exceptions body (try_catch body (fun _ => gets prior)) prior.
Proof.
  intros Hret Hexn w. split; [apply Hret|].
  intros e w' H. unfold try_catch, gets. rewrite H.
  apply Hexn in H. subst w'. reflexivity.
Qed.

Lemma survives_by_mirror JSON_stringify (op : M jsval) (load : world -> jsval) :
  (forall fs fg ss w,
      op (with_faults fs fg ss w) = (fst (op w), with_faults fs fg ss (snd (op w)))) ->
  (forall w1 w2, memoryCache w1 = memoryCache w2 -> load w1 = load w2) ->
  (forall w, exists r, fst (op w) = Ret r /\ load (snd (op w)) = r) ->
  survives_store_failure JSON_stringify op (fun w => Ret (load w)).
Proof.
  intros Hblind Hmirror Hback fs fg ss n w. rewrite Hblind. cbn [fst snd].
  split; [reflexivity|].
  destruct (Hback w) as (r & Hr & Hl). rewrite Hr. f_equal. rewrite <- Hl.
  apply Hmirror. rewrite settle_n_memoryCache. reflexivity.
Qed.

(** C6. Each of the five collection mutations contains its exceptions: the
    call returns normally, and when its try block throws it returns the
    collection as it was before the call (for [addToRecentlyViewed], the
    collection it was given) with the world unchanged. Each of them survives
    store failures: its return value is the same whatever the stores do, the
    mirror it leaves is the same however the durable writes end, and once
    they have failed or completed the accessor still returns the value of
    the mutation (for [addToRecentlyViewed]: when the flag is enabled, the
    setting is not negative and its inputs can be read). *)
Theorem failure_containment (JSON_stringify : jsval -> option string) :
  (forall iso card,
      contains_exceptions (addBookmark_try iso card) (addBookmark iso card) loadBookmarks) /\
  (forall cardId,
      contains_exceptions (removeBookmark_try cardId) (removeBookmark cardId) loadBookmarks) /\
  (forall iso card type,
      contains_exceptions (trackImportedCard_try iso card type)
        (trackImportedCard iso card type) loadImportedCards) /\
  (forall cardId,
      contains_exceptions (removeImportedCard_try cardId) (removeImportedCard cardId)
        loadImportedCards) /\
  (forall st rv card w,
      (exists r, fst (addToRecentlyViewed st rv card w) = Ret r) /\
      (forall e, recentlyViewed_filter rv card = Exn e ->
                 addToRecentlyViewed st rv card w = (Ret rv, w)) /\
      (forall filtered e w',
          recentlyViewed_filter rv card = Ret filtered ->
          recentlyViewed_store st filtered card w = (Exn e, w') ->
          addToRecentlyViewed st rv card w = (Ret rv, w))) /\
  (forall iso card,
      survives_store_failure JSON_stringify (addBookmark iso card)
        (fun w => Ret (loadBookmarks w))) /\
  (forall cardId,
      survives_store_failure JSON_stringify (removeBookmark cardId)
        (fun w => Ret (loadBookmarks w))) /\
  (forall iso card type,
      survives_store_failure JSON_stringify (trackImportedCard iso card type)
        (fun w => Ret (loadImportedCards w))) /\
  (forall cardId,
      survives_store_failure JSON_stringify (removeImportedCard cardId)
        (fun w => Ret (loadImportedCards w))) /\
  (forall st rv card fs fg ss n w,
      fst (addToRecentlyViewed st rv card (with_faults fs fg ss w))
        = fst (addToRecentlyViewed st rv card w) /\
      memoryCache
        (settle_n JSON_stringify n
           (snd (addToRecentlyViewed st rv card (with_faults fs fg ss w))))
        = memoryCache (snd (addToRecentlyViewed st rv card w))) /\
  (forall st l card,
      recentlyViewedEnabled st = true ->
      (0 <= maxRecentlyViewed st)%Z ->
      Forall (fun c => nullish c = false) l ->
      nullish card = false ->
      survives_store_failure JSON_stringify (addToRecentlyViewed st (JArr l) card)
        (fun w => fst (loadRecentlyViewed st w))).
Proof.
  repeat apply conj.
  - intros iso card. apply contains_by_try.
    + intros w. destruct (addBookmark_reads_back iso card w) as (r & Hr & _). eauto.
    + intros w e w'. apply addBookmark_try_exn.
  - intros cardId. apply contains_by_try.
    + intros w. destruct (removeBookmark_reads_back cardId w) as (r & Hr & _). eauto.
    + intros w e w'. apply removeBookmark_try_exn.
  - intros iso card type. apply contains_by_try.
    + intros w. destruct (trackImportedCard_reads_back iso card type w) as (r & Hr & _). eauto.
    + intros w e w'. apply trackImportedCard_try_exn.
  - intros cardId. apply contains_by_try.
    + intros w. destruct (removeImportedCard_reads_back cardId w) as (r & Hr & _). eauto.
    + intros w e w'. apply removeImportedCard_try_exn.
  - intros st rv card w. unfold addToRecentlyViewed.
    destruct (negb (recentlyViewedEnabled st)).
    { split; [eexists; reflexivity|]. split; reflexivity. }
    split; [|split].
    + destruct (recentlyViewed_filter rv card) as [filtered|]; [|eexists; reflexivity].
      unfold try_catch, ret.
      destruct (recentlyViewed_store st filtered card w) as [[r|e] w1]; eexists; reflexivity.
    + intros e He. rewrite He. reflexivity.
    + intros filtered e w' Hf Hs. rewrite Hf. unfold try_catch, ret. rewrite Hs.
      apply recentlyViewed_store_exn in Hs as [Hc ->].
      destruct (recentlyViewed_filter_nullish rv card filtered Hc Hf) as [-> ->].
      reflexivity.
  - intros iso card. apply survives_by_mirror.
    + intros. apply addBookmark_faults.
    + apply loadBookmarks_mirror.
    + apply addBookmark_reads_back.
  - intros cardId. apply survives_by_mirror.
    + intros. apply removeBookmark_faults.
    + apply loadBookmarks_mirror.
    + apply removeBookmark_reads_back.
  - intros iso card type. apply survives_by_mirror.
    + intros. apply trackImportedCard_faults.
    + apply loadImportedCards_mirror.
    + apply trackImportedCard_reads_back.
  - intros cardId. apply survives_by_mirror.
    + intros. apply removeImportedCard_faults.
    + apply loadImportedCards_mirror.
    + apply removeImportedCard_reads_back.
  - intros st rv card fs fg ss n w. rewrite addToRecentlyViewed_faults. cbn [fst snd].
    split; [reflexivity|]. rewrite settle_n_memoryCache. reflexivity.
  - intros st l card Hen Hmax Hwf Hc fs fg ss n w.
    rewrite addToRecentlyViewed_faults. cbn [fst snd]. split; [reflexivity|].
    destruct (addToRecentlyViewed_reads_back st l card w
                (settle_n JSON_stringify n
                   (with_faults fs fg ss (snd (addToRecentlyViewed st (JArr l) card w))))
                Hen Hmax Hwf Hc) as [Hr Hl].
    { rewrite settle_n_memoryCache. reflexivity. }
    rewrite Hl, Hr. reflexivity.
Qed.

(** ** Lists of ids *)

Section IdLists.

Implicit Types (l D : list string) (i x y : string).

Lemma other_than_true x y : other_than x y = true <-> y <> x.
Proof.
  unfold other_than. rewrite negb_true_iff. split.
  - intros H ->. rewrite String.eqb_refl in H. discriminate.
  - intros H. apply String.eqb_neq, H.
Qed.

Lemma other_than_false x y : other_than x y = false <-> y = x.
Proof. unfold other_than. rewrite negb_false_iff. apply String.eqb_eq. Qed.

Lemma filter_other_than_absent i l : ~ In i l -> List.filter (other_than i) l = l.
Proof.
  induction l as [|x l IH]; cbn [List.filter]; [reflexivity|].
  intros Hni. destruct (other_than i x) eqn:E.
  - f_equal. apply IH. intros H. apply Hni. right. exact H.
  - apply other_than_false in E. subst x. exfalso. apply Hni. left. reflexivity.
Qed.

Lemma In_keep_first x l : In x (keep_first l) <-> In x l.
Proof.
  induction l as [|y l IH]; cbn [keep_first]; [reflexivity|].
  cbn [In]. rewrite filter_In, IH, other_than_true.
  destruct (String.eqb_spec y x) as [->|Hne]; [tauto|].
  split; [tauto|]. intros [H|H]; [contradiction|]. right. split; [exact H|].
  intros ->. apply Hne. reflexivity.
Qed.

Lemma NoDup_list_filter (p : string -> bool) l : NoDup l -> NoDup (List.filter p l).
Proof.
  induction 1 as [|x l Hx Hnd IH]; cbn [List.filter]; [constructor|].
  destruct (p x); [|exact IH]. constructor; [|exact IH].
  rewrite list_elem_of_In, filter_In. intros [Hin _]. apply Hx.
  rewrite list_elem_of_In. exact Hin.
Qed.

Lemma NoDup_keep_first l : NoDup (keep_first l).
Proof.
  induction l as [|x l IH]; cbn [keep_first]; constructor.
  - rewrite list_elem_of_In, filter_In, other_than_true. intros [_ H]. apply H. reflexivity.
  - apply NoDup_list_filter, IH.
Qed.

Lemma newest_first_snoc l i :
  newest_first (l ++ [i])%list = i :: List.filter (other_than i) (newest_first l).
Proof. unfold newest_first. rewrite rev_unit. reflexivity. Qed.

Lemma keep_first_snoc l i :
  keep_first (l ++ [i]) =
    (keep_first l ++ (if existsb (String.eqb i) l then [] else [i]))%list.
Proof.
  induction l as [|x l IH]; cbn [app keep_first existsb]; [reflexivity|].
  rewrite IH, List.filter_app. f_equal.
  destruct (String.eqb_spec i x) as [->|Hne]; cbn [orb].
  - destruct (existsb _ l); cbn [List.filter]; [rewrite app_nil_r; reflexivity|].
    unfold other_than at 2. rewrite String.eqb_refl. cbn [negb]. rewrite app_nil_r. reflexivity.
  - destruct (existsb _ l); cbn [List.filter]; [reflexivity|].
    replace (other_than x i) with true; [reflexivity|].
    symmetry. apply other_than_true, Hne.
Qed.

Lemma existsb_eqb_In i l : existsb (String.eqb i) l = true <-> In i l.
Proof.
  rewrite existsb_exists. split.
  - intros (y & Hy & E). apply String.eqb_eq in E. subst y. exact Hy.
  - intros H. exists i. split; [exact H | apply String.eqb_refl].
Qed.

Lemma first_seen_snoc l i :
  first_seen (l ++ [i])%list =
    if existsb (String.eqb i) (first_seen l) then first_seen l else i :: first_seen l.
Proof.
  unfold first_seen. rewrite keep_first_snoc.
  assert (E : existsb (String.eqb i) (rev (keep_first l)) = existsb (String.eqb i) l).
  { apply eq_true_iff_eq. rewrite !existsb_eqb_In, <- in_rev. apply In_keep_first. }
  rewrite E. destruct (existsb _ l).
  - rewrite app_nil_r. reflexivity.
  - rewrite rev_unit. reflexivity.
Qed.

(** In a list without duplicates, dropping the ids equal to [i] drops at
    most one element. *)
Lemma filter_other_than_length i l :
  NoDup l -> (List.length l <= S (List.length (List.filter (other_than i) l)))%nat.
Proof.
  induction 1 as [|x l Hx Hnd IH]; cbn [List.filter List.length]; [lia|].
  destruct (other_than i x) eqn:E; cbn [List.length]; [lia|].
  apply other_than_false in E. subst x.
  rewrite filter_other_than_absent; [lia|]. rewrite <- list_elem_of_In. exact Hx.
Qed.

Lemma firstn_filter_firstn (p : string -> bool) m k D :
  (m <= List.length (List.filter p (firstn k D)))%nat ->
  firstn m (List.filter p (firstn k D)) = firstn m (List.filter p D).
Proof.
  intros H. rewrite <- (firstn_skipn k D) at 2. rewrite List.filter_app.
  rewrite firstn_app. replace (m - _)%nat with 0%nat by lia.
  cbn [firstn]. rewrite app_nil_r. reflexivity.
Qed.

(** Upsert at the front commutes with the truncation to [n >= 1] elements
    when the ids are distinct. *)
Lemma upsert_firstn n i D :
  NoDup D -> (1 <= n)%nat ->
  firstn n (i :: List.filter (other_than i) (firstn n D)) =
  firstn n (i :: List.filter (other_than i) D).
Proof.
  intros Hnd Hn. destruct n as [|m]; [lia|]. cbn [firstn]. f_equal.
  destruct (Nat.le_gt_cases (List.length D) (S m)) as [Hshort|Hlong].
  - replace (firstn (S m) D) with D by (symmetry; apply firstn_all2; exact Hshort).
    reflexivity.
  - apply firstn_filter_firstn.
    assert (Hnd' : NoDup (firstn (S m) D)).
    { exact (sublist_NoDup _ _ Hnd (sublist_take D (S m))). }
    pose proof (filter_other_than_length i _ Hnd') as Hlen.
    rewrite length_take in Hlen. lia.
Qed.

(** With distinct ids, dropping the ids equal to the one at position [j] is
    deleting position [j]. *)
Lemma filter_other_than_delete l :
  NoDup l -> forall j i, l !! j = Some i -> List.filter (other_than i) l = delete j l.
Proof.
  induction 1 as [|x l Hx Hnd IH]; intros j i Hj; [discriminate Hj|].
  destruct j as [|j]; cbn [List.filter].
  - injection Hj as ->. unfold other_than at 1. rewrite String.eqb_refl. cbn [negb].
    apply filter_other_than_absent. rewrite <- list_elem_of_In. exact Hx.
  - cbn in Hj. replace (other_than i x) with true.
    + cbn [delete list_delete]. f_equal. apply IH, Hj.
    + symmetry. apply other_than_true. intros ->. apply Hx.
      eapply list_elem_of_lookup_2, Hj.
Qed.

End IdLists.

(** ** From collections of records to lists of ids *)

Lemma strict_eq_ids c card :
  has_string_id c = true -> has_string_id card = true ->
  strict_eq (prop c "id") (prop card "id") = String.eqb (id_str c) (id_str card).
Proof.
  unfold has_string_id, id_str.
  destruct (prop c "id"); try discriminate; destruct (prop card "id"); try discriminate.
  reflexivity.
Qed.

Lemma string_ids_records l :
  Forall (fun c => has_string_id c = true) l -> Forall (fun c => is_record c = true) l.
Proof. intros H. eapply Forall_impl; [exact H|]. intros c. apply has_string_id_record. Qed.

Lemma string_ids_not_nullish l :
  Forall (fun c => has_string_id c = true) l -> Forall (fun c => nullish c = false) l.
Proof. intros H. apply records_not_nullish, string_ids_records, H. Qed.

Lemma ids_filter card l :
  Forall (fun c => has_string_id c = true) l -> has_string_id card = true ->
  id_str <$> List.filter (fun c => negb (strict_eq (prop c "id") (prop card "id"))) l =
  List.filter (other_than (id_str card)) (id_str <$> l).
Proof.
  intros Hl Hc. induction Hl as [|c l Hcid _ IH]; [reflexivity|].
  cbn [List.filter fmap list_fmap]. rewrite (strict_eq_ids c card Hcid Hc).
  fold (other_than (id_str card) (id_str c)).
  destruct (other_than (id_str card) (id_str c)); cbn [fmap list_fmap]; rewrite <- IH;
    reflexivity.
Qed.

Lemma ids_existsb card l :
  Forall (fun c => has_string_id c = true) l -> has_string_id card = true ->
  existsb (fun b => strict_eq (prop b "id") (prop card "id")) l =
  existsb (String.eqb (id_str card)) (id_str <$> l).
Proof.
  intros Hl Hc. induction Hl as [|c l Hcid _ IH]; [reflexivity|].
  cbn [existsb fmap list_fmap]. rewrite (strict_eq_ids c card Hcid Hc), IH.
  rewrite (String.eqb_sym (id_str c)). reflexivity.
Qed.

Lemma Forall_list_filter (P : jsval -> Prop) (g : jsval -> bool) l :
  Forall P l -> Forall P (List.filter g l).
Proof.
  induction 1 as [|x l Hx _ IH]; cbn [List.filter]; [constructor|].
  destruct (g x); [constructor; assumption | exact IH].
Qed.

Lemma trim_firstn l n : (0 <= n)%Z -> trim l n = firstn (Z.to_nat n) l.
Proof.
  intros Hn. unfold trim. destruct (n <? Z.of_nat (List.length l))%Z eqn:E.
  - apply slice0_nonneg, Hn.
  - apply Z.ltb_ge in E. symmetry. apply firstn_all2. lia.
Qed.

Lemma viewed_ids st card l :
  (0 <= maxRecentlyViewed st)%Z ->
  Forall (fun c => has_string_id c = true) l -> has_string_id card = true ->
  Forall (fun c => has_string_id c = true) (viewed st card l) /\
  id_str <$> viewed st card l =
    firstn (Z.to_nat (maxRecent st))
      (id_str card :: List.filter (other_than (id_str card)) (id_str <$> l)).
Proof.
  intros Hmax Hl Hc. pose proof (maxRecent_pos st Hmax) as Hn.
  unfold viewed. rewrite trim_firstn by lia. split.
  - apply Forall_take. constructor; [exact Hc | apply Forall_list_filter, Hl].
  - rewrite fmap_take. cbn [fmap list_fmap]. rewrite <- (ids_filter card l Hl Hc).
    reflexivity.
Qed.

Lemma tracked_ids iso card type l :
  Forall (fun c => has_string_id c = true) l -> has_string_id card = true ->
  NoDup (id_str <$> l) ->
  Forall (fun c => has_string_id c = true) (tracked iso card type l) /\
  id_str <$> tracked iso card type l =
    firstn 500 (id_str card :: List.filter (other_than (id_str card)) (id_str <$> l)).
Proof.
  intros Hl Hc Hnd. unfold tracked. rewrite trim_firstn by lia.
  change (Z.to_nat 500) with 500%nat.
  destruct (findIndex _ l 0) as [j|] eqn:Hfind.
  - apply findIndex_lookup in Hfind as (j' & x & -> & Hj & Hx). cbn [Nat.add].
    rewrite Hj. cbv [default from_option id].
    pose proof (Forall_lookup_1 (fun c => has_string_id c = true) l j' x Hl Hj) as Hxid.
    assert (Hsame : id_str (stamp iso x) = id_str card).
    { unfold id_str. rewrite prop_stamp_id. apply strict_eq_true in Hx. rewrite Hx.
      reflexivity. }
    assert (Hstamp : has_string_id (stamp iso x) = true).
    { unfold has_string_id. rewrite prop_stamp_id. exact Hxid. }
    split.
    + apply Forall_take. constructor; [exact Hstamp | apply Forall_delete, Hl].
    + rewrite fmap_take. cbn [fmap list_fmap]. rewrite Hsame, list_fmap_delete.
      rewrite (filter_other_than_delete (id_str <$> l) Hnd j' (id_str card)); [reflexivity|].
      rewrite list_lookup_fmap, Hj. cbn. f_equal.
      unfold id_str. apply strict_eq_true in Hx. rewrite Hx. reflexivity.
  - apply findIndex_none in Hfind. rewrite (ids_existsb card l Hl Hc) in Hfind.
    assert (Hni : ~ In (id_str card) (id_str <$> l)).
    { intros Hin. apply existsb_eqb_In in Hin. rewrite Hin in Hfind. discriminate. }
    split.
    + apply Forall_take. constructor; [exact Hc | exact Hl].
    + rewrite fmap_take. cbn [fmap list_fmap].
      rewrite (filter_other_than_absent _ _ Hni). reflexivity.
Qed.

(** ** Sequences of insertions *)

Lemma addAllRecentlyViewed_ids st :
  recentlyViewedEnabled st = true ->
  (0 <= maxRecentlyViewed st)%Z ->
  forall cards pre l w,
    Forall (fun c => has_string_id c = true) cards ->
    Forall (fun c => has_string_id c = true) l ->
    id_str <$> l = firstn (Z.to_nat (maxRecent st)) (newest_first pre) ->
    exists l',
      fst (addAllRecentlyViewed st cards (JArr l) w) = Ret (JArr l') /\
      id_str <$> l' =
        firstn (Z.to_nat (maxRecent st)) (newest_first (pre ++ (id_str <$> cards))%list).
Proof.
  intros Hen Hmax. pose proof (maxRecent_pos st Hmax) as Hn.
  induction cards as [|c cs IH]; intros pre l w Hcs Hl Hids.
  - exists l. split; [reflexivity|]. cbn [fmap list_fmap]. rewrite app_nil_r. exact Hids.
  - inversion Hcs as [|? ? Hc Hcs']; subst.
    cbn [addAllRecentlyViewed]. unfold sbind.
    rewrite (addToRecentlyViewed_eq st l c w Hen (string_ids_not_nullish l Hl)
               (is_record_not_nullish c (has_string_id_record c Hc))).
    destruct (viewed_ids st c l Hmax Hl Hc) as [Hl' Hids'].
    destruct (IH (pre ++ [id_str c])%list (viewed st c l)
                (set_inflight
                   (inflight w ++ [("botBrowser_recentlyViewed", JArr (viewed st c l))])
                   (set_memoryCache
                      (set_recentlyViewed (JArr (viewed st c l)) (memoryCache w)) w))
                Hcs' Hl') as (l' & Hr & Hfin).
    + rewrite Hids', Hids, newest_first_snoc.
      apply upsert_firstn; [apply NoDup_keep_first | lia].
    + exists l'. split; [exact Hr|]. rewrite Hfin. cbn [fmap list_fmap].
      rewrite <- app_assoc. reflexivity.
Qed.

Lemma NoDup_firstn_newest n pre : NoDup (firstn n (newest_first pre)).
Proof.
  exact (sublist_NoDup _ _ (NoDup_keep_first (rev pre)) (sublist_take _ n)).
Qed.

Lemma trackAllImportedCards_ids :
  forall cards pre l w,
    importedCards (memoryCache w) = JArr l ->
    Forall (fun c => importable c.2 = true) cards ->
    Forall (fun c => has_string_id c = true) l ->
    id_str <$> l = firstn 500 (newest_first pre) ->
    exists l',
      fst (trackAllImportedCards cards w) = Ret (JArr l') /\
      id_str <$> l' =
        firstn 500 (newest_first (pre ++ ((fun c => id_str c.2) <$> cards))%list).
Proof.
  induction cards as [|[iso c] cs IH]; intros pre l w Hm Hcs Hl Hids.
  - exists l. split.
    + cbn [trackAllImportedCards]. unfold gets, loadImportedCards. rewrite Hm. reflexivity.
    + cbn [fmap list_fmap]. rewrite app_nil_r. exact Hids.
  - inversion Hcs as [|? ? Hc Hcs']; subst. cbn [snd] in Hc.
    assert (Hcid : has_string_id c = true).
    { unfold importable in Hc. apply andb_prop in Hc. apply Hc. }
    cbn [trackAllImportedCards]. unfold sbind.
    rewrite (trackImportedCard_eq iso l c JUndefined w Hm (string_ids_records l Hl) Hc).
    assert (Hnd : NoDup (id_str <$> l)) by (rewrite Hids; apply NoDup_firstn_newest).
    destruct (tracked_ids iso c JUndefined l Hl Hcid Hnd) as [Hl' Hids'].
    destruct (IH (pre ++ [id_str c])%list (tracked iso c JUndefined l)
                (snd (saveImportedCards (JArr (tracked iso c JUndefined l)) w))
                eq_refl Hcs' Hl') as (l' & Hr & Hfin).
    + rewrite Hids', Hids, newest_first_snoc.
      apply upsert_firstn; [apply NoDup_keep_first | lia].
    + exists l'. split; [exact Hr|]. rewrite Hfin. cbn [fmap list_fmap snd].
      rewrite <- app_assoc. reflexivity.
Qed.

Lemma addAllBookmarks_ids :
  forall cards pre l w,
    bookmarks (memoryCache w) = JArr l ->
    Forall (fun c => has_string_id c.2 = true) cards ->
    Forall (fun c => has_string_id c = true) l ->
    id_str <$> l = first_seen pre ->
    exists l',
      fst (addAllBookmarks cards w) = Ret (JArr l') /\
      id_str <$> l' = first_seen (pre ++ ((fun c => id_str c.2) <$> cards))%list.
Proof.
  induction cards as [|[iso c] cs IH]; intros pre l w Hm Hcs Hl Hids.
  - exists l. split.
    + cbn [addAllBookmarks]. unfold gets, loadBookmarks. rewrite Hm. reflexivity.
    + cbn [fmap list_fmap]. rewrite app_nil_r. exact Hids.
  - inversion Hcs as [|? ? Hc Hcs']; subst. cbn [snd] in Hc.
    cbn [addAllBookmarks]. unfold sbind.
    rewrite (addBookmark_eq iso l c w Hm (string_ids_not_nullish l Hl)
               (is_record_not_nullish c (has_string_id_record c Hc))).
    rewrite (ids_existsb c l Hl Hc).
    pose proof (first_seen_snoc pre (id_str c)) as Hsnoc. rewrite <- Hids in Hsnoc.
    destruct (existsb (String.eqb (id_str c)) (id_str <$> l)).
    + destruct (IH (pre ++ [id_str c])%list l w Hm Hcs' Hl) as (l' & Hr & Hfin).
      { symmetry. exact Hsnoc. }
      exists l'. split; [exact Hr|]. rewrite Hfin. cbn [fmap list_fmap snd].
      rewrite <- app_assoc. reflexivity.
    + destruct (IH (pre ++ [id_str c])%list (bookmarkRecord_fields iso c :: l)
                  (snd (saveBookmarks (JArr (bookmarkRecord_fields iso c :: l)) w))
                  eq_refl Hcs') as (l' & Hr & Hfin).
      { constructor; [exact Hc | exact Hl]. }
      { rewrite Hsnoc. reflexivity. }
      exists l'. split; [exact Hr|]. rewrite Hfin. cbn [fmap list_fmap snd].
      rewrite <- app_assoc. reflexivity.
Qed.

(** C1 (as amended). Starting from an empty collection, a sequence of
    insertions of cards with string ids leaves each id at most once:
    [addToRecentlyViewed] (flag enabled, setting not negative) and
    [trackImportedCard] keep the distinct ids with the most recently
    inserted first, cut to the capacity (the effective maximum, 500 for
    imports); [addBookmark] leaves a card that is already bookmarked where
    it is, so the bookmarks are the distinct ids by their first insertion,
    the latest newcomer first. Both orders hold each inserted id exactly
    once, and an insertion puts its id at the front of the first one. Adding
    the bookmarks a, b, a yields [b, a]. *)
Theorem upsert_front_dedup :
  (forall st cards w,
      recentlyViewedEnabled st = true ->
      (0 <= maxRecentlyViewed st)%Z ->
      Forall (fun c => has_string_id c = true) cards ->
      exists l,
        fst (addAllRecentlyViewed st cards (JArr []) w) = Ret (JArr l) /\
        id_str <$> l =
          firstn (Z.to_nat (maxRecent st)) (newest_first (id_str <$> cards))) /\
  (forall cards w,
      importedCards (memoryCache w) = JArr [] ->
      Forall (fun c => importable c.2 = true) cards ->
      exists l,
        fst (trackAllImportedCards cards w) = Ret (JArr l) /\
        id_str <$> l = firstn 500 (newest_first ((fun c => id_str c.2) <$> cards))) /\
  (forall cards w,
      bookmarks (memoryCache w) = JArr [] ->
      Forall (fun c => has_string_id c.2 = true) cards ->
      exists l,
        fst (addAllBookmarks cards w) = Ret (JArr l) /\
        id_str <$> l = first_seen ((fun c => id_str c.2) <$> cards)) /\
  (forall ids,
      NoDup (newest_first ids) /\ NoDup (first_seen ids) /\
      (forall i, (In i (newest_first ids) <-> In i ids) /\
                 (In i (first_seen ids) <-> In i ids))) /\
  (forall ids i,
      newest_first (ids ++ [i])%list = i :: List.filter (other_than i) (newest_first ids)) /\
  first_seen ["a"; "b"; "a"] = ["b"; "a"].
Proof.
  repeat apply conj.
  - intros st cards w Hen Hmax Hcs.
    exact (addAllRecentlyViewed_ids st Hen Hmax cards [] [] w Hcs (List.Forall_nil _)
             (eq_sym (firstn_nil _ _))).
  - intros cards w Hm Hcs.
    exact (trackAllImportedCards_ids cards [] [] w Hm Hcs (List.Forall_nil _) eq_refl).
  - intros cards w Hm Hcs.
    exact (addAllBookmarks_ids cards [] [] w Hm Hcs (List.Forall_nil _) eq_refl).
  - intros ids. split; [apply NoDup_keep_first|].
    split; [unfold first_seen; rewrite <- Permutation_rev; apply NoDup_keep_first|].
    intros i. split.
    + unfold newest_first. rewrite In_keep_first. symmetry. apply in_rev.
    + unfold first_seen. rewrite <- in_rev. apply In_keep_first.
  - apply newest_first_snoc.
  - reflexivity.
Qed.

Lemma maxRecent_set st : (1 <= maxRecentlyViewed st)%Z -> maxRecent st = maxRecentlyViewed st.
Proof.
  intros H. unfold maxRecent. destruct (maxRecentlyViewed st =? 0)%Z eqn:E; [|reflexivity].
  apply Z.eqb_eq in E. lia.
Qed.

(** C2 (as amended). With the flag enabled and a configured maximum
    [M >= 1]: every [addToRecentlyViewed] on a readable collection returns,
    and stores in the mirror, a collection of at most [M] elements; and
    after any sequence of insertions of cards with string ids, starting from
    the empty collection, the collection has at most [M] elements and holds
    exactly the [M] most recently inserted distinct ids (all of them when
    there are fewer), newest first. A maximum of 0 is read as unset: the
    bound is then 10. *)
Theorem recently_viewed_bounded (st : settings) :
  recentlyViewedEnabled st = true ->
  (forall l card w,
      (1 <= maxRecentlyViewed st)%Z ->
      Forall (fun c => nullish c = false) l ->
      nullish card = false ->
      exists l',
        fst (addToRecentlyViewed st (JArr l) card w) = Ret (JArr l') /\
        recentlyViewed (memoryCache (snd (addToRecentlyViewed st (JArr l) card w))) = JArr l' /\
        (Z.of_nat (List.length l') <= maxRecentlyViewed st)%Z) /\
  (forall cards w,
      (1 <= maxRecentlyViewed st)%Z ->
      Forall (fun c => has_string_id c = true) cards ->
      exists l,
        fst (addAllRecentlyViewed st cards (JArr []) w) = Ret (JArr l) /\
        (Z.of_nat (List.length l) <= maxRecentlyViewed st)%Z /\
        id_str <$> l =
          firstn (Z.to_nat (maxRecentlyViewed st)) (newest_first (id_str <$> cards))) /\
  (maxRecentlyViewed st = 0%Z -> maxRecent st = 10%Z).
Proof.
  intros Hen. repeat apply conj.
  - intros l card w HM Hl Hc. exists (viewed st card l).
    rewrite (addToRecentlyViewed_eq st l card w Hen Hl Hc). cbn [fst snd].
    split; [reflexivity|]. split; [reflexivity|].
    rewrite <- (maxRecent_set st HM). apply viewed_length. lia.
  - intros cards w HM Hcs.
    destruct (addAllRecentlyViewed_ids st Hen ltac:(lia) cards [] [] w Hcs (List.Forall_nil _)
                (eq_sym (firstn_nil _ _))) as (l & Hr & Hids).
    rewrite (maxRecent_set st HM) in Hids. cbn [app] in Hids.
    exists l. split; [exact Hr|]. split; [|exact Hids].
    rewrite <- (length_fmap id_str l), Hids, length_take. lia.
  - intros H0. unfold maxRecent. rewrite H0. reflexivity.
Qed.

(** * The claims on concrete inputs *)

(** C1, as stated, fails for bookmarks: adding a, b, a leaves b in front of
    a, since the second a is found already bookmarked. *)
Lemma bookmark_readd_keeps_position :
  exists l,
    fst (addAllBookmarks
           [("2024-01-01T00:00:00.000Z", sample_card "a");
            ("2024-01-01T00:00:01.000Z", sample_card "b");
            ("2024-01-01T00:00:02.000Z", sample_card "a")]
           (fresh_world ∅ [])) = Ret (JArr l) /\
    id_str <$> l = ["b"; "a"] /\
    id_str <$> l <> ["a"; "b"].
Proof.
  eexists. split; [vm_compute; reflexivity|].
  split; [reflexivity | discriminate].
Qed.

Lemma upsert_front_dedup_witness :
  (exists l,
      fst (addAllRecentlyViewed (Settings true true 2)
             [sample_card "c1"; sample_card "c2"; sample_card "c1"; sample_card "c3"]
             (JArr []) (fresh_world ∅ [])) = Ret (JArr l) /\
      id_str <$> l = ["c3"; "c1"]) /\
  (exists l,
      fst (trackAllImportedCards
             [("t1", sample_card "a"); ("t2", sample_card "b"); ("t3", sample_card "a")]
             (fresh_world ∅ [])) = Ret (JArr l) /\
      id_str <$> l = ["a"; "b"]) /\
  (exists l,
      fst (addAllBookmarks
             [("t1", sample_card "a"); ("t2", sample_card "b"); ("t3", sample_card "a")]
             (fresh_world ∅ [])) = Ret (JArr l) /\
      id_str <$> l = ["b"; "a"]).
Proof.
  destruct upsert_front_dedup as (Hrv & Himp & Hbm & _).
  split; [|split].
  - destruct (Hrv (Settings true true 2)
                [sample_card "c1"; sample_card "c2"; sample_card "c1"; sample_card "c3"]
                (fresh_world ∅ []) eq_refl ltac:(cbn; lia) ltac:(repeat constructor))
      as (l & Hr & Hids).
    exists l. split; [exact Hr | rewrite Hids; reflexivity].
  - destruct (Himp [("t1", sample_card "a"); ("t2", sample_card "b"); ("t3", sample_card "a")]
                (fresh_world ∅ []) eq_refl ltac:(repeat constructor)) as (l & Hr & Hids).
    exists l. split; [exact Hr | rewrite Hids; reflexivity].
  - destruct (Hbm [("t1", sample_card "a"); ("t2", sample_card "b"); ("t3", sample_card "a")]
                (fresh_world ∅ []) eq_refl ltac:(repeat constructor)) as (l & Hr & Hids).
    exists l. split; [exact Hr | rewrite Hids; reflexivity].
Defined.

(** C2, as stated, fails for the maximum 0: the setting is read as unset and
    one insertion already leaves one element. *)
Lemma zero_maximum_is_not_a_bound :
  let st := Settings true true 0 in
  exists l,
    fst (addToRecentlyViewed st (JArr []) (sample_card "c1") (fresh_world ∅ []))
      = Ret (JArr l) /\
    (0 <= maxRecentlyViewed st)%Z /\
    ~ (Z.of_nat (List.length l) <= maxRecentlyViewed st)%Z.
Proof.
  intros st. eexists. split; [vm_compute; reflexivity|].
  split; [cbn; lia | cbn; lia].
Qed.

Lemma recently_viewed_bounded_witness :
  (exists l',
      fst (addToRecentlyViewed (Settings true true 2)
             (JArr [sample_card "a"; sample_card "b"]) (sample_card "c") sample_world)
        = Ret (JArr l') /\
      (Z.of_nat (List.length l') <= 2)%Z) /\
  (exists l,
      fst (addAllRecentlyViewed (Settings true true 2)
             [sample_card "c1"; sample_card "c2"; sample_card "c3"]
             (JArr []) (fresh_world ∅ [])) = Ret (JArr l) /\
      id_str <$> l = ["c3"; "c2"]) /\
  maxRecent (Settings true true 0) = 10%Z.
Proof.
  destruct (recently_viewed_bounded (Settings true true 2) eq_refl) as (Hone & Hall & _).
  split; [|split].
  - destruct (Hone [sample_card "a"; sample_card "b"] (sample_card "c") sample_world
                ltac:(cbn; lia) ltac:(repeat constructor) eq_refl) as (l' & Hr & _ & Hlen).
    exists l'. split; [exact Hr | exact Hlen].
  - destruct (Hall [sample_card "c1"; sample_card "c2"; sample_card "c3"] (fresh_world ∅ [])
                ltac:(cbn; lia) ltac:(repeat constructor)) as (l & Hr & _ & Hids).
    exists l. split; [exact Hr | rewrite Hids; reflexivity].
  - destruct (recently_viewed_bounded (Settings true true 0) eq_refl) as (_ & _ & H0).
    apply H0. reflexivity.
Defined.

Lemma ttl_cache_correct_witness :
  let w := fresh_world ∅ [] in
  let w1 := snd (idbSetCachedApi literal_stringify 1700000000000 "chub:elf:1"
                   (JStr "results") w) in
  fst (idbGetCachedApi 1700000000999 "chub:elf:1" (Some 1000%Z) w1) = Ret (JStr "results") /\
  fst (idbGetCachedApi 1700000000000 "chub:elf:1" (Some 1000%Z) w1) = Ret (JStr "results") /\
  idbGetCachedApi 1700000001000 "chub:elf:1" (Some 1000%Z) w1 = (Ret JNull, w1) /\
  forage (snd (idbGetCachedApi 1700000001000 "chub:elf:1" (Some 1000%Z) w1)) !! "chub:elf:1"
    = Some (cacheEntry 1700000000000 (JStr "results")).
Proof.
  intros w w1.
  destruct (ttl_cache_correct literal_stringify "chub:elf:1" (JStr "results") 1000
              ltac:(lia)) as (Hfresh & Hnow & Hold).
  split; [apply Hfresh; [reflexivity | reflexivity | lia | lia]|].
  split; [apply Hnow; [reflexivity | reflexivity | lia]|].
  apply (Hold 1700000001000%Z 1700000000000%Z w1); [reflexivity | lia].
Defined.

Lemma migration_overwrites_false_witness :
  let w := fresh_world {[ "botBrowser_searchCollapsed" := JBool false ]}
             [("botBrowser_searchCollapsed", "true")] in
  let w' := snd (initializeStorage literal_parse literal_stringify w) in
  forage w' !! "botBrowser_searchCollapsed" = Some (JBool true) /\
  loadSearchCollapsed w' = JBool true.
Proof.
  intros w w'.
  exact (proj2 (migration_overwrites_false literal_parse literal_stringify eq_refl)).
Defined.

(** C5, as stated, fails for [addToRecentlyViewed] with its flag disabled:
    the call returns the collection it was given, the accessor returns the
    empty array. *)
Lemma disabled_add_is_not_read_back :
  let st := Settings false true 10 in
  let rv := JArr [sample_card "a"; sample_card "b"] in
  fst (addToRecentlyViewed st rv (sample_card "c") sample_world) = Ret rv /\
  fst (loadRecentlyViewed st (snd (addToRecentlyViewed st rv (sample_card "c") sample_world)))
    = Ret (JArr []) /\
  rv <> JArr [].
Proof.
  intros st rv. split; [reflexivity|]. split; [reflexivity | discriminate].
Qed.

Lemma read_after_write_witness :
  let st := Settings true true 2 in
  let op := addToRecentlyViewed st (JArr [sample_card "a"; sample_card "b"]) (sample_card "c") in
  exists r,
    fst (op sample_world) = Ret r /\
    fst (loadRecentlyViewed st
           (later literal_stringify all_fail all_fail all_fail 1 (snd (op sample_world))))
      = Ret r /\
    id_str <$> (match r with JArr l => l | _ => [] end) = ["c"; "a"].
Proof.
  intros st op.
  destruct (read_after_write literal_stringify all_fail all_fail all_fail 1)
    as (_ & _ & _ & _ & _ & _ & _ & Hrv).
  destruct (Hrv st [sample_card "a"; sample_card "b"] (sample_card "c") sample_world
              eq_refl ltac:(cbn; lia) ltac:(repeat constructor) eq_refl) as (r & Hr & Hl).
  exists r. split; [exact Hr|]. split; [exact Hl|].
  assert (Hv : Ret r = Ret (JArr (viewed st (sample_card "c")
                                    [sample_card "a"; sample_card "b"])))
    by (rewrite <- Hr; reflexivity).
  injection Hv as ->. reflexivity.
Defined.

Lemma failure_containment_witness :
  let st := Settings true true 2 in
  let op := addToRecentlyViewed st (JArr [sample_card "a"; sample_card "b"]) (sample_card "c") in
  let failing := with_faults all_fail all_fail all_fail sample_world in
  fst (op failing) = fst (op sample_world) /\
  fst (loadRecentlyViewed st (settle_n literal_stringify 1 (snd (op failing))))
    = fst (op sample_world) /\
  addBookmark "2024-01-01T00:00:00.000Z" JNull sample_world
    = (Ret (loadBookmarks sample_world), sample_world).
Proof.
  intros st op failing.
  destruct (failure_containment literal_stringify)
    as (Hadd & _ & _ & _ & _ & _ & _ & _ & _ & _ & Hrv).
  destruct (Hrv st [sample_card "a"; sample_card "b"] (sample_card "c")
              eq_refl ltac:(cbn; lia) ltac:(repeat constructor) eq_refl
              all_fail all_fail all_fail 1%nat sample_world) as [Hret Hload].
  split; [exact Hret|]. split; [exact Hload|].
  destruct (Hadd "2024-01-01T00:00:00.000Z" JNull sample_world) as [_ Hexn].
  apply (Hexn TypeError sample_world). reflexivity.
Defined.

Lemma adapter_never_raises_witness :
  let w := with_faults all_fail all_fail no_faults (fresh_world ∅ []) in
  fst (idbSet literal_stringify "botBrowser_searchCollapsed" (JBool true) w) = Ret tt /\
  localStorage (snd (idbSet literal_stringify "botBrowser_searchCollapsed" (JBool true) w))
    = [("botBrowser_searchCollapsed", "true")] /\
  idbGet "botBrowser_searchCollapsed" w = (Ret JNull, w).
Proof.
  intros w.
  destruct (adapter_never_raises literal_stringify "botBrowser_searchCollapsed"
              (JBool true) w) as (Hret & Hfall & _ & Hget).
  split; [exact Hret|]. split.
  - rewrite (Hfall eq_refl). reflexivity.
  - apply Hget. reflexivity.
Defined.

(** C8, as stated, fails for the persistent search operations: with the
    flag of recently-viewed disabled and their own flag enabled, save
    changes the mirror and load returns the saved state. *)
Lemma persistent_search_has_its_own_flag :
  let st := Settings false true 10 in
  let w := fresh_world ∅ [] in
  let w' := snd (savePersistentSearch literal_stringify st "chub"
                   (JStr "tags:elf") (JStr "newest")
                   JUndefined JUndefined JUndefined JUndefined w) in
  recentlyViewedEnabled st = false /\
  persistentSearches (memoryCache w') !! "chub" <> persistentSearches (memoryCache w) !! "chub" /\
  loadPersistentSearch st "chub" w' <> JNull.
Proof.
  intros st w w'. split; [reflexivity|]. split; vm_compute; discriminate.
Qed.

Lemma feature_flag_gating_witness :
  let off := Settings false false 10 in
  let w' := snd (savePersistentSearch literal_stringify (Settings false true 10) "chub"
                   (JStr "tags:elf") (JStr "newest")
                   JUndefined JUndefined JUndefined JUndefined sample_world) in
  addToRecentlyViewed off (JArr [sample_card "a"]) (sample_card "c") sample_world
    = (Ret (JArr [sample_card "a"]), sample_world) /\
  loadPersistentSearch off "chub" sample_world = JNull /\
  loadPersistentSearch (Settings false true 10) "chub" w'
    = searchData (JStr "tags:elf") (JStr "newest") JUndefined JUndefined JUndefined JUndefined /\
  (exists rec rest,
      fst (trackImportedCard "2024-01-01T00:00:00.000Z" (sample_card "b") JUndefined
             sample_world) = Ret (JArr (rec :: rest)) /\
      prop rec "id" = JStr "b").
Proof.
  intros off w'.
  destruct (feature_flag_gating literal_stringify) as (Hrv & Hoff & Hon & Htrack).
  split; [apply Hrv; reflexivity|].
  split; [apply (Hoff off "chub" JNull JNull JNull JNull JNull JNull sample_world eq_refl)|].
  split; [apply Hon; reflexivity|].
  destruct (Htrack "2024-01-01T00:00:00.000Z" (sample_card "b") JUndefined sample_world
              [sample_card "a"; sample_card "b"] eq_refl ltac:(repeat constructor) eq_refl)
    as (rec & rest & Hr & Hid & _).
  exists rec, rest. split; [exact Hr | exact Hid].
Defined.

Lemma remove_filters_and_persists_witness :
  removeBookmark (JStr "z") sample_world
    = (Ret (JArr [sample_card "a"; sample_card "b"]), sample_world) /\
  removeBookmark (JStr "a") sample_world
    = (Ret (JArr [sample_card "b"]),
       set_inflight [("botBrowser_bookmarks", JArr [sample_card "b"])]
         (set_memoryCache
            (set_bookmarks (JArr [sample_card "b"]) (memoryCache sample_world))
            sample_world)) /\
  fst (removeImportedCard (JStr "b") sample_world) = Ret (JArr [sample_card "a"]).
Proof.
  destruct (remove_filters_and_persists (JStr "z") sample_world
              [sample_card "a"; sample_card "b"] ltac:(repeat constructor)) as [Hz _].
  destruct (remove_filters_and_persists (JStr "a") sample_world
              [sample_card "a"; sample_card "b"] ltac:(repeat constructor)) as [Ha _].
  destruct (remove_filters_and_persists (JStr "b") sample_world
              [sample_card "a"; sample_card "b"] ltac:(repeat constructor)) as [_ Hb].
  split; [|split].
  - apply (proj1 (Hz eq_refl)). repeat constructor.
  - apply (proj2 (Ha eq_refl)). apply Exists_cons_hd. reflexivity.
  - rewrite (proj2 (Hb eq_refl)); [reflexivity|].
    apply Exists_cons_tl, Exists_cons_hd. reflexivity.
Defined.

(** C10, as stated, fails for the setting 0: a mirror list of one element
    is longer than the configured maximum, yet the call returns it whole and
    leaves the mirror as it is. *)
Lemma zero_maximum_is_not_truncated :
  let st := Settings true true 0 in
  recentlyViewedEnabled st = true /\
  (maxRecentlyViewed st < Z.of_nat (List.length [sample_card "a"; sample_card "b"]))%Z /\
  loadRecentlyViewed st sample_world
    = (Ret (JArr [sample_card "a"; sample_card "b"]), sample_world) /\
  recentlyViewed (memoryCache (snd (loadRecentlyViewed st sample_world)))
    <> JArr (firstn (Z.to_nat (maxRecentlyViewed st)) [sample_card "a"; sample_card "b"]).
Proof.
  intros st. split; [reflexivity|]. split; [cbn; lia|]. split; [reflexivity|].
  vm_compute. discriminate.
Qed.

Lemma loadRecentlyViewed_trims_mirror_witness :
  let st := Settings true true 1 in
  loadRecentlyViewed st sample_world
    = (Ret (JArr [sample_card "a"]),
       set_memoryCache (set_recentlyViewed (JArr [sample_card "a"]) (memoryCache sample_world))
         sample_world) /\
  inflight (snd (loadRecentlyViewed st sample_world)) = [] /\
  loadRecentlyViewed (Settings true true 0) sample_world
    = (Ret (JArr [sample_card "a"; sample_card "b"]), sample_world).
Proof.
  intros st.
  destruct (loadRecentlyViewed_trims_mirror st sample_world [sample_card "a"; sample_card "b"]
              eq_refl ltac:(cbn; lia) eq_refl) as (_ & Hlong & _ & Hq & _).
  destruct (loadRecentlyViewed_trims_mirror (Settings true true 0) sample_world
              [sample_card "a"; sample_card "b"] eq_refl ltac:(cbn; lia) eq_refl)
    as (_ & _ & Hshort & _).
  split; [apply Hlong; cbn; lia|]. split; [exact Hq|]. apply Hshort. cbn. lia.
Defined.

(** * Further properties *)

Section StoreFacts.

Context (JSON_parse : string -> option jsval).
Context (JSON_stringify : jsval -> option string).

Lemma idbSet_eq key val w :
  forage_set_fails w key = false ->
  idbSet JSON_stringify key val w =
    (Ret tt, set_forage (<[key := stored val]> (forage w)) w).
Proof.
  intros H. apply injective_projections; cbn [fst snd].
  - apply idbSet_returns.
  - rewrite idbSet_world, H. reflexivity.
Qed.

(** X1. What [idbSet] wrote is what [idbGet] reads. When the durable store
    accepts the write, a following [idbGet] of the key returns the value as
    localForage keeps it ([undefined] is kept as [null]) and every other key
    reads as before. When the durable store rejects the write, every
    [idbGet] reads as before: the fallback copy in localStorage is never
    consulted by [idbGet]. *)
Theorem durable_round_trip (key : string) (val : jsval) (w : world) :
  (forage_set_fails w key = false -> forage_get_fails w key = false ->
     fst (idbGet key (snd (idbSet JSON_stringify key val w))) = Ret (stored val)) /\
  (forage_set_fails w key = false ->
     forall k, k <> key ->
       fst (idbGet k (snd (idbSet JSON_stringify key val w))) = fst (idbGet k w)) /\
  (forage_set_fails w key = true ->
     forall k, fst (idbGet k (snd (idbSet JSON_stringify key val w))) = fst (idbGet k w)).
Proof.
  split; [|split].
  - intros Hs Hg. rewrite (idbSet_eq key val w Hs). cbn [snd].
    rewrite idbGet_eq. cbn [forage_get_fails set_forage forage fst].
    rewrite Hg, lookup_insert_eq. reflexivity.
  - intros Hs k Hk. rewrite (idbSet_eq key val w Hs). cbn [snd].
    rewrite !idbGet_eq. cbn [forage_get_fails set_forage forage fst].
    rewrite lookup_insert_ne by congruence. reflexivity.
  - intros Hs k. rewrite idbSet_world, Hs. unfold fallback_write.
    rewrite !idbGet_eq.
    destruct (JSON_stringify val); [|reflexivity].
    destruct (storage_set_fails w key); reflexivity.
Qed.

Lemma settle_n_apply q :
  forall w,
    inflight w = q ->
    (forall k, forage_set_fails w k = false) ->
    forage (settle_n JSON_stringify (List.length q) w) = apply_writes q (forage w) /\
    inflight (settle_n JSON_stringify (List.length q) w) = [] /\
    localStorage (settle_n JSON_stringify (List.length q) w) = localStorage w.
Proof.
  induction q as [|[k v] q IH]; intros w Hq Hs; cbn [List.length settle_n].
  - repeat split; try reflexivity. exact Hq.
  - unfold settle at 1 2 3. rewrite Hq.
    rewrite (idbSet_eq k v (set_inflight q w)) by apply Hs. cbn [snd].
    destruct (IH (set_forage (<[k:=stored v]> (forage (set_inflight q w))) (set_inflight q w)))
      as (Hf & Hi & Hl); [reflexivity | exact Hs |].
    rewrite Hf, Hi, Hl. repeat split; reflexivity.
Qed.

Lemma apply_writes_last q k v m :
  apply_writes (q ++ [(k, v)])%list m !! k = Some (stored v).
Proof.
  unfold apply_writes. rewrite fold_left_app. cbn [fold_left fst snd].
  apply lookup_insert_eq.
Qed.

(** X2. Completion of the background writes. When the writes in flight
    complete in the order of their calls and the durable store accepts
    every one of them, the durable store ends up as if [setItem] had been
    applied to it once per call in that order, no write remains in flight,
    and neither localStorage nor the mirror is changed by the completions;
    the value of the last call for a key is the value the store keeps for
    it. *)
Theorem settled_writes_in_call_order (w : world) :
  (forall k, forage_set_fails w k = false) ->
  forage (settle_all JSON_stringify w) = apply_writes (inflight w) (forage w) /\
  inflight (settle_all JSON_stringify w) = [] /\
  localStorage (settle_all JSON_stringify w) = localStorage w /\
  memoryCache (settle_all JSON_stringify w) = memoryCache w /\
  (forall q k v,
      inflight w = (q ++ [(k, v)])%list ->
      forage (settle_all JSON_stringify w) !! k = Some (stored v)).
Proof.
  intros Hs. unfold settle_all.
  destruct (settle_n_apply (inflight w) w eq_refl Hs) as (Hf & Hi & Hl).
  split; [exact Hf|]. split; [exact Hi|]. split; [exact Hl|].
  split; [apply settle_n_memoryCache|].
  intros q k v Hq. rewrite Hf, Hq. apply apply_writes_last.
Qed.

End StoreFacts.

Lemma read_assign_same k v mc : In k keys -> read_slot k (assign_slot k v mc) = v.
Proof.
  intros H. repeat (destruct H as [<-|H]; [reflexivity|]). destruct H.
Qed.

Lemma read_assign_other k k' v mc :
  k <> k' -> read_slot k (assign_slot k' v mc) = read_slot k mc.
Proof.
  intros Hne. unfold assign_slot, read_slot.
  repeat match goal with
         | |- context [String.eqb k' ?c] =>
             destruct (String.eqb_spec k' c); [subst k'|]
         end;
  repeat match goal with
         | |- context [String.eqb k ?c] =>
             destruct (String.eqb_spec k c); [subst k|]
         end;
  try congruence; try reflexivity.
Qed.

Section InitViews.

Context (JSON_parse : string -> option jsval).
Context (JSON_stringify : jsval -> option string).

Lemma migrate_key_view k w :
  forage_set_fails w k = false -> forage_get_fails w k = false -> In k keys ->
  key_view k (snd (migrate_key JSON_parse JSON_stringify k w)) =
  migration_step JSON_parse (key_view k w).
Proof.
  intros Hs Hg Hk. unfold migrate_key, load_slot, key_view, migration_step, storage_getItem.
  unfold_m. rewrite idbGet_eq, Hg.
  destruct (str_truthy (ls_lookup k (localStorage w)) &&
            negb (truthy (default JNull (forage w !! k)))) eqn:Hcond.
  - destruct (parse_item JSON_parse (ls_lookup k (localStorage w))) as [p|e] eqn:Hp.
    + rewrite (idbSet_eq JSON_stringify k p w Hs).
      apply andb_prop in Hcond as [Hls _].
      destruct (nullish p) eqn:Hn; cbn [negb]; [rewrite Hls|];
        cbn [snd localStorage set_forage set_memoryCache forage memoryCache];
        rewrite lookup_insert_eq, (read_assign_same k p _ Hk); reflexivity.
    + apply andb_prop in Hcond as [Hls _].
      destruct (nullish (default JNull (forage w !! k))) eqn:Hn; cbn [negb].
      * rewrite Hls. reflexivity.
      * cbn [snd localStorage set_memoryCache forage memoryCache].
        rewrite (read_assign_same k _ _ Hk). reflexivity.
  - destruct (nullish (default JNull (forage w !! k))) eqn:Hn; cbn [negb].
    + assert (Hls : str_truthy (ls_lookup k (localStorage w)) = false).
      { destruct (str_truthy _); [|reflexivity]. cbn in Hcond.
        destruct (default JNull (forage w !! k)); cbn in *; congruence. }
      rewrite Hls. reflexivity.
    + cbn [snd localStorage set_memoryCache forage memoryCache].
      rewrite (read_assign_same k _ _ Hk). reflexivity.
Qed.

(** One round of the loop leaves the environment, the queue and the flag
    alone, and with a working store also localStorage and the persistent
    searches. *)
Lemma migrate_key_env k' w :
  forage_set_fails w k' = false ->
  let w' := snd (migrate_key JSON_parse JSON_stringify k' w) in
  forage_set_fails w' = forage_set_fails w /\
  forage_get_fails w' = forage_get_fails w /\
  storage_set_fails w' = storage_set_fails w /\
  isStorageInitialized w' = isStorageInitialized w /\
  inflight w' = inflight w /\
  localStorage w' = localStorage w /\
  persistentSearches (memoryCache w') = persistentSearches (memoryCache w) /\
  (forall k, k <> k' -> forage w' !! k = forage w !! k) /\
  (forall k, k <> k' -> read_slot k (memoryCache w') = read_slot k (memoryCache w)).
Proof.
  intros Hs. unfold migrate_key, load_slot, storage_getItem. unfold_m. rewrite idbGet_eq.
  assert (Hps : forall v mc, persistentSearches (assign_slot k' v mc) = persistentSearches mc).
  { intros v mc. unfold assign_slot.
    repeat match goal with |- context [if ?b then _ else _] => destruct b end; reflexivity. }
  repeat first
    [ rewrite (idbSet_eq JSON_stringify k' _ w Hs)
    | match goal with
      | |- context [match ?x with _ => _ end] =>
          lazymatch x with
          | context [match _ with _ => _ end] => fail
          | _ => destruct x eqn:?
          end
      end ];
  cbn [snd forage_set_fails forage_get_fails storage_set_fails isStorageInitialized inflight
       localStorage memoryCache set_forage set_memoryCache forage];
  repeat split; try reflexivity; try apply Hps;
  try (intros k Hk; try rewrite lookup_insert_ne by congruence;
       try apply read_assign_other; try reflexivity; exact Hk).
Qed.

Lemma migrate_key_frame k k' w :
  k <> k' -> forage_set_fails w k' = false ->
  key_view k (snd (migrate_key JSON_parse JSON_stringify k' w)) = key_view k w.
Proof.
  intros Hne Hs.
  destruct (migrate_key_env k' w Hs) as (_ & _ & _ & _ & _ & Hl & _ & Hf & Hr).
  unfold key_view. rewrite Hl, (Hf k Hne), (Hr k Hne). reflexivity.
Qed.

Lemma healthy_migrate_key k' w :
  healthy w -> healthy (snd (migrate_key JSON_parse JSON_stringify k' w)).
Proof.
  intros H. destruct (migrate_key_env k' w (proj1 (H k'))) as (Hs & Hg & _).
  intros k. rewrite Hs, Hg. apply H.
Qed.

Lemma for_each_migrate_step l :
  forall w0, for_each (migrate_key JSON_parse JSON_stringify) l w0 =
    (Ret tt, snd (for_each (migrate_key JSON_parse JSON_stringify) l w0)).
Proof.
  intros w0. apply injective_projections; [|reflexivity]. cbn [fst].
  apply for_each_returns. apply migrate_key_returns.
Qed.

Lemma for_each_cons_snd k' l w :
  snd (for_each (migrate_key JSON_parse JSON_stringify) (k' :: l) w) =
  snd (for_each (migrate_key JSON_parse JSON_stringify) l
         (snd (migrate_key JSON_parse JSON_stringify k' w))).
Proof.
  cbn [for_each]. unfold sbind.
  pose proof (migrate_key_returns JSON_parse JSON_stringify k' w) as H.
  destruct (migrate_key JSON_parse JSON_stringify k' w) as [[[]|e] w1]; cbn [fst] in H;
    [reflexivity | discriminate H].
Qed.

Lemma for_each_migrate_frame k l :
  forall w, ~ In k l -> healthy w ->
  key_view k (snd (for_each (migrate_key JSON_parse JSON_stringify) l w)) = key_view k w.
Proof.
  induction l as [|k' l IH]; intros w Hni Hw; [reflexivity|].
  rewrite for_each_cons_snd, IH.
  - apply migrate_key_frame; [|apply Hw]. intros ->. apply Hni. left. reflexivity.
  - intros H. apply Hni. right. exact H.
  - apply healthy_migrate_key, Hw.
Qed.

Lemma for_each_migrate_view k l :
  forall w, List.NoDup l -> In k l -> In k keys -> healthy w ->
  key_view k (snd (for_each (migrate_key JSON_parse JSON_stringify) l w)) =
  migration_step JSON_parse (key_view k w).
Proof.
  induction l as [|k' l IH]; intros w Hnd Hin Hk Hw; [destruct Hin|].
  inversion Hnd as [|? ? Hni Hnd']; subst. rewrite for_each_cons_snd.
  destruct (String.eqb_spec k k') as [->|Hne].
  - rewrite for_each_migrate_frame; [|exact Hni | apply healthy_migrate_key, Hw].
    apply migrate_key_view; [apply Hw | apply Hw | exact Hk].
  - destruct Hin as [Heq|Hin]; [congruence|].
    rewrite IH; [|exact Hnd' | exact Hin | exact Hk | apply healthy_migrate_key, Hw].
    f_equal. apply migrate_key_frame; [exact Hne | apply Hw].
Qed.

Lemma only_searches_differ_refl w : only_searches_differ w w.
Proof. repeat split. Qed.

Lemma only_searches_differ_trans w1 w2 w3 :
  only_searches_differ w1 w2 -> only_searches_differ w2 w3 -> only_searches_differ w1 w3.
Proof.
  intros (A1 & A2 & A3 & A4 & A5 & A6 & A7 & A8) (B1 & B2 & B3 & B4 & B5 & B6 & B7 & B8).
  repeat split; try congruence; intros key; rewrite B8; apply A8.
Qed.

Lemma load_search_frame key w :
  only_searches_differ w (snd (load_search JSON_parse key w)).
Proof.
  unfold load_search, storage_getItem. unfold_m.
  destruct (negb (String.eqb key "") && String.prefix lastSearch_prefix key);
    [|apply only_searches_differ_refl].
  destruct (parse_item JSON_parse _); [|apply only_searches_differ_refl].
  repeat split.
Qed.

Lemma for_each_load_search_frame l :
  forall w, only_searches_differ w (snd (for_each (load_search JSON_parse) l w)).
Proof.
  induction l as [|key l IH]; intros w; [apply only_searches_differ_refl|].
  cbn [for_each]. unfold sbind.
  pose proof (load_search_frame key w) as H1.
  destruct (load_search JSON_parse key w) as [[[]|e] w1]; cbn [snd] in *; [|exact H1].
  eapply only_searches_differ_trans; [exact H1 | apply IH].
Qed.

Lemma keys_NoDup : List.NoDup keys.
Proof.
  unfold keys. repeat constructor; cbn [In]; intros H;
    repeat (destruct H as [H|H]; [discriminate H|]); exact H.
Qed.

(** What initialization does to one well-known key when the localForage
    operations succeed. *)
Lemma initializeStorage_view k w :
  isStorageInitialized w = false -> healthy w -> In k keys ->
  let w' := snd (initializeStorage JSON_parse JSON_stringify w) in
  key_view k w' = migration_step JSON_parse (key_view k w) /\
  isStorageInitialized w' = true /\
  localStorage w' = localStorage w.
Proof.
  intros Hinit Hw Hk w'.
  assert (Hflag : isStorageInitialized w' = true) by apply initializeStorage_sets_flag.
  subst w'. unfold initializeStorage in *. rewrite Hinit in *. unfold_m.
  rewrite (for_each_migrate_step keys w) in *.
  set (w1 := snd (for_each (migrate_key JSON_parse JSON_stringify) keys w)) in *.
  pose proof (for_each_load_search_frame (map fst (localStorage w1)) w1) as Hfr.
  assert (Hv1 : key_view k w1 = migration_step JSON_parse (key_view k w)).
  { apply for_each_migrate_view; [apply keys_NoDup | exact Hk | exact Hk | exact Hw]. }
  assert (Hl1 : localStorage w1 = localStorage w).
  { subst w1. clear Hfr Hv1 Hflag Hinit. generalize keys. intros l. revert w Hw.
    induction l as [|k' l IH]; intros w Hw; [reflexivity|].
    rewrite for_each_cons_snd.
    destruct (migrate_key_env k' w (proj1 (Hw k'))) as (_ & _ & _ & _ & _ & Hl & _).
    rewrite IH; [exact Hl | apply healthy_migrate_key, Hw]. }
  destruct (for_each (load_search JSON_parse) (map fst (localStorage w1)) w1)
    as [[[]|e] w2]; cbn [snd fst] in *;
    destruct Hfr as (F1 & F2 & _ & _ & _ & _ & _ & F8);
    (split; [|split; [exact Hflag|]]);
    cbn [localStorage set_initialized]; try (rewrite F2; exact Hl1);
    unfold key_view in *; cbn [localStorage forage memoryCache set_initialized];
    rewrite F1, F2, F8; exact Hv1.
Qed.

End InitViews.

Section InitTheorems.

Context (JSON_parse : string -> option jsval).
Context (JSON_stringify : jsval -> option string).

(** X3. A durable value wins over the legacy copy. On a first
    [initializeStorage] over working stores, a managed key whose durable
    value is truthy is loaded into its mirror slot as it is, whatever
    localStorage holds for the key; the durable value and localStorage are
    left as they were. *)
Theorem durable_value_wins (k : string) (v : jsval) (w : world) :
  isStorageInitialized w = false -> healthy w -> In k keys ->
  forage w !! k = Some v -> truthy v = true ->
  let w' := snd (initializeStorage JSON_parse JSON_stringify w) in
  read_slot k (memoryCache w') = v /\
  forage w' !! k = Some v /\
  localStorage w' = localStorage w.
Proof.
  intros Hinit Hw Hk Hdb Hv w'.
  destruct (initializeStorage_view JSON_parse JSON_stringify k w Hinit Hw Hk) as (Hview & _ & Hl).
  fold w' in Hview, Hl. unfold key_view, migration_step in Hview. rewrite Hdb in Hview.
  cbv [default from_option id] in Hview. rewrite Hv, andb_false_r in Hview.
  assert (Hn : nullish v = false) by (destruct v; try reflexivity; discriminate Hv).
  rewrite Hn in Hview. injection Hview as _ Hf Hr. auto.
Qed.

(** X4. Migration of a legacy value. On a first [initializeStorage] over
    working stores, a managed key with no durable value and a non-empty
    legacy text that [JSON.parse] accepts gets the parsed value in its
    mirror slot and in the durable store; the legacy text stays in
    localStorage. *)
Theorem legacy_value_migrates (k s : string) (p : jsval) (w : world) :
  isStorageInitialized w = false -> healthy w -> In k keys ->
  forage w !! k = None ->
  ls_lookup k (localStorage w) = Some s -> s <> "" -> JSON_parse s = Some p ->
  let w' := snd (initializeStorage JSON_parse JSON_stringify w) in
  read_slot k (memoryCache w') = p /\
  forage w' !! k = Some (stored p) /\
  localStorage w' = localStorage w.
Proof.
  intros Hinit Hw Hk Hdb Hls Hs Hp w'.
  destruct (initializeStorage_view JSON_parse JSON_stringify k w Hinit Hw Hk) as (Hview & _ & Hl).
  fold w' in Hview, Hl. unfold key_view, migration_step in Hview. rewrite Hdb, Hls in Hview.
  cbn [default str_truthy truthy negb parse_item] in Hview. unfold parse in Hview.
  rewrite Hp in Hview.
  replace (String.eqb s "") with false in Hview
    by (symmetry; apply String.eqb_neq; exact Hs).
  cbn in Hview. injection Hview as _ Hf Hr. auto.
Qed.

(** X5. Nothing usable in either store. On a first [initializeStorage]
    over working stores, a managed key with no durable value whose legacy
    text is missing, empty or rejected by [JSON.parse] keeps the value its
    mirror slot had, nothing is written to the durable store for it, and
    initialization still completes. *)
Theorem unusable_legacy_keeps_default (k : string) (w : world) :
  isStorageInitialized w = false -> healthy w -> In k keys ->
  forage w !! k = None ->
  (ls_lookup k (localStorage w) = None \/
   ls_lookup k (localStorage w) = Some "" \/
   exists s, ls_lookup k (localStorage w) = Some s /\ JSON_parse s = None) ->
  let w' := snd (initializeStorage JSON_parse JSON_stringify w) in
  read_slot k (memoryCache w') = read_slot k (memoryCache w) /\
  forage w' !! k = None /\
  isStorageInitialized w' = true.
Proof.
  intros Hinit Hw Hk Hdb Hls w'.
  destruct (initializeStorage_view JSON_parse JSON_stringify k w Hinit Hw Hk)
    as (Hview & Hflag & _).
  fold w' in Hview, Hflag. unfold key_view, migration_step in Hview. rewrite Hdb in Hview.
  cbn [default truthy negb nullish] in Hview.
  destruct Hls as [Hls|[Hls|(s & Hls & Hp)]]; rewrite Hls in Hview.
  - cbn in Hview. injection Hview as _ Hf Hr. auto.
  - cbn in Hview. injection Hview as _ Hf Hr. auto.
  - cbn [parse_item] in Hview. unfold parse in Hview. rewrite Hp in Hview.
    destruct (str_truthy (Some s) && true); injection Hview as _ Hf Hr; auto.
Qed.

End InitTheorems.

Lemma substring_all s : String.substring 0 (String.length s) s = s.
Proof. induction s as [|a s IH]; cbn; [reflexivity|]. rewrite IH. reflexivity. Qed.

Lemma append_cons a s t : String a s ++ t = String a (s ++ t).
Proof. reflexivity. Qed.

Lemma append_empty t : "" ++ t = t.
Proof. reflexivity. Qed.

Lemma substring_after p n :
  String.substring (String.length p) (String.length (p ++ n) - String.length p) (p ++ n) = n.
Proof.
  induction p as [|a p IH]; [rewrite append_empty | rewrite append_cons]; simpl.
  - rewrite Nat.sub_0_r. apply substring_all.
  - exact IH.
Qed.

Lemma prefix_split p key :
  String.prefix p key = true ->
  key = p ++ String.substring (String.length p) (String.length key - String.length p) key.
Proof.
  revert key. induction p as [|a p IH]; intros key.
  - intros _. rewrite append_empty. simpl. rewrite Nat.sub_0_r, substring_all. reflexivity.
  - destruct key as [|b key]; cbn [String.prefix]; [intros H; discriminate H|].
    destruct (Ascii.ascii_dec a b) as [->|]; [|intros H; discriminate H].
    intros H. rewrite append_cons. simpl. f_equal. apply IH, H.
Qed.

Lemma prefix_append p n : String.prefix p (p ++ n) = true.
Proof.
  induction p as [|a p IH]; [rewrite append_empty; destruct n; reflexivity|].
  rewrite append_cons. simpl. destruct (Ascii.ascii_dec a a); [exact IH | congruence].
Qed.

Lemma serviceName_of_key name : serviceName_of (lastSearch_prefix ++ name) = name.
Proof. unfold serviceName_of. apply substring_after. Qed.

Lemma serviceName_inj k1 k2 :
  String.prefix lastSearch_prefix k1 = true ->
  String.prefix lastSearch_prefix k2 = true ->
  serviceName_of k1 = serviceName_of k2 -> k1 = k2.
Proof.
  intros H1 H2 E. rewrite (prefix_split _ _ H1), (prefix_split _ _ H2).
  unfold serviceName_of in E. rewrite E. reflexivity.
Qed.

Lemma prefixed_nonempty key :
  String.prefix lastSearch_prefix key = true -> String.eqb key "" = false.
Proof. destruct key; [intros H; discriminate H | reflexivity]. Qed.

Lemma ls_lookup_update_same key s l : ls_lookup key (ls_update key s l) = Some s.
Proof.
  induction l as [|[k v] l IH]; cbn [ls_update ls_lookup].
  - rewrite String.eqb_refl. reflexivity.
  - destruct (String.eqb key k) eqn:E; cbn [ls_lookup]; rewrite E; [reflexivity | exact IH].
Qed.

Lemma ls_lookup_update_other key k' s l :
  k' <> key -> ls_lookup k' (ls_update key s l) = ls_lookup k' l.
Proof.
  intros Hne. induction l as [|[k v] l IH]; cbn [ls_update ls_lookup].
  - replace (String.eqb k' key) with false by (symmetry; apply String.eqb_neq, Hne).
    reflexivity.
  - destruct (String.eqb key k) eqn:E; cbn [ls_lookup].
    + apply String.eqb_eq in E. subst k.
      replace (String.eqb k' key) with false by (symmetry; apply String.eqb_neq, Hne).
      reflexivity.
    + rewrite IH. reflexivity.
Qed.

Lemma ls_update_keys key s l k :
  In k (map fst (ls_update key s l)) <-> k = key \/ In k (map fst l).
Proof.
  induction l as [|[k0 v] l IH]; cbn [ls_update map fst In].
  - split; [intros [<-|[]]; auto | intros [->|[]]; auto].
  - destruct (String.eqb key k0) eqn:E; cbn [map fst In].
    + apply String.eqb_eq in E. subst k0. split; [intros [<-|H]; auto | intros [->|[<-|H]]; auto].
    + rewrite IH. split; [intros [H|[H|H]]; auto | intros [H|[H|H]]; auto].
Qed.

Section SearchPass.

Context (JSON_parse : string -> option jsval).
Context (JSON_stringify : jsval -> option string).

Lemma load_search_eq key w :
  load_search JSON_parse key w =
    if String.prefix lastSearch_prefix key then
      match parse_item JSON_parse (ls_lookup key (localStorage w)) with
      | Ret v =>
          (Ret tt,
           set_memoryCache
             (set_persistentSearches
                (<[serviceName_of key := v]> (persistentSearches (memoryCache w)))
                (memoryCache w)) w)
      | Exn e => (Exn e, w)
      end
    else (Ret tt, w).
Proof.
  unfold load_search, storage_getItem. unfold_m.
  destruct (String.prefix lastSearch_prefix key) eqn:Hp.
  - rewrite (prefixed_nonempty key Hp). cbn [negb andb].
    destruct (parse_item _ _); reflexivity.
  - rewrite andb_false_r. reflexivity.
Qed.

(** A loaded search stays loaded while the pass goes on, and the pass
    completes, when every remaining search entry parses. *)
Lemma for_each_load_search_keeps l :
  forall w name v,
    persistentSearches (memoryCache w) !! name = Some v ->
    (forall k, In k l -> String.prefix lastSearch_prefix k = true ->
               exists x, parse_item JSON_parse (ls_lookup k (localStorage w)) = Ret x /\
                         (serviceName_of k = name -> x = v)) ->
    fst (for_each (load_search JSON_parse) l w) = Ret tt /\
    persistentSearches (memoryCache (snd (for_each (load_search JSON_parse) l w))) !! name
      = Some v.
Proof.
  induction l as [|k0 l IH]; intros w name v Hcur Hall; [split; [reflexivity | exact Hcur]|].
  cbn [for_each]. unfold sbind. rewrite load_search_eq.
  destruct (String.prefix lastSearch_prefix k0) eqn:Hp.
  - destruct (Hall k0 (or_introl eq_refl) Hp) as (x & Hx & Hsame). rewrite Hx.
    apply IH.
    + cbn [memoryCache set_memoryCache persistentSearches set_persistentSearches].
      destruct (String.eqb_spec (serviceName_of k0) name) as [E|E].
      * rewrite E, lookup_insert_eq. f_equal. apply Hsame, E.
      * rewrite lookup_insert_ne by exact E. exact Hcur.
    + intros k Hk Hpk. apply Hall; [right; exact Hk | exact Hpk].
  - apply IH; [exact Hcur|]. intros k Hk Hpk. apply Hall; [right; exact Hk | exact Hpk].
Qed.

Lemma for_each_load_search_loads l :
  forall w key v,
    In key l -> String.prefix lastSearch_prefix key = true ->
    parse_item JSON_parse (ls_lookup key (localStorage w)) = Ret v ->
    (forall k, In k l -> String.prefix lastSearch_prefix k = true ->
               exists x, parse_item JSON_parse (ls_lookup k (localStorage w)) = Ret x) ->
    fst (for_each (load_search JSON_parse) l w) = Ret tt /\
    persistentSearches (memoryCache (snd (for_each (load_search JSON_parse) l w)))
      !! serviceName_of key = Some v.
Proof.
  induction l as [|k0 l IH]; intros w key v Hin Hp Hv Hall; [destruct Hin|].
  assert (Hall' : forall w', localStorage w' = localStorage w ->
            forall k, In k l -> String.prefix lastSearch_prefix k = true ->
              exists x, parse_item JSON_parse (ls_lookup k (localStorage w')) = Ret x /\
                        (serviceName_of k = serviceName_of key -> x = v)).
  { intros w' Hl k Hk Hpk. rewrite Hl.
    destruct (Hall k (or_intror Hk) Hpk) as (x & Hx). exists x. split; [exact Hx|].
    intros E. apply (serviceName_inj k key Hpk Hp) in E. subst k. congruence. }
  cbn [for_each]. unfold sbind. rewrite load_search_eq.
  destruct (String.prefix lastSearch_prefix k0) eqn:Hp0.
  - destruct (Hall k0 (or_introl eq_refl) Hp0) as (x0 & Hx0). rewrite Hx0.
    destruct (String.eqb_spec k0 key) as [->|Hne].
    + apply for_each_load_search_keeps.
      * cbn [memoryCache set_memoryCache persistentSearches set_persistentSearches].
        rewrite lookup_insert_eq. congruence.
      * apply Hall'. reflexivity.
    + destruct Hin as [Heq|Hin]; [congruence|].
      apply IH; [exact Hin | exact Hp | exact Hv|].
      intros k Hk Hpk. apply Hall. right. exact Hk. exact Hpk.
  - destruct Hin as [Heq|Hin]; [subst k0; congruence|].
    apply IH; [exact Hin | exact Hp | exact Hv|].
    intros k Hk Hpk. apply Hall. right. exact Hk. exact Hpk.
Qed.

(** The pass stops at the first search entry that does not parse: a name
    that no earlier entry carries keeps what the mirror held for it. *)
Lemma for_each_load_search_stops l1 bad l2 e :
  forall w name,
    String.prefix lastSearch_prefix bad = true ->
    parse_item JSON_parse (ls_lookup bad (localStorage w)) = Exn e ->
    (forall k, In k l1 -> String.prefix lastSearch_prefix k = true ->
               serviceName_of k <> name) ->
    persistentSearches
      (memoryCache (snd (for_each (load_search JSON_parse) (l1 ++ bad :: l2)%list w))) !! name
      = persistentSearches (memoryCache w) !! name.
Proof.
  induction l1 as [|k0 l1 IH]; intros w name Hp Hbad Hnames.
  - cbn [app for_each]. unfold sbind. rewrite load_search_eq, Hp, Hbad. reflexivity.
  - cbn [app for_each]. unfold sbind. rewrite load_search_eq.
    destruct (String.prefix lastSearch_prefix k0) eqn:Hp0.
    + destruct (parse_item JSON_parse (ls_lookup k0 (localStorage w))) as [v|e0]; [|reflexivity].
      rewrite IH.
      * cbn [memoryCache set_memoryCache persistentSearches set_persistentSearches].
        apply lookup_insert_ne. apply Hnames; [left; reflexivity | exact Hp0].
      * exact Hp.
      * cbn [localStorage set_memoryCache]. exact Hbad.
      * intros k Hk. apply Hnames. right. exact Hk.
    + apply IH; try assumption. intros k Hk. apply Hnames. right. exact Hk.
Qed.

Lemma for_each_migrate_env l :
  forall w, healthy w ->
  let w1 := snd (for_each (migrate_key JSON_parse JSON_stringify) l w) in
  localStorage w1 = localStorage w /\
  persistentSearches (memoryCache w1) = persistentSearches (memoryCache w).
Proof.
  induction l as [|k' l IH]; intros w Hw; [split; reflexivity|].
  cbn zeta. rewrite for_each_cons_snd.
  destruct (migrate_key_env JSON_parse JSON_stringify k' w (proj1 (Hw k')))
    as (_ & _ & _ & _ & _ & Hl & Hps & _).
  destruct (IH _ (healthy_migrate_key JSON_parse JSON_stringify k' w Hw)) as [Hl' Hps'].
  split; congruence.
Qed.

(** The persistent searches after initialization are those that the pass
    over localStorage loads, starting from what the mirror held. *)
Lemma initializeStorage_searches w :
  isStorageInitialized w = false -> healthy w ->
  persistentSearches (memoryCache (snd (initializeStorage JSON_parse JSON_stringify w))) =
  persistentSearches
    (memoryCache
       (snd (for_each (load_search JSON_parse) (map fst (localStorage w))
               (snd (for_each (migrate_key JSON_parse JSON_stringify) keys w))))).
Proof.
  intros Hinit Hw. unfold initializeStorage. rewrite Hinit. unfold_m.
  rewrite (for_each_migrate_step JSON_parse JSON_stringify keys w).
  destruct (for_each_migrate_env keys w Hw) as [Hl _]. cbn zeta in Hl. rewrite Hl.
  destruct (for_each (load_search JSON_parse) _ _) as [[[]|e] w2]; reflexivity.
Qed.

End SearchPass.

Section Sessions.

Context (JSON_parse : string -> option jsval).
Context (JSON_stringify : jsval -> option string).

Lemma healthy_restart w : healthy w -> healthy (restart w).
Proof. intros H k. apply H. Qed.

(** X6. A saved search survives a page reload. With persistent search
    enabled, working stores and a localStorage write that succeeds,
    [savePersistentSearch] leaves the serialized state under the key
    [botBrowser_lastSearch_] followed by the service name; after a reload
    and [initializeStorage], [loadPersistentSearch] of that service returns
    what [JSON.parse] reads from that text (or [null] when that is falsy),
    provided every other saved search in localStorage parses. *)
Theorem persistent_search_survives_reload
    (st : settings) (name : string) (f s a j c y : jsval) (text : string) (d : jsval)
    (w : world) :
  persistentSearchEnabled st = true ->
  healthy w ->
  storage_set_fails w (lastSearch_prefix ++ name) = false ->
  JSON_stringify (searchData f s a j c y) = Some text ->
  JSON_parse text = Some d ->
  (forall k, In k (map fst (localStorage w)) ->
             String.prefix lastSearch_prefix k = true ->
             k <> lastSearch_prefix ++ name ->
             exists x, parse_item JSON_parse (ls_lookup k (localStorage w)) = Ret x) ->
  let w1 := snd (savePersistentSearch JSON_stringify st name f s a j c y w) in
  let w2 := snd (initializeStorage JSON_parse JSON_stringify (restart w1)) in
  localStorage w1 = ls_update (lastSearch_prefix ++ name) text (localStorage w) /\
  loadPersistentSearch st name w2 = js_or d JNull.
Proof.
  intros Hen Hw Hss Hstr Hparse Hall w1 w2.
  assert (Hl1 : localStorage w1 =
                ls_update (lastSearch_prefix ++ name) text (localStorage w)).
  { subst w1. unfold savePersistentSearch, storage_setItem, stringify. rewrite Hen. unfold_m.
    cbn [negb]. cbv beta. rewrite Hstr. cbn [storage_set_fails set_memoryCache].
    rewrite Hss. reflexivity. }
  assert (Hw1 : healthy w1).
  { subst w1. unfold savePersistentSearch, storage_setItem, stringify. rewrite Hen. unfold_m.
    cbn [negb]. cbv beta. rewrite Hstr. cbn [storage_set_fails set_memoryCache].
    rewrite Hss. exact Hw. }
  split; [exact Hl1|].
  unfold loadPersistentSearch. rewrite Hen. cbn [negb]. subst w2.
  rewrite (initializeStorage_searches JSON_parse JSON_stringify (restart w1) eq_refl
             (healthy_restart w1 Hw1)).
  set (w0 := snd (for_each (migrate_key JSON_parse JSON_stringify) keys (restart w1))).
  assert (Hl0 : localStorage w0 = localStorage w1).
  { destruct (for_each_migrate_env JSON_parse JSON_stringify keys (restart w1)
                (healthy_restart w1 Hw1)) as [Hl _]. exact Hl. }
  change (localStorage (restart w1)) with (localStorage w1).
  destruct (for_each_load_search_loads JSON_parse (map fst (localStorage w1)) w0
              (lastSearch_prefix ++ name) d) as [_ Hfound].
  - rewrite Hl1. apply ls_update_keys. left. reflexivity.
  - apply prefix_append.
  - rewrite Hl0, Hl1, ls_lookup_update_same. cbn [parse_item]. unfold parse.
    rewrite Hparse. reflexivity.
  - intros k Hk Hpk. rewrite Hl0, Hl1.
    destruct (String.eqb_spec k (lastSearch_prefix ++ name)) as [->|Hne].
    + rewrite ls_lookup_update_same. cbn [parse_item]. unfold parse. rewrite Hparse. eauto.
    + rewrite ls_lookup_update_other by exact Hne.
      rewrite Hl1 in Hk. apply ls_update_keys in Hk as [Hk|Hk]; [contradiction|].
      apply Hall; assumption.
  - rewrite serviceName_of_key in Hfound. rewrite Hfound. reflexivity.
Qed.

(** X7. One unparseable saved search stops the loading pass. If the
    localStorage keys are [l1], then [bad], then [l2] in the order of
    [localStorage.key(i)], and [bad] is a saved-search key whose text
    [JSON.parse] rejects, then [initializeStorage] loads no saved search
    that comes after [bad]: a service name that no key of [l1] carries has
    the entry in the mirror that it had before, however valid its text in
    [l2] is; initialization still completes. *)
Theorem unparseable_search_entry_stops_loading
    (w : world) (l1 l2 : list string) (bad : string) (e : js_error) (name : string) :
  isStorageInitialized w = false -> healthy w ->
  map fst (localStorage w) = (l1 ++ bad :: l2)%list ->
  String.prefix lastSearch_prefix bad = true ->
  parse_item JSON_parse (ls_lookup bad (localStorage w)) = Exn e ->
  (forall k, In k l1 -> String.prefix lastSearch_prefix k = true -> serviceName_of k <> name) ->
  let w' := snd (initializeStorage JSON_parse JSON_stringify w) in
  persistentSearches (memoryCache w') !! name = persistentSearches (memoryCache w) !! name /\
  isStorageInitialized w' = true.
Proof.
  intros Hinit Hw Hkeys Hp Hbad Hnames w'. split; [|apply initializeStorage_sets_flag].
  subst w'. rewrite (initializeStorage_searches JSON_parse JSON_stringify w Hinit Hw), Hkeys.
  destruct (for_each_migrate_env JSON_parse JSON_stringify keys w Hw) as [Hl Hps].
  rewrite (for_each_load_search_stops JSON_parse l1 bad l2 e).
  - rewrite Hps. reflexivity.
  - exact Hp.
  - rewrite Hl. exact Hbad.
  - exact Hnames.
Qed.

Lemma settle_n_env n :
  forall w,
    forage_set_fails (settle_n JSON_stringify n w) = forage_set_fails w /\
    forage_get_fails (settle_n JSON_stringify n w) = forage_get_fails w /\
    storage_set_fails (settle_n JSON_stringify n w) = storage_set_fails w /\
    isStorageInitialized (settle_n JSON_stringify n w) = isStorageInitialized w.
Proof.
  induction n as [|n IH]; intros w; [repeat split|]. cbn [settle_n].
  destruct (IH (settle JSON_stringify w)) as (A & B & C & D). rewrite A, B, C, D.
  unfold settle. destruct (inflight w) as [|[k v] q]; [repeat split|].
  rewrite idbSet_world. unfold fallback_write.
  destruct (forage_set_fails _ _); [|repeat split].
  destruct (JSON_stringify v); [|repeat split].
  destruct (storage_set_fails _ _); repeat split.
Qed.

(** After a reload over working stores, a collection that the durable store
    holds for its key is what the mirror slot holds. *)
Lemma reload_loads_durable k v w :
  healthy w -> In k keys -> forage w !! k = Some v -> truthy v = true ->
  read_slot k (memoryCache (snd (initializeStorage JSON_parse JSON_stringify (restart w)))) = v.
Proof.
  intros Hw Hk Hdb Hv.
  destruct (initializeStorage_view JSON_parse JSON_stringify k (restart w) eq_refl
              (healthy_restart w Hw) Hk) as (Hview & _).
  unfold key_view, migration_step in Hview.
  change (forage (restart w)) with (forage w) in Hview. rewrite Hdb in Hview.
  cbv [default from_option id] in Hview. rewrite Hv, andb_false_r in Hview.
  assert (Hn : nullish v = false) by (destruct v; try reflexivity; discriminate Hv).
  rewrite Hn in Hview. injection Hview as _ _ Hr. exact Hr.
Qed.

Lemma settle_single k v w :
  healthy w -> inflight w = [(k, v)] ->
  healthy (settle_all JSON_stringify w) /\
  forage (settle_all JSON_stringify w) !! k = Some (stored v).
Proof.
  intros Hw Hq. unfold settle_all. rewrite Hq. cbn [List.length]. split.
  - destruct (settle_n_env 1 w) as (A & B & _). intros k0. rewrite A, B. apply Hw.
  - destruct (settle_n_apply JSON_stringify [(k, v)] w Hq (fun k0 => proj1 (Hw k0)))
      as (Hf & _). cbn [List.length] in Hf. rewrite Hf. apply (apply_writes_last [] k v).
Qed.

(** X8. Collections survive a page reload. Over working stores with no
    write in flight, after [trackImportedCard], [addBookmark] of a card that
    is not yet bookmarked, or [addToRecentlyViewed] (flag enabled, maximum
    not negative), once the background writes have settled, a reload
    followed by [initializeStorage] makes the accessor of the collection
    return exactly the collection that the mutator returned. *)
Theorem collection_survives_reload (w : world) (l : list jsval) :
  healthy w -> inflight w = [] ->
  (forall iso card type,
      importedCards (memoryCache w) = JArr l ->
      Forall (fun c => is_record c = true) l ->
      importable card = true ->
      let w1 := snd (trackImportedCard iso card type w) in
      let w2 := snd (initializeStorage JSON_parse JSON_stringify
                       (restart (settle_all JSON_stringify w1))) in
      Ret (loadImportedCards w2) = fst (trackImportedCard iso card type w)) /\
  (forall iso card,
      bookmarks (memoryCache w) = JArr l ->
      Forall (fun c => nullish c = false) l ->
      nullish card = false ->
      existsb (fun b => strict_eq (prop b "id") (prop card "id")) l = false ->
      let w1 := snd (addBookmark iso card w) in
      let w2 := snd (initializeStorage JSON_parse JSON_stringify
                       (restart (settle_all JSON_stringify w1))) in
      Ret (loadBookmarks w2) = fst (addBookmark iso card w)) /\
  (forall st card,
      recentlyViewedEnabled st = true ->
      (0 <= maxRecentlyViewed st)%Z ->
      Forall (fun c => nullish c = false) l ->
      nullish card = false ->
      let w1 := snd (addToRecentlyViewed st (JArr l) card w) in
      let w2 := snd (initializeStorage JSON_parse JSON_stringify
                       (restart (settle_all JSON_stringify w1))) in
      fst (loadRecentlyViewed st w2) = fst (addToRecentlyViewed st (JArr l) card w)).
Proof.
  intros Hw Hq. split; [|split].
  - intros iso card type Hm Hl Hc w1 w2. subst w2 w1.
    rewrite (trackImportedCard_eq iso l card type w Hm Hl Hc), saveImportedCards_eq.
    cbn [fst snd].
    set (kept := JArr (tracked iso card type l)).
    set (w1 := set_inflight _ _).
    destruct (settle_single "botBrowser_importedCards" kept w1) as [Hw2 Hdb].
    { exact Hw. } { subst w1. cbn [inflight set_inflight]. rewrite Hq. reflexivity. }
    pose proof (reload_loads_durable "botBrowser_importedCards" kept _ Hw2
                  ltac:(cbn; tauto) Hdb eq_refl) as Hr.
    unfold loadImportedCards. change (importedCards ?mc) with
      (read_slot "botBrowser_importedCards" mc). rewrite Hr. reflexivity.
  - intros iso card Hm Hl Hc Hnew w1 w2. subst w2 w1.
    rewrite (addBookmark_eq iso l card w Hm Hl Hc), Hnew, saveBookmarks_eq. cbn [fst snd].
    set (kept := JArr (bookmarkRecord_fields iso card :: l)).
    set (w1 := set_inflight _ _).
    destruct (settle_single "botBrowser_bookmarks" kept w1) as [Hw2 Hdb].
    { exact Hw. } { subst w1. cbn [inflight set_inflight]. rewrite Hq. reflexivity. }
    pose proof (reload_loads_durable "botBrowser_bookmarks" kept _ Hw2
                  ltac:(cbn; tauto) Hdb eq_refl) as Hr.
    unfold loadBookmarks. change (bookmarks ?mc) with
      (read_slot "botBrowser_bookmarks" mc). rewrite Hr. reflexivity.
  - intros st card Hen Hmax Hl Hc w1 w2. subst w2 w1.
    rewrite (addToRecentlyViewed_eq st l card w Hen Hl Hc). cbn [fst snd].
    set (kept := JArr (viewed st card l)).
    set (w1 := set_inflight _ _).
    destruct (settle_single "botBrowser_recentlyViewed" kept w1) as [Hw2 Hdb].
    { exact Hw. } { subst w1. cbn [inflight set_inflight]. rewrite Hq. reflexivity. }
    pose proof (reload_loads_durable "botBrowser_recentlyViewed" kept _ Hw2
                  ltac:(cbn; tauto) Hdb eq_refl) as Hr.
    rewrite (loadRecentlyViewed_eq st _ (viewed st card l) Hen Hmax).
    + pose proof (viewed_length st card l Hmax) as Hlen.
      apply Z.ltb_ge in Hlen. rewrite Hlen. reflexivity.
    + change (recentlyViewed ?mc) with (read_slot "botBrowser_recentlyViewed" mc).
      exact Hr.
Qed.

(** X9. A write that only reached the fallback store is recovered. If
    the durable store rejects a background write for a managed key that it
    holds no value for, and localStorage accepts the serialized value, then
    the durable store still has nothing for the key while localStorage
    holds the text; when the stores work again, [initializeStorage] after a
    reload parses the text, puts the value in the mirror slot and writes it
    to the durable store. *)
Theorem fallback_copy_is_recovered (k : string) (v p : jsval) (text : string) (w : world) :
  In k keys ->
  inflight w = [(k, v)] ->
  forage_set_fails w k = true ->
  storage_set_fails w k = false ->
  forage w !! k = None ->
  JSON_stringify v = Some text -> text <> "" -> JSON_parse text = Some p ->
  let w1 := settle_all JSON_stringify w in
  let w2 := snd (initializeStorage JSON_parse JSON_stringify
                   (with_faults no_faults no_faults (storage_set_fails w) (restart w1))) in
  forage w1 !! k = None /\
  ls_lookup k (localStorage w1) = Some text /\
  read_slot k (memoryCache w2) = p /\
  forage w2 !! k = Some (stored p).
Proof.
  intros Hk Hq Hs Hss Hdb Hstr Htext Hparse w1 w2.
  assert (Hw1 : forage w1 !! k = None /\ ls_lookup k (localStorage w1) = Some text).
  { subst w1. unfold settle_all. rewrite Hq. cbn [List.length settle_n]. unfold settle.
    rewrite Hq, idbSet_world. cbn [forage_set_fails set_inflight]. rewrite Hs.
    unfold fallback_write. rewrite Hstr. cbn [storage_set_fails set_inflight]. rewrite Hss.
    cbn [forage localStorage set_localStorage set_inflight].
    split; [exact Hdb | apply ls_lookup_update_same]. }
  destruct Hw1 as [Hdb1 Hls1]. split; [exact Hdb1|]. split; [exact Hls1|].
  destruct (initializeStorage_view JSON_parse JSON_stringify k
              (with_faults no_faults no_faults (storage_set_fails w) (restart w1)) eq_refl)
    as (Hview & _); [intros k0; split; reflexivity | exact Hk |].
  fold w2 in Hview. unfold key_view, migration_step in Hview.
  change (forage (with_faults _ _ _ (restart w1))) with (forage w1) in Hview.
  change (localStorage (with_faults _ _ _ (restart w1))) with (localStorage w1) in Hview.
  rewrite Hdb1, Hls1 in Hview.
  cbn [default str_truthy truthy negb parse_item] in Hview. unfold parse in Hview.
  rewrite Hparse in Hview.
  replace (String.eqb text "") with false in Hview
    by (symmetry; apply String.eqb_neq; exact Htext).
  cbn in Hview. injection Hview as _ Hf Hr. auto.
Qed.

End Sessions.

Lemma isBookmarked_eq cardId w l :
  bookmarks (memoryCache w) = JArr l ->
  Forall (fun c => nullish c = false) l ->
  isBookmarked cardId w = Ret (existsb (fun b => strict_eq (prop b "id") cardId) l).
Proof.
  intros Hm Hwf. unfold isBookmarked, loadBookmarks. rewrite Hm. cbn [js_or truthy as_array obind].
  apply someM_pure. eapply Forall_impl; [exact Hwf|]. intros c Hc.
  unfold has_id, getProp, obind. rewrite Hc. reflexivity.
Qed.

Lemma existsb_false_Forall (g : jsval -> bool) (l : list jsval) :
  existsb g l = false -> Forall (fun x => negb (g x) = true) l.
Proof.
  induction l as [|x l IH]; cbn [existsb]; intros H; [constructor|].
  apply orb_false_iff in H as [Hx Hl]. constructor; [rewrite Hx; reflexivity | apply IH, Hl].
Qed.

Lemma existsb_filter_same (g : jsval -> bool) (l : list jsval) :
  existsb g (List.filter (fun x => negb (g x)) l) = false.
Proof.
  induction l as [|x l IH]; cbn [List.filter existsb]; [reflexivity|].
  destruct (g x) eqn:Hx; cbn [negb existsb]; [exact IH | rewrite Hx, IH; reflexivity].
Qed.

Lemma existsb_filter_other (g h : jsval -> bool) (l : list jsval) :
  (forall x, g x = true -> h x = true) ->
  existsb g (List.filter h l) = existsb g l.
Proof.
  intros Hgh. induction l as [|x l IH]; cbn [List.filter existsb]; [reflexivity|].
  destruct (h x) eqn:Hx; cbn [existsb]; [rewrite IH; reflexivity|].
  destruct (g x) eqn:Hg; [apply Hgh in Hg; congruence | exact IH].
Qed.

Lemma strict_eq_str_refl c : has_string_id c = true -> strict_eq (prop c "id") (prop c "id") = true.
Proof.
  unfold has_string_id. destruct (prop c "id"); try discriminate. intros _.
  cbn [strict_eq]. apply String.eqb_refl.
Qed.

Lemma removeBookmark_mirror cardId w l :
  bookmarks (memoryCache w) = JArr l ->
  Forall (fun c => nullish c = false) l ->
  bookmarks (memoryCache (snd (removeBookmark cardId w))) =
    JArr (List.filter (fun c => negb (strict_eq (prop c "id") cardId)) l).
Proof.
  intros Hm Hwf. rewrite (removeBookmark_eq cardId w l Hm Hwf).
  destruct (_ <? _)%nat eqn:E; [rewrite saveBookmarks_eq; reflexivity|]. cbn [snd]. rewrite Hm. f_equal. symmetry.
  apply filter_same_length. apply Nat.ltb_ge in E.
  pose proof (filter_length_bound (fun c => negb (strict_eq (prop c "id") cardId)) l). lia.
Qed.

Lemma filter_nullish (g : jsval -> bool) l :
  Forall (fun c => nullish c = false) l -> Forall (fun c => nullish c = false) (List.filter g l).
Proof.
  induction 1 as [|x l Hx _ IH]; cbn [List.filter]; [constructor|].
  destruct (g x); [constructor; assumption | exact IH].
Qed.

(** X10. [isBookmarked] agrees with the mutators. On a mirror collection
    of records: after [addBookmark] of a card with a string id,
    [isBookmarked] of that id is true; after [removeBookmark] of an id,
    [isBookmarked] of that id is false; and neither adding a card nor
    removing an id changes what [isBookmarked] answers for a different
    id. *)
Theorem bookmark_membership (w : world) (l : list jsval) :
  bookmarks (memoryCache w) = JArr l ->
  Forall (fun c => nullish c = false) l ->
  (forall iso card,
      nullish card = false -> has_string_id card = true ->
      isBookmarked (prop card "id") (snd (addBookmark iso card w)) = Ret true) /\
  (forall cardId,
      isBookmarked cardId (snd (removeBookmark cardId w)) = Ret false) /\
  (forall iso card other,
      nullish card = false -> strict_eq (prop card "id") other = false ->
      isBookmarked other (snd (addBookmark iso card w)) = isBookmarked other w) /\
  (forall cardId other,
      strict_eq cardId other = false ->
      isBookmarked other (snd (removeBookmark cardId w)) = isBookmarked other w).
Proof.
  intros Hm Hwf. split; [|split; [|split]].
  - intros iso card Hc Hid. rewrite (addBookmark_eq iso l card w Hm Hwf Hc).
    destruct (existsb _ l) eqn:Hex; [|rewrite saveBookmarks_eq]; cbn [snd].
    + rewrite (isBookmarked_eq _ w l Hm Hwf), Hex. reflexivity.
    + set (w1 := set_inflight _ _).
      rewrite (isBookmarked_eq _ w1 (bookmarkRecord_fields iso card :: l) eq_refl).
      * cbn [existsb]. change (prop (bookmarkRecord_fields iso card) "id") with (prop card "id").
        rewrite (strict_eq_str_refl card Hid). reflexivity.
      * constructor; [reflexivity | exact Hwf].
  - intros cardId.
    rewrite (isBookmarked_eq cardId _ _ (removeBookmark_mirror cardId w l Hm Hwf)
               (filter_nullish _ l Hwf)).
    rewrite (existsb_filter_same (fun b => strict_eq (prop b "id") cardId)). reflexivity.
  - intros iso card other Hc Hne. rewrite (addBookmark_eq iso l card w Hm Hwf Hc).
    destruct (existsb _ l) eqn:Hex; [|rewrite saveBookmarks_eq]; cbn [snd]; [reflexivity|].
    set (w1 := set_inflight _ _).
    rewrite (isBookmarked_eq _ w1 (bookmarkRecord_fields iso card :: l) eq_refl),
      (isBookmarked_eq _ w l Hm Hwf).
    + cbn [existsb]. change (prop (bookmarkRecord_fields iso card) "id") with (prop card "id").
      rewrite Hne. reflexivity.
    + constructor; [reflexivity | exact Hwf].
  - intros cardId other Hne.
    rewrite (isBookmarked_eq other _ _ (removeBookmark_mirror cardId w l Hm Hwf)
               (filter_nullish _ l Hwf)), (isBookmarked_eq other w l Hm Hwf).
    f_equal. apply existsb_filter_other. intros x Hx.
    destruct (strict_eq (prop x "id") cardId) eqn:Hxc; [|reflexivity].
    pose proof (strict_eq_true _ _ Hxc) as E. rewrite E in Hx. congruence.
Qed.

(** X11. Removing undoes adding. On a mirror collection of records that
    does not hold the id of [card] (a string), [addBookmark] of the card
    followed by [removeBookmark] of its id returns the original collection
    and leaves it in the mirror; two durable writes are scheduled, the one
    of the extended collection before the one of the original
    collection. *)
Theorem remove_undoes_add (iso : string) (card : jsval) (w : world) (l : list jsval) :
  bookmarks (memoryCache w) = JArr l ->
  Forall (fun c => nullish c = false) l ->
  nullish card = false -> has_string_id card = true ->
  existsb (fun b => strict_eq (prop b "id") (prop card "id")) l = false ->
  let w1 := snd (addBookmark iso card w) in
  let w2 := snd (removeBookmark (prop card "id") w1) in
  fst (removeBookmark (prop card "id") w1) = Ret (JArr l) /\
  loadBookmarks w2 = JArr l /\
  inflight w2 = (inflight w ++
                 [("botBrowser_bookmarks", JArr (bookmarkRecord_fields iso card :: l));
                  ("botBrowser_bookmarks", JArr l)])%list.
Proof.
  intros Hm Hwf Hc Hid Hnew w1 w2. subst w2 w1.
  rewrite (addBookmark_eq iso l card w Hm Hwf Hc), Hnew, saveBookmarks_eq. cbn [snd].
  set (w1 := set_inflight _ _).
  assert (Hf : List.filter (fun c => negb (strict_eq (prop c "id") (prop card "id")))
                 (bookmarkRecord_fields iso card :: l) = l).
  { cbn [List.filter]. change (prop (bookmarkRecord_fields iso card) "id") with (prop card "id").
    rewrite (strict_eq_str_refl card Hid). cbn [negb].
    apply filter_all, existsb_false_Forall, Hnew. }
  rewrite (removeBookmark_eq (prop card "id") w1 (bookmarkRecord_fields iso card :: l) eq_refl)
    by (constructor; [reflexivity | exact Hwf]).
  cbv zeta. rewrite Hf. cbn [List.length].
  replace (List.length l <? S (List.length l))%nat with true
    by (symmetry; apply Nat.ltb_lt; lia).
  rewrite saveBookmarks_eq. cbn [fst snd]. split; [reflexivity|]. split; [reflexivity|].
  subst w1. cbn [inflight set_inflight set_memoryCache]. rewrite <- app_assoc. reflexivity.
Qed.

Lemma findIndex_first (g : jsval -> bool) (l : list jsval) :
  forall k i x,
    l !! i = Some x -> g x = true ->
    (forall j y, (j < i)%nat -> l !! j = Some y -> g y = false) ->
    findIndex g l k = Some (k + i)%nat.
Proof.
  induction l as [|y l IH]; intros k i x Hi Hx Hbefore; [discriminate Hi|].
  cbn [findIndex]. destruct i as [|i].
  - injection Hi as ->. rewrite Hx. f_equal. lia.
  - rewrite (Hbefore 0%nat y) by (try lia; reflexivity).
    rewrite (IH (S k) i x Hi Hx).
    + f_equal. lia.
    + intros j z Hj Hz. apply (Hbefore (S j) z); [lia | exact Hz].
Qed.

(** X12. Importing a tracked card again only restamps its record. When
    the record [r] at index [i] is the first one carrying the id of the
    card, and the collection holds at most 500 records, [trackImportedCard]
    returns, and leaves in the mirror, the record [r] with its
    [imported_at] set to the time of the call, followed by the other
    records in their order: no field is taken from the card, and the
    collection keeps its length. *)
Theorem reimport_only_restamps
    (iso : string) (card type : jsval) (w : world) (l : list jsval) (i : nat) (r : jsval) :
  importedCards (memoryCache w) = JArr l ->
  Forall (fun c => is_record c = true) l ->
  importable card = true ->
  (List.length l <= 500)%nat ->
  l !! i = Some r ->
  strict_eq (prop r "id") (prop card "id") = true ->
  (forall j y, (j < i)%nat -> l !! j = Some y ->
               strict_eq (prop y "id") (prop card "id") = false) ->
  fst (trackImportedCard iso card type w) = Ret (JArr (stamp iso r :: delete i l)) /\
  loadImportedCards (snd (trackImportedCard iso card type w)) =
    JArr (stamp iso r :: delete i l) /\
  List.length (stamp iso r :: delete i l) = List.length l.
Proof.
  intros Hm Hwf Hc Hlen Hi Hr Hfirst.
  assert (Hl : List.length (stamp iso r :: delete i l) = List.length l).
  { cbn [List.length]. rewrite length_delete by (rewrite Hi; eauto).
    apply lookup_lt_Some in Hi. lia. }
  assert (Ht : tracked iso card type l = stamp iso r :: delete i l).
  { unfold tracked.
    rewrite (findIndex_first (fun c => strict_eq (prop c "id") (prop card "id")) l 0 i r
               Hi Hr Hfirst).
    cbn [Nat.add]. rewrite Hi. cbv [default from_option id]. unfold trim.
    rewrite Hl. replace (500 <? Z.of_nat (List.length l))%Z with false; [reflexivity|].
    symmetry. apply Z.ltb_ge. lia. }
  rewrite (trackImportedCard_eq iso l card type w Hm Hwf Hc), saveImportedCards_eq, Ht.
  cbn [fst snd]. repeat split. exact Hl.
Qed.

(** X13. At most 500 imports are kept. On a mirror collection of records,
    [trackImportedCard] of a card it can snapshot returns a collection of
    at most 500 records; for a card that is not tracked yet this collection
    is the new import record followed by the previous records, cut after
    500, so the oldest records are the ones dropped. *)
Theorem imports_are_capped (iso : string) (card type : jsval) (w : world) (l : list jsval) :
  importedCards (memoryCache w) = JArr l ->
  Forall (fun c => is_record c = true) l ->
  importable card = true ->
  exists l',
    fst (trackImportedCard iso card type w) = Ret (JArr l') /\
    (List.length l' <= 500)%nat /\
    (existsb (fun c => strict_eq (prop c "id") (prop card "id")) l = false ->
     exists rec,
       importRecord iso card (default_param (JStr "character") type) = Ret rec /\
       l' = firstn 500 (rec :: l)).
Proof.
  intros Hm Hwf Hc. exists (tracked iso card type l).
  rewrite (trackImportedCard_eq iso l card type w Hm Hwf Hc). cbn [fst].
  split; [reflexivity|]. split.
  - unfold tracked. destruct (trim_length
      (match findIndex (fun c => strict_eq (prop c "id") (prop card "id")) l 0 with
       | Some i => stamp iso (default JUndefined (l !! i)) :: delete i l
       | None => importRecord_fields iso card (default_param (JStr "character") type)
                   (match desc_preview_of card with Ret v => v | Exn _ => JUndefined end) :: l
       end) 500 ltac:(lia)) as [_ H]. lia.
  - intros Hnew. unfold tracked.
    destruct (findIndex _ l 0) as [i|] eqn:Hfind.
    + apply findIndex_lookup in Hfind as (j & x & _ & Hj & Hx).
      apply existsb_false_Forall in Hnew. rewrite Forall_lookup in Hnew.
      specialize (Hnew j x Hj). cbv beta in Hnew. rewrite Hx in Hnew. discriminate Hnew.
    + destruct (importable_desc_preview _ Hc) as [dp Hdp].
      pose proof (is_record_not_nullish _ (importable_record _ Hc)) as Hcn.
      exists (importRecord_fields iso card (default_param (JStr "character") type) dp).
      split; [unfold importRecord; rewrite Hcn, Hdp; reflexivity|].
      rewrite Hdp. unfold trim. destruct (500 <? _)%Z eqn:E.
      * rewrite slice0_nonneg by lia. reflexivity.
      * apply Z.ltb_ge in E. rewrite firstn_all2; [reflexivity | lia].
Qed.

Ltac frame_cases :=
  unfold_m;
  repeat (break_match; cbn [fst snd] in *);
  try (left; reflexivity);
  try (right; eexists; reflexivity).

(** X14. Mutators write through. For every argument and on every world,
    each of [addBookmark], [removeBookmark], [trackImportedCard],
    [removeImportedCard], [addToRecentlyViewed] and [clearImportedCards]
    either leaves the world exactly as it was, or stores one value in the
    mirror slot of its collection and schedules one durable write of that
    same value under the key of the collection; it changes no other mirror
    slot, it does not touch the durable store or localStorage itself, and
    the mirror never holds a value other than the one scheduled. *)
Theorem mutators_write_through (w : world) :
  (forall iso card,
      writes_through "botBrowser_bookmarks" w (snd (addBookmark iso card w))) /\
  (forall cardId,
      writes_through "botBrowser_bookmarks" w (snd (removeBookmark cardId w))) /\
  (forall iso card type,
      writes_through "botBrowser_importedCards" w (snd (trackImportedCard iso card type w))) /\
  (forall cardId,
      writes_through "botBrowser_importedCards" w (snd (removeImportedCard cardId w))) /\
  (forall st rv card,
      writes_through "botBrowser_recentlyViewed" w (snd (addToRecentlyViewed st rv card w))) /\
  writes_through "botBrowser_importedCards" w (snd (clearImportedCards w)).
Proof.
  split; [|split; [|split; [|split; [|split]]]]; intros.
  - unfold addBookmark, addBookmark_try, bookmarks_in_place, saveBookmarks, idbSet_async.
    frame_cases.
  - unfold removeBookmark, removeBookmark_try, saveBookmarks, idbSet_async. frame_cases.
  - unfold trackImportedCard, trackImportedCard_try, importedCards_in_place,
      saveImportedCards, idbSet_async. frame_cases.
  - unfold removeImportedCard, removeImportedCard_try, saveImportedCards, idbSet_async.
    frame_cases.
  - unfold addToRecentlyViewed, recentlyViewed_store, idbSet_async. frame_cases.
  - right. eexists. reflexivity.
Qed.

(** X15. Misses of the TTL cache. [idbGetCachedApi] returns [null] and
    changes nothing when the read of the durable store fails, when the
    store holds nothing for the key, and when it holds a value without a
    truthy [timestamp]. For an entry stamped at a time [t] other than 0 it
    returns the payload exactly when [now - t] is below the TTL, which is
    3600000 ms when the argument is omitted, and [null] otherwise. *)
Theorem ttl_cache_misses (now : Z) (k : string) (ttl : option Z) (w : world) :
  (forage_get_fails w k = true -> idbGetCachedApi now k ttl w = (Ret JNull, w)) /\
  (forage w !! k = None -> idbGetCachedApi now k ttl w = (Ret JNull, w)) /\
  (forall v, forage w !! k = Some v -> truthy (prop v "timestamp") = false ->
             idbGetCachedApi now k ttl w = (Ret JNull, w)) /\
  (forall t v, forage w !! k = Some (cacheEntry t v) -> forage_get_fails w k = false ->
               t <> 0%Z ->
               idbGetCachedApi now k ttl w =
                 (Ret (if (now - t <? default 3600000 ttl)%Z then v else JNull), w)).
Proof.
  unfold idbGetCachedApi. unfold_m. rewrite idbGet_eq. repeat split.
  - intros ->. reflexivity.
  - intros ->. destruct (forage_get_fails w k); reflexivity.
  - intros v -> Hts. destruct (forage_get_fails w k); [reflexivity|].
    cbv [default from_option id]. unfold is_fresh. rewrite Hts, andb_false_r. reflexivity.
  - intros t v -> -> Ht. cbv [default from_option id]. unfold is_fresh, cacheEntry.
    cbn [truthy prop assoc String.eqb Ascii.eqb Bool.eqb to_number andb].
    cbv [default from_option id]. cbn [truthy to_number].
    replace (t =? 0)%Z with false by (symmetry; apply Z.eqb_neq; exact Ht).
    cbn [negb andb]. destruct ttl; destruct (_ <? _)%Z; reflexivity.
Qed.

Section ScalarReload.

Context (JSON_parse : string -> option jsval).
Context (JSON_stringify : jsval -> option string).

Lemma reload_view k w :
  healthy w -> In k keys ->
  key_view k (snd (initializeStorage JSON_parse JSON_stringify (restart w))) =
    migration_step JSON_parse
      (ls_lookup k (localStorage w), forage w !! k, read_slot k initialMemoryCache).
Proof.
  intros Hw Hk.
  destruct (initializeStorage_view JSON_parse JSON_stringify k (restart w) eq_refl
              (healthy_restart w Hw) Hk) as (Hview & _).
  exact Hview.
Qed.

Lemma reload_slot k v w :
  healthy w -> In k keys -> forage w !! k = Some v ->
  (truthy v = true \/ (nullish v = false /\ str_truthy (ls_lookup k (localStorage w)) = false)) ->
  read_slot k (memoryCache (snd (initializeStorage JSON_parse JSON_stringify (restart w)))) = v.
Proof.
  intros Hw Hk Hdb Hv. pose proof (reload_view k w Hw Hk) as Hview.
  unfold key_view, migration_step in Hview. rewrite Hdb in Hview.
  cbv [default from_option id] in Hview.
  assert (Hn : nullish v = false).
  { destruct Hv as [Hv|[Hv _]]; [|exact Hv]. destruct v; try reflexivity; discriminate Hv. }
  assert (Hg : str_truthy (ls_lookup k (localStorage w)) && negb (truthy v) = false).
  { destruct Hv as [Hv|[_ Hv]]; rewrite Hv; [apply andb_false_r | reflexivity]. }
  rewrite Hg, Hn in Hview. injection Hview as _ _ Hr. exact Hr.
Qed.

(** X16. Scalar settings survive a page reload. Over working stores with
    no write in flight, a value other than [null] and [undefined] given to
    [saveSearchCollapsed] or [saveImportStats] is what the matching
    accessor returns after the write has settled, the page was reloaded and
    [initializeStorage] has run, provided the value is truthy or
    localStorage holds no non-empty text for the key. *)
Theorem scalars_survive_reload (v : jsval) (w : world) :
  healthy w -> inflight w = [] -> nullish v = false ->
  (truthy v = true \/
   str_truthy (ls_lookup "botBrowser_searchCollapsed" (localStorage w)) = false ->
   let w1 := snd (saveSearchCollapsed v w) in
   let w2 := snd (initializeStorage JSON_parse JSON_stringify
                    (restart (settle_all JSON_stringify w1))) in
   loadSearchCollapsed w2 = v) /\
  (truthy v = true \/
   str_truthy (ls_lookup "botBrowser_importStats" (localStorage w)) = false ->
   let w1 := snd (saveImportStats v w) in
   let w2 := snd (initializeStorage JSON_parse JSON_stringify
                    (restart (settle_all JSON_stringify w1))) in
   loadImportStats w2 = v).
Proof.
  intros Hw Hq Hn.
  assert (Hst : stored v = v) by (destruct v; try reflexivity; discriminate Hn).
  split; intros Hv w1 w2; subst w2 w1.
  - set (w1 := snd (saveSearchCollapsed v w)).
    destruct (settle_single JSON_stringify "botBrowser_searchCollapsed" v w1) as [Hw2 Hdb].
    { exact Hw. } { subst w1. cbn. rewrite Hq. reflexivity. }
    rewrite Hst in Hdb.
    assert (Hls : localStorage (settle_all JSON_stringify w1) = localStorage w).
    { unfold settle_all.
      destruct (settle_n_apply JSON_stringify (inflight w1) w1 eq_refl
                  (fun k0 => proj1 (Hw k0))) as (_ & _ & Hl). rewrite Hl. reflexivity. }
    apply (reload_slot "botBrowser_searchCollapsed" v _ Hw2 ltac:(cbn; tauto) Hdb).
    rewrite Hls. destruct Hv as [Hv|Hv]; [left; exact Hv | right; split; assumption].
  - set (w1 := snd (saveImportStats v w)).
    destruct (settle_single JSON_stringify "botBrowser_importStats" v w1) as [Hw2 Hdb].
    { exact Hw. } { subst w1. cbn. rewrite Hq. reflexivity. }
    rewrite Hst in Hdb.
    assert (Hls : localStorage (settle_all JSON_stringify w1) = localStorage w).
    { unfold settle_all.
      destruct (settle_n_apply JSON_stringify (inflight w1) w1 eq_refl
                  (fun k0 => proj1 (Hw k0))) as (_ & _ & Hl). rewrite Hl. reflexivity. }
    apply (reload_slot "botBrowser_importStats" v _ Hw2 ltac:(cbn; tauto) Hdb).
    rewrite Hls. destruct Hv as [Hv|Hv]; [left; exact Hv | right; split; assumption].
Qed.

End ScalarReload.

Lemma part_beyond (ps : list (option Z)) (i : nat) :
  (List.length ps <= i)%nat -> part ps i = 0.
Proof. intros H. unfold part. rewrite lookup_ge_None_2 by exact H. reflexivity. Qed.

Lemma compare_loop_range n : forall i c l,
  compare_loop n i c l = -1 \/ compare_loop n i c l = 0 \/ compare_loop n i c l = 1.
Proof.
  induction n as [|n IH]; intros i c l; cbn [compare_loop]; [auto|].
  destruct (_ <? _)%Z; [auto|]. destruct (_ <? _)%Z; [auto|]. apply IH.
Qed.

Lemma compare_loop_lt n : forall i c l,
  compare_loop n i c l = -1 <->
  exists k, (i <= k < i + n)%nat /\ (forall j, (i <= j < k)%nat -> part c j = part l j) /\
            part c k < part l k.
Proof.
  induction n as [|n IH]; intros i c l; cbn [compare_loop].
  - split; [discriminate | intros (k & Hk & _); lia].
  - destruct (part c i <? part l i)%Z eqn:E1.
    + apply Z.ltb_lt in E1. split; [intros _|reflexivity].
      exists i. split; [lia|]. split; [intros j Hj; lia | exact E1].
    + apply Z.ltb_ge in E1. destruct (part l i <? part c i)%Z eqn:E2.
      * apply Z.ltb_lt in E2. split; [discriminate|].
        intros (k & Hk & Heq & Hlt). destruct (Nat.eq_dec k i) as [->|Hne]; [lia|].
        specialize (Heq i ltac:(lia)). lia.
      * apply Z.ltb_ge in E2. rewrite IH. split.
        -- intros (k & Hk & Heq & Hlt). exists k. split; [lia|]. split; [|exact Hlt].
           intros j Hj. destruct (Nat.eq_dec j i) as [->|Hne]; [lia | apply Heq; lia].
        -- intros (k & Hk & Heq & Hlt). destruct (Nat.eq_dec k i) as [->|Hne]; [lia|].
           exists k. split; [lia|]. split; [|exact Hlt]. intros j Hj. apply Heq. lia.
Qed.

Lemma compare_loop_zero n : forall i c l,
  compare_loop n i c l = 0 <-> forall j, (i <= j < i + n)%nat -> part c j = part l j.
Proof.
  induction n as [|n IH]; intros i c l; cbn [compare_loop].
  - split; [intros _ j Hj; lia | reflexivity].
  - destruct (part c i <? part l i)%Z eqn:E1.
    + apply Z.ltb_lt in E1. split; [discriminate|]. intros H. specialize (H i ltac:(lia)). lia.
    + apply Z.ltb_ge in E1. destruct (part l i <? part c i)%Z eqn:E2.
      * apply Z.ltb_lt in E2. split; [discriminate|]. intros H.
        specialize (H i ltac:(lia)). lia.
      * apply Z.ltb_ge in E2. rewrite IH. split.
        -- intros H j Hj. destruct (Nat.eq_dec j i) as [->|Hne]; [lia | apply H; lia].
        -- intros H j Hj. apply H. lia.
Qed.

Lemma compare_loop_opp n : forall i c l,
  compare_loop n i l c = - compare_loop n i c l.
Proof.
  induction n as [|n IH]; intros i c l; cbn [compare_loop]; [reflexivity|].
  destruct (part c i <? part l i)%Z eqn:E1, (part l i <? part c i)%Z eqn:E2;
    try reflexivity; [|apply IH].
  apply Z.ltb_lt in E1. apply Z.ltb_lt in E2. lia.
Qed.

Section UpdateCheckerFacts.

Context (Number : string -> option Z).

(** X17. [compareVersions] is the lexicographic order on components,
    where a component that is missing or is not a number counts as 0: the
    result is -1 exactly when [current] is smaller at the first component
    where the two differ, 1 exactly when [latest] is, and 0 exactly when
    all components agree; swapping the arguments negates the result. *)
Theorem compareVersions_lexicographic (current latest : string) :
  let c := map Number (split_dot current) in
  let l := map Number (split_dot latest) in
  (compareVersions Number current latest = -1 <-> exists i, older_at i c l) /\
  (compareVersions Number current latest = 1 <-> exists i, older_at i l c) /\
  (compareVersions Number current latest = 0 <-> forall i, part c i = part l i) /\
  compareVersions Number latest current = - compareVersions Number current latest.
Proof.
  intros c l.
  assert (Hlt : forall a b : list (option Z),
             compare_loop (Nat.max (List.length a) (List.length b)) 0 a b = -1 <->
             exists i, older_at i a b).
  { intros a b. rewrite compare_loop_lt. split.
    - intros (k & _ & Heq & Hk). exists k. split; [|exact Hk]. intros j Hj. apply Heq. lia.
    - intros (k & Heq & Hk). exists k. split; [|split; [|exact Hk]].
      + destruct (Nat.lt_ge_cases k (Nat.max (List.length a) (List.length b))) as [H|H]; [lia|].
        rewrite (part_beyond a k), (part_beyond b k) in Hk by lia. lia.
      + intros j Hj. apply Heq. lia. }
  assert (Hopp : compareVersions Number latest current = - compareVersions Number current latest).
  { unfold compareVersions. rewrite Nat.max_comm. apply compare_loop_opp. }
  assert (H1 : compareVersions Number current latest = 1 <-> exists i, older_at i l c).
  { rewrite <- (Hlt l c). subst c l. unfold compareVersions in *. cbv zeta in *. lia. }
  split; [apply Hlt|]. split; [exact H1|]. split; [|exact Hopp].
  unfold compareVersions. fold c l. rewrite compare_loop_zero. split.
  - intros H i.
    destruct (Nat.lt_ge_cases i (Nat.max (List.length c) (List.length l))) as [Hi|Hi].
    + apply H. lia.
    + rewrite (part_beyond c i), (part_beyond l i) by lia. reflexivity.
  - intros H j _. apply H.
Qed.

Lemma try_manifest_some cv fetched r :
  try_manifest Number cv fetched = Ret (Some r) ->
  exists m c l,
    fetched = Ret (Response true (Ret m)) /\ cv = JStr c /\ prop m "version" = JStr l /\
    l <> "" /\
    r = checkResult (compareVersions Number c l <? 0)%Z (JStr l) cv JNull.
Proof.
  unfold try_manifest, obind, getProp, compareVersions_call.
  destruct fetched as [[o j]|]; [|discriminate]. cbn [ok json].
  destruct o; cbn [negb]; [|discriminate].
  destruct j as [m|]; [|discriminate].
  destruct (nullish m); [discriminate|].
  destruct (truthy (prop m "version")) eqn:Ht; cbn [negb]; [|discriminate].
  destruct cv as [| | | |c| |]; try discriminate.
  destruct (prop m "version") as [| | | |l| |] eqn:Hv; try discriminate.
  intros [= <-]. exists m, c, l.
  split; [reflexivity|]. split; [reflexivity|]. split; [exact Hv|]. split; [|reflexivity].
  intros ->. discriminate Ht.
Qed.

Lemma try_manifest_first cv m c l :
  cv = JStr c -> prop m "version" = JStr l -> l <> "" ->
  try_manifest Number cv (Ret (Response true (Ret m))) =
    Ret (Some (checkResult (compareVersions Number c l <? 0)%Z (JStr l) cv JNull)).
Proof.
  intros -> Hv Hl. unfold try_manifest, obind, getProp, compareVersions_call. cbn [ok json negb].
  assert (Hn : nullish m = false).
  { destruct m; try reflexivity; cbn [prop] in Hv; discriminate Hv. }
  rewrite Hn, Hv. cbn [truthy].
  replace (String.eqb l "") with false by (symmetry; apply String.eqb_neq; exact Hl).
  reflexivity.
Qed.

Lemma try_urls_some fetch cv urls r :
  try_urls Number fetch cv urls = Some r ->
  exists url, In url urls /\ try_manifest Number cv (fetch url) = Ret (Some r).
Proof.
  induction urls as [|u rest IH]; cbn [try_urls]; [discriminate|].
  destruct (try_manifest Number cv (fetch u)) as [[r0|]|] eqn:E.
  - intros [= <-]. exists u. split; [left; reflexivity | exact E].
  - intros H. destruct (IH H) as (url & Hin & Hm). exists url. split; [right|]; assumption.
  - intros H. destruct (IH H) as (url & Hin & Hm). exists url. split; [right|]; assumption.
Qed.

(** X18. The update check is memoised. Whatever the servers answer,
    [checkForUpdates] leaves its result in [updateCheckResult], the result
    is never [null], and every later call returns that same result,
    whatever version it is given and whatever the servers would answer
    then; this includes the result of a check that reached no server. *)
Theorem update_check_is_memoised
    (fetch : string -> outcome response) (currentVersion cache : jsval) :
  let r := fst (checkForUpdates Number fetch currentVersion cache) in
  snd (checkForUpdates Number fetch currentVersion cache) = r /\
  r <> JNull /\
  forall fetch' currentVersion',
    checkForUpdates Number fetch' currentVersion' r = (r, r).
Proof.
  assert (H : exists r0,
             checkForUpdates Number fetch currentVersion cache = (r0, r0) /\ r0 <> JNull /\
             forall fetch' currentVersion',
               checkForUpdates Number fetch' currentVersion' r0 = (r0, r0)).
  { unfold checkForUpdates at 1.
    destruct cache;
      try (eexists; split; [reflexivity|]; split; [discriminate | reflexivity]).
    destruct (try_urls Number fetch currentVersion MANIFEST_URLS) as [r|] eqn:E.
    - apply try_urls_some in E as (url & _ & Hm).
      apply try_manifest_some in Hm as (m & c & l & _ & _ & _ & _ & ->).
      eexists; split; [reflexivity|]; split; [discriminate | reflexivity].
    - eexists; split; [reflexivity|]; split; [discriminate | reflexivity]. }
  destruct H as (r0 & Hr & Hn & Hagain). rewrite Hr. cbn [fst snd]. auto.
Qed.

(** X19. The result of a first update check. An update is reported only
    if some manifest URL answered with [ok] and a manifest whose [version]
    is a string that [compareVersions] puts after the current version, and
    the result names that version. If the first URL gives a manifest with a
    non-empty string version, the result is decided by it alone. If the
    current version is not a string, or if every answer that arrives is not
    [ok], the result reports no update and the error text
    [Could not reach update server]. *)
Theorem update_check_result (fetch : string -> outcome response) (currentVersion : jsval) :
  let r := fst (checkForUpdates Number fetch currentVersion JNull) in
  (prop r "hasUpdate" = JBool true ->
   exists url m c l,
     In url MANIFEST_URLS /\ fetch url = Ret (Response true (Ret m)) /\
     currentVersion = JStr c /\ prop m "version" = JStr l /\
     compareVersions Number c l = (-1)%Z /\
     r = checkResult true (JStr l) currentVersion JNull) /\
  (forall m c l,
     fetch (hd "" MANIFEST_URLS) = Ret (Response true (Ret m)) ->
     currentVersion = JStr c -> prop m "version" = JStr l -> l <> "" ->
     r = checkResult (compareVersions Number c l <? 0)%Z (JStr l) currentVersion JNull) /\
  ((forall c, currentVersion <> JStr c) ->
   r = checkResult false JNull currentVersion (JStr "Could not reach update server")) /\
  ((forall url, In url MANIFEST_URLS ->
                forall resp, fetch url = Ret resp -> ok resp = false) ->
   r = checkResult false JNull currentVersion (JStr "Could not reach update server")).
Proof.
  intros r. subst r. unfold checkForUpdates. cbn [fst]. split; [|split; [|split]].
  - destruct (try_urls Number fetch currentVersion MANIFEST_URLS) as [r|] eqn:E;
      [|discriminate].
    apply try_urls_some in E as (url & Hin & Hm).
    apply try_manifest_some in Hm as (m & c & l & Hf & Hc & Hv & _ & ->).
    intros Hup. exists url, m, c, l.
    assert (Hlt : (compareVersions Number c l <? 0)%Z = true).
    { cbn in Hup. injection Hup as Hup. exact Hup. }
    rewrite Hlt. repeat split; try assumption.
    apply Z.ltb_lt in Hlt. unfold compareVersions in *.
    destruct (compare_loop_range
                (Nat.max (List.length (map Number (split_dot c)))
                   (List.length (map Number (split_dot l)))) 0
                (map Number (split_dot c)) (map Number (split_dot l))) as [H|[H|H]];
      [exact H | lia | lia].
  - intros m c l Hf Hc Hv Hl. cbn [MANIFEST_URLS hd] in Hf. cbn [MANIFEST_URLS try_urls].
    rewrite Hf, (try_manifest_first currentVersion m c l Hc Hv Hl). reflexivity.
  - intros Hc. destruct (try_urls Number fetch currentVersion MANIFEST_URLS) as [r|] eqn:E;
      [|reflexivity].
    apply try_urls_some in E as (url & _ & Hm).
    apply try_manifest_some in Hm as (m & c & l & _ & Hcv & _). destruct (Hc c Hcv).
  - intros Hall. destruct (try_urls Number fetch currentVersion MANIFEST_URLS) as [r|] eqn:E;
      [|reflexivity].
    apply try_urls_some in E as (url & Hin & Hm).
    apply try_manifest_some in Hm as (m & c & l & Hf & _).
    specialize (Hall url Hin _ Hf). discriminate Hall.
Qed.

End UpdateCheckerFacts.

Lemma str_app_assoc s t u :
  String.append (String.append s t) u = String.append s (String.append t u).
Proof.
  induction s as [|a s IH]; [reflexivity|]. rewrite !append_cons, IH. reflexivity.
Qed.

Lemma replace_char_app c e s1 s2 :
  replace_char c e (String.append s1 s2) =
    String.append (replace_char c e s1) (replace_char c e s2).
Proof.
  induction s1 as [|a s1 IH]; [reflexivity|].
  rewrite append_cons. cbn [replace_char]. rewrite IH.
  destruct (is_char a c); [rewrite str_app_assoc; reflexivity | reflexivity].
Qed.

Lemma is_char_true a c : is_char a (String c EmptyString) = true -> a = c.
Proof. unfold is_char. intros H. apply String.eqb_eq in H. injection H as H. exact H. Qed.

Lemma replace_chain_app s1 s2 :
  replace_chain (String.append s1 s2) = String.append (replace_chain s1) (replace_chain s2).
Proof. unfold replace_chain. rewrite !replace_char_app. reflexivity. Qed.

Lemma replace_chain_char a : replace_chain (String a EmptyString) = entity a.
Proof.
  unfold entity.
  destruct (is_char a "&") eqn:E1; [apply is_char_true in E1; subst a; reflexivity|].
  destruct (is_char a "<") eqn:E2; [apply is_char_true in E2; subst a; reflexivity|].
  destruct (is_char a ">") eqn:E3; [apply is_char_true in E3; subst a; reflexivity|].
  destruct (is_char a dquote) eqn:E4; [apply is_char_true in E4; subst a; reflexivity|].
  destruct (is_char a "'") eqn:E5; [apply is_char_true in E5; subst a; reflexivity|].
  unfold replace_chain. cbn [replace_char]. rewrite E1. cbn [replace_char]. rewrite E2.
  cbn [replace_char]. rewrite E3. cbn [replace_char]. rewrite E4. cbn [replace_char].
  rewrite E5. reflexivity.
Qed.

Lemma replace_chain_escape_each s : replace_chain s = escape_each s.
Proof.
  induction s as [|a s IH]; [reflexivity|].
  change (String a s) with (String.append (String a EmptyString) s).
  rewrite replace_chain_app, replace_chain_char, IH. reflexivity.
Qed.

Lemma markup_free_app s t :
  markup_free (String.append s t) = markup_free s && markup_free t.
Proof.
  induction s as [|a s IH]; [reflexivity|]. rewrite append_cons. cbn [markup_free].
  rewrite IH. rewrite !andb_assoc. reflexivity.
Qed.

Lemma markup_free_entity a : markup_free (entity a) = true.
Proof.
  unfold entity.
  destruct (is_char a "&") eqn:E1; [reflexivity|].
  destruct (is_char a "<") eqn:E2; [reflexivity|].
  destruct (is_char a ">") eqn:E3; [reflexivity|].
  destruct (is_char a dquote) eqn:E4; [reflexivity|].
  destruct (is_char a "'") eqn:E5; [reflexivity|].
  cbn [markup_free]. rewrite E2, E3, E4, E5. reflexivity.
Qed.

Lemma markup_free_escape_each s : markup_free (escape_each s) = true.
Proof.
  induction s as [|a s IH]; [reflexivity|]. cbn [escape_each].
  rewrite markup_free_app, markup_free_entity, IH. reflexivity.
Qed.

Section EscapingFacts.

Context (utf8_decode : string -> option string).

(** X20. [escapeHTML] on a string: the five replacements applied one
    after the other amount to replacing every character of the decoded
    text by its entity in one pass (the ampersands of the entities written
    by the first replacement are not touched by the later ones), and the
    result contains none of the characters [<], [>], the double quote and
    the single quote. *)
Theorem escapeHTML_neutralises_markup (text : string) :
  escapeHTML utf8_decode text = escape_each (decodeUTF8 utf8_decode text) /\
  markup_free (escapeHTML utf8_decode text) = true.
Proof.
  assert (H : escapeHTML utf8_decode text = escape_each (decodeUTF8 utf8_decode text)).
  { unfold escapeHTML. destruct (String.eqb text "") eqn:E.
    - unfold decodeUTF8. rewrite E. reflexivity.
    - apply replace_chain_escape_each. }
  split; [exact H|]. rewrite H. apply markup_free_escape_each.
Qed.

End EscapingFacts.

Lemma healthy_fresh db ls : healthy (fresh_world db ls).
Proof. intros k. split; reflexivity. Qed.

Lemma durable_round_trip_witness :
  fst (idbGet "k" (snd (idbSet literal_stringify "k" JUndefined (fresh_world ∅ [])))) = Ret JNull.
Proof.
  destruct (durable_round_trip literal_stringify "k" JUndefined (fresh_world ∅ [])) as [H _].
  apply H; reflexivity.
Defined.

Lemma settled_writes_in_call_order_witness :
  let w := set_inflight [("k", JBool true); ("k", JBool false)] (fresh_world ∅ []) in
  forage (settle_all literal_stringify w) !! "k" = Some (JBool false).
Proof.
  intros w.
  destruct (settled_writes_in_call_order literal_stringify w ltac:(reflexivity))
    as (_ & _ & _ & _ & H).
  apply (H [("k", JBool true)] "k" (JBool false)). reflexivity.
Defined.

Lemma durable_value_wins_witness :
  let w := fresh_world {[ "botBrowser_bookmarks" := sample_cards ]}
             [("botBrowser_bookmarks", "null")] in
  let w' := snd (initializeStorage literal_parse literal_stringify w) in
  read_slot "botBrowser_bookmarks" (memoryCache w') = sample_cards /\
  forage w' !! "botBrowser_bookmarks" = Some sample_cards /\
  localStorage w' = localStorage w.
Proof.
  intros w.
  apply (durable_value_wins literal_parse literal_stringify "botBrowser_bookmarks"
           sample_cards w);
    [reflexivity | apply healthy_fresh | cbn; tauto | vm_compute; reflexivity | reflexivity].
Defined.

Lemma legacy_value_migrates_witness :
  let w := fresh_world ∅ [("botBrowser_searchCollapsed", "true")] in
  let w' := snd (initializeStorage literal_parse literal_stringify w) in
  read_slot "botBrowser_searchCollapsed" (memoryCache w') = JBool true /\
  forage w' !! "botBrowser_searchCollapsed" = Some (stored (JBool true)) /\
  localStorage w' = localStorage w.
Proof.
  intros w.
  apply (legacy_value_migrates literal_parse literal_stringify "botBrowser_searchCollapsed"
           "true" (JBool true) w);
    [reflexivity | apply healthy_fresh | cbn; tauto | vm_compute; reflexivity | reflexivity
    | discriminate | reflexivity].
Defined.

Lemma unusable_legacy_keeps_default_witness :
  let w := fresh_world ∅ [("botBrowser_bookmarks", "[oops")] in
  let w' := snd (initializeStorage literal_parse literal_stringify w) in
  read_slot "botBrowser_bookmarks" (memoryCache w') = read_slot "botBrowser_bookmarks" (memoryCache w) /\
  forage w' !! "botBrowser_bookmarks" = None /\
  isStorageInitialized w' = true.
Proof.
  intros w.
  apply (unusable_legacy_keeps_default literal_parse literal_stringify
           "botBrowser_bookmarks" w);
    [reflexivity | apply healthy_fresh | cbn; tauto | vm_compute; reflexivity |].
  right. right. exists "[oops". split; reflexivity.
Defined.

Lemma persistent_search_survives_reload_witness :
  let st := Settings false true 10 in
  let w := fresh_world ∅ [] in
  let w1 := snd (savePersistentSearch search_stringify st "chub" (JStr "elf") (JStr "newest")
                   JUndefined JUndefined JUndefined JUndefined w) in
  let w2 := snd (initializeStorage search_parse search_stringify (restart w1)) in
  localStorage w1 = ls_update (lastSearch_prefix ++ "chub") "search" (localStorage w) /\
  loadPersistentSearch st "chub" w2 = js_or sample_search JNull.
Proof.
  intros st w.
  apply (persistent_search_survives_reload search_parse search_stringify st "chub"
           (JStr "elf") (JStr "newest") JUndefined JUndefined JUndefined JUndefined
           "search" sample_search w);
    [reflexivity | apply healthy_fresh | reflexivity | reflexivity | reflexivity |].
  intros k Hk. destruct Hk.
Defined.

Lemma unparseable_search_entry_stops_loading_witness :
  let w := fresh_world ∅ [("botBrowser_lastSearch_chub", "{oops");
                          ("botBrowser_lastSearch_janny", "null")] in
  let w' := snd (initializeStorage literal_parse literal_stringify w) in
  persistentSearches (memoryCache w') !! "janny" = persistentSearches (memoryCache w) !! "janny" /\
  isStorageInitialized w' = true.
Proof.
  intros w.
  apply (unparseable_search_entry_stops_loading literal_parse literal_stringify w []
           ["botBrowser_lastSearch_janny"] "botBrowser_lastSearch_chub" SyntaxError "janny");
    [reflexivity | apply healthy_fresh | reflexivity | reflexivity | reflexivity |].
  intros k Hk. destruct Hk.
Defined.

Lemma collection_survives_reload_witness :
  let w1 := snd (trackImportedCard "2026-01-01T00:00:00.000Z" (sample_card "c") JUndefined
                   sample_world) in
  let w2 := snd (initializeStorage literal_parse literal_stringify
                   (restart (settle_all literal_stringify w1))) in
  Ret (loadImportedCards w2) =
    fst (trackImportedCard "2026-01-01T00:00:00.000Z" (sample_card "c") JUndefined sample_world).
Proof.
  destruct (collection_survives_reload literal_parse literal_stringify sample_world
              [sample_card "a"; sample_card "b"] (healthy_fresh _ _) eq_refl) as [H _].
  apply H; [reflexivity | repeat constructor | reflexivity].
Defined.

Lemma fallback_copy_is_recovered_witness :
  let k := "botBrowser_searchCollapsed" in
  let w := with_faults all_fail no_faults no_faults
             (set_inflight [(k, JBool true)] (fresh_world ∅ [])) in
  let w1 := settle_all literal_stringify w in
  let w2 := snd (initializeStorage literal_parse literal_stringify
                   (with_faults no_faults no_faults (storage_set_fails w) (restart w1))) in
  forage w1 !! k = None /\
  ls_lookup k (localStorage w1) = Some "true" /\
  read_slot k (memoryCache w2) = JBool true /\
  forage w2 !! k = Some (stored (JBool true)).
Proof.
  intros k w.
  apply (fallback_copy_is_recovered literal_parse literal_stringify k (JBool true) (JBool true)
           "true" w);
    [cbn; tauto | reflexivity | reflexivity | reflexivity | vm_compute; reflexivity
    | reflexivity | discriminate | reflexivity].
Defined.

Lemma bookmark_membership_witness :
  isBookmarked (JStr "c") (snd (addBookmark "2026-01-01T00:00:00.000Z" (sample_card "c")
                                  sample_world)) = Ret true /\
  isBookmarked (JStr "a") (snd (removeBookmark (JStr "a") sample_world)) = Ret false.
Proof.
  destruct (bookmark_membership sample_world [sample_card "a"; sample_card "b"] eq_refl
              ltac:(repeat constructor)) as (Hadd & Hrem & _).
  split; [apply (Hadd _ (sample_card "c")); reflexivity | apply Hrem].
Defined.

Lemma remove_undoes_add_witness :
  let w1 := snd (addBookmark "2026-01-01T00:00:00.000Z" (sample_card "c") sample_world) in
  fst (removeBookmark (JStr "c") w1) = Ret (JArr [sample_card "a"; sample_card "b"]).
Proof.
  intros w1.
  destruct (remove_undoes_add "2026-01-01T00:00:00.000Z" (sample_card "c") sample_world
              [sample_card "a"; sample_card "b"] eq_refl ltac:(repeat constructor)
              eq_refl eq_refl eq_refl) as [H _].
  exact H.
Defined.

Lemma reimport_only_restamps_witness :
  fst (trackImportedCard "2026-01-01T00:00:00.000Z" (sample_card "b") JUndefined sample_world)
    = Ret (JArr [stamp "2026-01-01T00:00:00.000Z" (sample_card "b"); sample_card "a"]).
Proof.
  destruct (reimport_only_restamps "2026-01-01T00:00:00.000Z" (sample_card "b") JUndefined
              sample_world [sample_card "a"; sample_card "b"] 1 (sample_card "b")
              eq_refl ltac:(repeat constructor) eq_refl ltac:(cbn; lia) eq_refl eq_refl)
    as [H _].
  - intros j y Hj. destruct j as [|j]; [intros [= <-]; reflexivity | lia].
  - exact H.
Defined.

Lemma imports_are_capped_witness :
  exists l',
    fst (trackImportedCard "2026-01-01T00:00:00.000Z" (sample_card "c") JUndefined sample_world)
      = Ret (JArr l') /\ (List.length l' <= 500)%nat.
Proof.
  destruct (imports_are_capped "2026-01-01T00:00:00.000Z" (sample_card "c") JUndefined
              sample_world [sample_card "a"; sample_card "b"] eq_refl
              ltac:(repeat constructor) eq_refl) as (l' & H1 & H2 & _).
  exists l'. split; assumption.
Defined.

Lemma ttl_cache_misses_witness :
  let w := fresh_world {[ "chub:elf:1" := cacheEntry 1700000000000 (JStr "results") ]} [] in
  idbGetCachedApi 1700003599999 "chub:elf:1" None w = (Ret (JStr "results"), w) /\
  idbGetCachedApi 1700003600000 "chub:elf:1" None w = (Ret JNull, w) /\
  idbGetCachedApi 1700003600000 "chub:elf:2" None w = (Ret JNull, w).
Proof.
  intros w.
  split; [|split].
  - destruct (ttl_cache_misses 1700003599999 "chub:elf:1" None w) as (_ & _ & _ & H).
    apply (H 1700000000000 (JStr "results")); [vm_compute; reflexivity | reflexivity | lia].
  - destruct (ttl_cache_misses 1700003600000 "chub:elf:1" None w) as (_ & _ & _ & H).
    apply (H 1700000000000 (JStr "results")); [vm_compute; reflexivity | reflexivity | lia].
  - destruct (ttl_cache_misses 1700003600000 "chub:elf:2" None w) as (_ & H & _).
    apply H. vm_compute; reflexivity.
Defined.

Lemma scalars_survive_reload_witness :
  let w := fresh_world ∅ [] in
  let w1 := snd (saveSearchCollapsed (JBool false) w) in
  let w2 := snd (initializeStorage literal_parse literal_stringify
                   (restart (settle_all literal_stringify w1))) in
  loadSearchCollapsed w2 = JBool false.
Proof.
  intros w.
  destruct (scalars_survive_reload literal_parse literal_stringify (JBool false) w
              (healthy_fresh _ _) eq_refl eq_refl) as [H _].
  apply H. right. reflexivity.
Defined.

Lemma compareVersions_lexicographic_witness :
  compareVersions sample_Number "1.2" "1.2.0" = 0 /\
  compareVersions sample_Number "1.x" "1.0" = 0 /\
  compareVersions sample_Number "1.1.2" "1.2.0" = -1.
Proof.
  split; [|split].
  - destruct (compareVersions_lexicographic sample_Number "1.2" "1.2.0") as (_ & _ & H & _).
    apply H. intros [|[|[|i]]]; reflexivity.
  - destruct (compareVersions_lexicographic sample_Number "1.x" "1.0") as (_ & _ & H & _).
    apply H. intros [|[|i]]; reflexivity.
  - destruct (compareVersions_lexicographic sample_Number "1.1.2" "1.2.0") as (H & _).
    apply H. exists 1%nat. split; [|reflexivity].
    intros j Hj. destruct j as [|j]; [reflexivity | lia].
Defined.

Lemma update_check_result_witness :
  fst (checkForUpdates sample_Number sample_fetch (JStr "1.1.2") JNull)
    = checkResult true (JStr "1.2.0") (JStr "1.1.2") JNull /\
  fst (checkForUpdates sample_Number sample_fetch (JNum 1) JNull)
    = checkResult false JNull (JNum 1) (JStr "Could not reach update server").
Proof.
  split.
  - destruct (update_check_result sample_Number sample_fetch (JStr "1.1.2")) as (_ & H & _).
    apply (H (JObj [("version", JStr "1.2.0")]) "1.1.2" "1.2.0");
      [reflexivity | reflexivity | reflexivity | discriminate].
  - destruct (update_check_result sample_Number sample_fetch (JNum 1)) as (_ & _ & H & _).
    apply H. intros c. discriminate.
Defined.
